(** * Smart Summarizer: the transcript pipeline of [main.py], embedded and verified

    The development follows [src/main.py].  Python values are modelled as the
    code uses them:

    - a [str] is a [string] whose characters are code points below 256;
      [strip], [lower], [splitlines] and the regular expressions are written
      out for those code points;
    - an [int] is a [Z]; [len] returns a [Z];
    - a field of yt-dlp's info dict may be missing, may be [None], or holds
      a value of the type yt-dlp documents for it: a [str] for the title, the
      description, the uploader and the upload date, an [int] for the view
      count, an [int] or a [float] for the duration;
    - a [dict] whose iteration order matters is an association list with
      distinct keys, in insertion order;
    - everything the program reaches outside itself (the transcript API,
      yt-dlp, [requests], the clock, the generative model, [json.loads],
      [urljoin]) is a field of a [World]; a call is recorded in the history of
      events and its answer may depend on that history;
    - a function that logs, calls out or raises is a computation in the monad
      [M]: it takes the history and returns a result (a value or a raised
      exception) and the extended history, newest event first;
    - a loop with [break], [continue] and [return] is a recursive function
      over the list it iterates, its body returning a [flow];
    - clock readings are rationals; log lines are given without their
      decorative non-ASCII glyphs, and printing one is taken not to raise;
      the wording of the prompts is abstracted into the constructors of
      [Prompt]; [format_summary_output] is taken as given, a function that
      returns, since nothing proved here depends on what it returns; so is
      the construction of the model object at line 441. *)

From Stdlib Require Import String Ascii List ZArith QArith Bool Lia Arith.
From Stdlib Require Import DecimalString.
Import ListNotations.
Local Open Scope string_scope.
Local Open Scope Z_scope.

Set Implicit Arguments.
Set Warnings "-register-all".

(** ** Python strings *)

Module PyStr.

Definition code (c : ascii) : N := N_of_ascii c.

Definition in_range (lo hi : N) (c : ascii) : bool :=
  (N.leb lo (code c) && N.leb (code c) hi)%bool.

(** [str.isspace] on code points below 256: TAB..CR, FS..US, space, NEL, NBSP. *)
Definition is_space (c : ascii) : bool :=
  (in_range 9 13 c || in_range 28 32 c || N.eqb (code c) 133 || N.eqb (code c) 160)%bool.

(** Truth value of a [str]: non-empty. *)
Definition truthy (s : string) : bool := negb (s =? "")%string.

Fixpoint lstrip (s : string) : string :=
  match s with
  | EmptyString => EmptyString
  | String c r => if is_space c then lstrip r else s
  end.

Fixpoint rstrip (s : string) : string :=
  match s with
  | EmptyString => EmptyString
  | String c r =>
      let r' := rstrip r in
      if (is_space c && negb (truthy r'))%bool then EmptyString else String c r'
  end.

Definition strip (s : string) : string := rstrip (lstrip s).

(** [str.lower] on code points below 256: A..Z and the Latin-1 capitals
    (0xC0..0xDE without the multiplication sign 0xD7) move up by 32. *)
Definition lower_char (c : ascii) : ascii :=
  if (in_range 65 90 c || (in_range 192 222 c && negb (N.eqb (code c) 215)))%bool
  then ascii_of_N (code c + 32) else c.

Fixpoint lower (s : string) : string :=
  match s with
  | EmptyString => EmptyString
  | String c r => String (lower_char c) (lower r)
  end.

(** [s.startswith(p)] *)
Definition startswith (s p : string) : bool := String.prefix p s.

(** [m in s] *)
Fixpoint contains (m s : string) : bool :=
  (String.prefix m s ||
   match s with
   | EmptyString => false
   | String _ r => contains m r
   end)%bool.

(** [sep.join(l)] *)
Definition join (sep : string) (l : list string) : string := String.concat sep l.

(** [len(s)] *)
Definition len (s : string) : Z := Z.of_nat (String.length s).

Fixpoint drop (n : nat) (s : string) : string :=
  match n, s with
  | O, _ => s
  | S _, EmptyString => EmptyString
  | S n', String _ r => drop n' r
  end.

Fixpoint take (n : nat) (s : string) : string :=
  match n, s with
  | O, _ => EmptyString
  | S _, EmptyString => EmptyString
  | S n', String c r => String c (take n' r)
  end.

(** [s[i:j]] for [0 <= i] and [0 <= j]. *)
Definition slice (s : string) (i j : Z) : string :=
  take (Z.to_nat (j - i)) (drop (Z.to_nat i) s).

(** [s[:j]] for [0 <= j]. *)
Definition upto (s : string) (j : Z) : string := slice s 0 j.

(** Line boundaries of [str.splitlines] below 256: LF, VT, FF, CR, FS, GS,
    RS and NEL; CR LF counts once. *)
Definition is_linebreak (c : ascii) : bool :=
  (in_range 10 13 c || in_range 28 30 c || N.eqb (code c) 133)%bool.

Fixpoint splitlines_from (cur : string) (s : string) : list string :=
  match s with
  | EmptyString => if truthy cur then [cur] else []
  | String c r =>
      if N.eqb (code c) 13 then
        match r with
        | String c' r' =>
            if N.eqb (code c') 10 then cur :: splitlines_from "" r'
            else cur :: splitlines_from "" r
        | EmptyString => cur :: splitlines_from "" r
        end
      else if is_linebreak c then cur :: splitlines_from "" r
      else splitlines_from (cur ++ String c "") r
  end.

Definition splitlines (s : string) : list string := splitlines_from "" s.

(** [str(n)] for an [int]. *)
Definition of_Z (z : Z) : string := NilEmpty.string_of_int (Z.to_int z).

Definition of_nat (n : nat) : string := of_Z (Z.of_nat n).

End PyStr.

Import PyStr.

(** ** Exceptions, events and the world outside the program *)

(** The exceptions the program raises or catches: FastAPI's [HTTPException]
    and every other [Exception], known by its message. *)
Inductive exn : Type :=
| HTTPException (status_code : Z) (detail : string)
| Exception (msg : string).

(** [str(e)] *)
Definition str_exn (e : exn) : string :=
  match e with
  | HTTPException c d => of_Z c ++ ": " ++ d
  | Exception m => m
  end.

Inductive result (A : Type) : Type :=
| Ok (a : A)
| Raise (e : exn).

Arguments Ok {A} a.
Arguments Raise {A} e.

(** A caption track of the transcript API (line 108: [t.language],
    [t.language_code]). *)
Record Transcript : Type := {
  language : string;
  language_code : string
}.

(** A timed segment returned by [t.fetch()]: a dict read with
    [seg.get("text")]. *)
Record Segment : Type := { seg_text : option string }.

(** A subtitle candidate of yt-dlp: a dict read with [cand.get("url")]. *)
Record Cand : Type := { cand_url : option string }.

(** A value of the [subtitles] / [automatic_captions] dicts: a list of
    candidates, or something that is not a list (line 248). *)
Inductive TrackVal : Type :=
| TList (items : list Cand)
| TNotList.

(** A Python number: the duration yt-dlp reports is an [int] or a [float].
    A [float] is given by its value; NaN and the infinities behave in this
    program like any other non-zero [float]. *)
Inductive Number : Type :=
| Int (z : Z)
| Float (q : Q).

(** The info dict of [ydl.extract_info].  A field read with
    [info.get(key, default)] is [None] when the key is absent, [Some None]
    when the key is present with the value [None] (yt-dlp fills what it could
    not determine with [None]), and [Some (Some v)] otherwise.  The track
    dicts are read with [info.get(key) or {}]: the empty list stands for an
    absent key, [None] and the empty dict alike. *)
Record Info : Type := {
  title : option (option string);
  description : option (option string);
  uploader : option (option string);
  duration : option (option Number);
  view_count : option (option Z);
  upload_date : option (option string);
  subtitles : list (string * TrackVal);
  automatic_captions : list (string * TrackVal)
}.

(** A [requests] response: [status_code], [text], and [content] decoded as
    UTF-8 with errors ignored (line 300). *)
Record Response : Type := {
  status_code : Z;
  text : string;
  content_utf8 : string
}.

(** A parsed JSON document. *)
Inductive Json : Type :=
| JNull
| JBool (b : bool)
| JNum (q : Q)
| JStr (s : string)
| JArr (l : list Json)
| JObj (fields : list (string * Json)).

(** The prompts of [summarize_via_gemini]: the template chosen and the text
    spliced into it (the templates' wording is not reproduced). *)
Inductive Prompt : Type :=
| BulletPrompt (bc : Z) (chunk : string)
| ComprehensivePrompt (chunk : string)
| DetailedPrompt (chunk : string)
| ShortPrompt (chunk : string)
| MergeShortPrompt (combined : string)
| MergeBulletPrompt (bc : Z) (combined : string)
| MergeDetailedPrompt (combined : string).

Inductive Event : Type :=
| ELog (s : string)
| EListTranscripts (video_id : string)
| EFetch (t : Transcript)
| EExtractInfo (player_client : list string) (video_url : string) (download : bool)
| EHttpGet (url : string) (timeout : Z)
| EClock
| EGenerate (p : Prompt) (max_output_tokens : Z).

Definition History : Type := list Event.

(** What the program calls and cannot see into.  Each answer may depend on
    the history so far, so that an upstream may answer the same request
    differently at different times. *)
Record World : Type := {
  (** [YouTubeTranscriptApi.list_transcripts(video_id)], iterated *)
  list_transcripts : History -> string -> result (list Transcript);
  (** [t.fetch()] *)
  fetch : History -> Transcript -> result (list Segment);
  (** [YoutubeDL(opts).extract_info(url, download)] under a player client;
      [Ok None] is a falsy info *)
  extract_info : History -> list string -> string -> bool -> result (option Info);
  (** [requests.get(url, timeout=...)] *)
  requests_get : History -> string -> Z -> result Response;
  (** [time.time()], in seconds *)
  time_time : History -> Q;
  (** [_safe_gemini_text(model.generate_content(prompt, ...))] *)
  generate_content : History -> Prompt -> Z -> result string;
  (** [json.loads]; [None] when it raises *)
  json_loads : string -> option Json;
  (** [urllib.parse.urljoin] *)
  urljoin : string -> string -> string;
  (** [f"{a/b:.1f}"] on ints (float formatting) *)
  format_1f : Z -> Z -> string;
  (** [format_summary_output] (HTML presentation, lines 652-778), taken as
      given *)
  format_summary_output : string -> string -> string;
  (** [GEMINI_KEY] *)
  GEMINI_KEY : option string
}.

(** ** The monad of computations *)

Definition M (A : Type) : Type := History -> result A * History.

Definition ret {A} (a : A) : M A := fun h => (Ok a, h).

Definition bind {A B} (m : M A) (k : A -> M B) : M B :=
  fun h =>
    match m h with
    | (Ok a, h') => k a h'
    | (Raise e, h') => (Raise e, h')
    end.

Definition raise {A} (e : exn) : M A := fun h => (Raise e, h).

(** A step that only computes: its value, or the exception it raises. *)
Definition of_result {A} (r : result A) : M A := fun h => (r, h).

(** [try: m  except Exception as e: handler e] *)
Definition try_catch {A} (m : M A) (handler : exn -> M A) : M A :=
  fun h =>
    match m h with
    | (Ok a, h') => (Ok a, h')
    | (Raise e, h') => handler e h'
    end.

Definition emit (e : Event) : M unit := fun h => (Ok tt, e :: h).

(** [log(s)] (line 66) *)
Definition log (s : string) : M unit := emit (ELog s).

Declare Scope monad_scope.
Delimit Scope monad_scope with monad.
Notation "x <- c ;; k" := (bind c (fun x => k))
  (at level 100, c at next level, right associativity) : monad_scope.
Notation "c ;; k" := (bind c (fun _ => k))
  (at level 100, right associativity) : monad_scope.
Local Open Scope monad_scope.

(** How a loop body ends: fall to the next iteration, [break], or [return]. *)
Inductive flow (A : Type) : Type :=
| Next
| Break
| Return (v : A).

Arguments Next {A}.
Arguments Break {A}.
Arguments Return {A} v.

(** ** The program *)

Definition REQUEST_TIMEOUT : Z := 20.
Definition YTDLP_SOCKET_TIMEOUT : Z := 10.
Definition YTDLP_RETRIES : Z := 1.
Definition HLS_SEGMENT_LIMIT : Z := 30.

Definition LF : string := String (ascii_of_N 10) "".

(** *** [extract_video_id] (lines 84-91) *)

(** The class [[0-9A-Za-z_-]]. *)
Definition is_id_char (c : ascii) : bool :=
  (in_range 48 57 c || in_range 65 90 c || in_range 97 122 c
   || N.eqb (code c) 95 || N.eqb (code c) 45)%bool.

(** [[0-9A-Za-z_-]{n}] at the head of [s]: the group and what follows. *)
Fixpoint id_chars (n : nat) (s : string) : option (string * string) :=
  match n with
  | O => Some ("", s)
  | S n' =>
      match s with
      | String c r =>
          if is_id_char c then
            match id_chars n' r with
            | Some (g, rest) => Some (String c g, rest)
            | None => None
            end
          else None
      | EmptyString => None
      end
  end.

(** [(?:[&\?#]|$)] at the head of [s]; [$] also holds before a final newline. *)
Definition id_end (s : string) : bool :=
  match s with
  | EmptyString => true
  | String c r =>
      (N.eqb (code c) 38 || N.eqb (code c) 63 || N.eqb (code c) 35
       || (N.eqb (code c) 10 && negb (truthy r)))%bool
  end.

(** The first pattern, anchored at the head of [s]. *)
Definition match_watch (s : string) : option string :=
  let after :=
    if startswith s "v=" then Some (drop 2 s)
    else if startswith s "/" then Some (drop 1 s)
    else None in
  match after with
  | Some s' =>
      match id_chars 11 s' with
      | Some (g, rest) => if id_end rest then Some g else None
      | None => None
      end
  | None => None
  end.

(** The second pattern, anchored at the head of [s]. *)
Definition match_short (s : string) : option string :=
  if startswith s "youtu.be/" then
    match id_chars 11 (drop 9 s) with
    | Some (g, _) => Some g
    | None => None
    end
  else None.

(** The last pattern, anchored at the head of [s]. *)
Definition match_bare (s : string) : option string :=
  match id_chars 11 s with
  | Some (g, _) => Some g
  | None => None
  end.

(** [re.search]: the leftmost position where the anchored pattern matches. *)
Fixpoint re_search (anchored : string -> option string) (s : string) : option string :=
  match anchored s with
  | Some g => Some g
  | None =>
      match s with
      | EmptyString => None
      | String _ r => re_search anchored r
      end
  end.

Definition extract_video_id (url : string) : M string :=
  match re_search match_watch url with
  | Some g => ret g
  | None =>
      match re_search match_short url with
      | Some g => ret g
      | None =>
          match re_search match_bare url with
          | Some g => ret g
          | None => raise (HTTPException 400 "Invalid YouTube URL.")
          end
      end
  end.

Section Program.

Variable w : World.

(** Calls into the world: the answer is computed from the history before the
    call, and the call is recorded. *)
Definition call_list_transcripts (video_id : string) : M (list Transcript) :=
  fun h => (list_transcripts w h video_id, EListTranscripts video_id :: h).

Definition call_fetch (t : Transcript) : M (list Segment) :=
  fun h => (fetch w h t, EFetch t :: h).

Definition call_extract_info (player_client : list string) (video_url : string)
    (download : bool) : M (option Info) :=
  fun h => (extract_info w h player_client video_url download,
            EExtractInfo player_client video_url download :: h).

Definition call_requests_get (url : string) (timeout : Z) : M Response :=
  fun h => (requests_get w h url timeout, EHttpGet url timeout :: h).

Definition call_time : M Q :=
  fun h => (Ok (time_time w h), EClock :: h).

Definition call_generate (p : Prompt) (max_output_tokens : Z) : M string :=
  fun h => (generate_content w h p max_output_tokens, EGenerate p max_output_tokens :: h).

(** *** [try_transcript_api] (lines 93-137) *)

Definition english_variants : list string := ["english"; "en"; "en-us"; "en-gb"].

(** Line 111: [any(v in ln or v == lc for v in english_variants)]. *)
Definition is_english_track (t : Transcript) : bool :=
  let ln := lower (language t) in
  let lc := lower (language_code t) in
  existsb (fun v => (contains v ln || (v =? lc)%string)%bool) english_variants.

(** Lines 107-114: the loop that appends each track to one of two lists. *)
Fixpoint split_tracks (transcripts english_matches others : list Transcript)
  : list Transcript * list Transcript :=
  match transcripts with
  | [] => (english_matches, others)
  | t :: rest =>
      if is_english_track t
      then split_tracks rest (english_matches ++ [t]) others
      else split_tracks rest english_matches (others ++ [t])
  end.

(** Line 117. *)
Definition all_attempts_of (english_matches others : list Transcript) : list Transcript :=
  firstn 3 english_matches ++ firstn 1 others.

(** The attempt list built from a listing (lines 105-117). *)
Definition all_attempts (transcripts : list Transcript) : list Transcript :=
  let '(english_matches, others) := split_tracks transcripts [] [] in
  all_attempts_of english_matches others.

(** Line 124: the texts of the segments whose text is truthy, joined. *)
Definition segment_texts (fetched : list Segment) : list string :=
  flat_map (fun seg =>
              match seg_text seg with
              | Some s => if truthy s then [s] else []
              | None => []
              end) fetched.

Definition joined_text (fetched : list Segment) : string :=
  join " " (segment_texts fetched).

(** Line 129. *)
Definition is_empty_payload_signal (e : exn) : bool :=
  contains "no element found" (lower (str_exn e)).

(** Lines 120-132: one iteration of the loop over the attempts. *)
Definition attempt (n_attempts idx : nat) (t : Transcript) : M (flow (option string)) :=
  try_catch
    (log ("Fetching transcript " ++ of_nat (idx + 1) ++ "/" ++ of_nat n_attempts
          ++ ": " ++ language t ++ " (" ++ language_code t ++ ")") ;;
     fetched <- call_fetch t ;;
     match fetched with
     | [] => ret Next
     | _ :: _ =>
         let text := joined_text fetched in
         if truthy (strip text) then
           log ("Transcript fetched successfully: " ++ language t) ;;
           ret (Return (Some text))
         else ret Next
     end)
    (fun e =>
       if is_empty_payload_signal e then
         log "Transcript XML empty (likely HLS) - skipping" ;;
         ret (Return None)
       else
         log ("Transcript fetch attempt " ++ of_nat (idx + 1) ++ " failed: "
              ++ upto (str_exn e) 80) ;;
         ret Next).

(** Lines 119-132: the loop; falling off its end returns [None] (line 137). *)
Fixpoint attempt_loop (n_attempts idx : nat) (attempts : list Transcript)
  : M (option string) :=
  match attempts with
  | [] => ret None
  | t :: rest =>
      r <- attempt n_attempts idx t ;;
      match r with
      | Return v => ret v
      | _ => attempt_loop n_attempts (S idx) rest
      end
  end.

Definition try_transcript_api (video_id : string) (video_url : option string)
  : M (option string) :=
  try_catch
    (log "Attempting YouTubeTranscriptApi (free tier optimized)..." ;;
     transcripts <- call_list_transcripts video_id ;;
     let attempts := all_attempts transcripts in
     attempt_loop (length attempts) 0 attempts)
    (fun e =>
       log ("YouTubeTranscriptApi failed: " ++ upto (str_exn e) 100) ;;
       ret None).

(** *** [_extract_with_stable_client] (lines 141-201) *)

(** Lines 169-173: the player clients tried in turn.  The other options of
    [ydl_opts] are the same on every call and are not passed to the world;
    no caller passes [extra_opts]. *)
Definition strategies : list (list string) := [["android"]; ["ios"]; ["web"]].

(** [str(strategy['player_client'])]: the [repr] of a list of plain names. *)
Definition repr_clients (l : list string) : string :=
  "[" ++ join ", " (map (fun s => "'" ++ s ++ "'") l) ++ "]".

(** Line 191: the conditions no other client identity can change. *)
Definition is_permanent (e : exn) : bool :=
  let error_str := lower (str_exn e) in
  (contains "private video" error_str || contains "video unavailable" error_str)%bool.

(** Lines 177-196: one strategy.  [inl info] is the [return] of line 184;
    [inr last_error] falls to the next strategy. *)
Definition strategy_attempt (video_url : string) (download : bool)
    (n_strategies idx : nat) (strategy : list string) (last_error : option exn)
  : M (Info + option exn) :=
  try_catch
    (log ("Trying extraction strategy " ++ of_nat (idx + 1) ++ "/"
          ++ of_nat n_strategies ++ ": " ++ repr_clients strategy) ;;
     info <- call_extract_info strategy video_url download ;;
     match info with
     | Some i =>
         log ("Extraction successful with strategy: " ++ repr_clients strategy) ;;
         ret (inl i)
     | None => ret (inr last_error)
     end)
    (fun e =>
       log ("Strategy " ++ repr_clients strategy ++ " failed: " ++ upto (str_exn e) 100) ;;
       if is_permanent e then raise e
       else ret (inr (Some e))).

(** Lines 175-201. *)
Fixpoint strategy_loop (video_url : string) (download : bool)
    (n_strategies idx : nat) (todo : list (list string)) (last_error : option exn)
  : M Info :=
  match todo with
  | [] =>
      match last_error with
      | Some e => raise e
      | None => raise (Exception "All extraction strategies failed")
      end
  | strategy :: rest =>
      r <- strategy_attempt video_url download n_strategies idx strategy last_error ;;
      match r with
      | inl info => ret info
      | inr last_error' =>
          strategy_loop video_url download n_strategies (S idx) rest last_error'
      end
  end.

Definition _extract_with_stable_client (video_url : string) (download : bool) : M Info :=
  strategy_loop video_url download (length strategies) 0 strategies None.

(** *** [_subtitle_to_plain] (lines 203-218) *)

(** [d.get(k)] on a dict. *)
Fixpoint dict_get {A} (k : string) (d : list (string * A)) : option A :=
  match d with
  | [] => None
  | (k', v) :: rest => if (k' =? k)%string then Some v else dict_get k rest
  end.

Definition json_truthy (j : Json) : bool :=
  match j with
  | JNull => false
  | JBool b => b
  | JNum q => negb (Qeq_bool q 0)
  | JStr s => truthy s
  | JArr l => match l with [] => false | _ => true end
  | JObj f => match f with [] => false | _ => true end
  end.

(** [for x in j]: [None] when [j] is not iterable (a [TypeError]). *)
Definition json_iter (j : Json) : option (list Json) :=
  match j with
  | JArr l => Some l
  | JObj f => Some (map (fun kv => JStr (fst kv)) f)
  | JStr s => Some (map (fun c => JStr (String c "")) (list_ascii_of_string s))
  | _ => None
  end.

(** Collect over a list with a body that may raise: [None] as soon as one
    element raises. *)
Fixpoint collect_all {A B} (f : A -> option (list B)) (l : list A) : option (list B) :=
  match l with
  | [] => Some []
  | x :: rest =>
      match f x with
      | Some ys =>
          match collect_all f rest with
          | Some zs => Some (ys ++ zs)%list
          | None => None
          end
      | None => None
      end
  end.

(** Lines 212-213: [sg.get("utf8", "").strip()], kept when truthy; [None]
    when [sg] has no [get] or the value has no [strip]. *)
Definition seg_utf8 (sg : Json) : option (list string) :=
  match sg with
  | JObj f =>
      match dict_get "utf8" f with
      | None => Some []
      | Some (JStr s) => let t := strip s in if truthy t then Some [t] else Some []
      | Some _ => None
      end
  | _ => None
  end.

(** Line 211: [for sg in ev.get("segs") or []]. *)
Definition event_segs (ev : Json) : option (list string) :=
  match ev with
  | JObj f =>
      let segs_val :=
        match dict_get "segs" f with
        | Some v => if json_truthy v then v else JArr []
        | None => JArr []
        end in
      match json_iter segs_val with
      | Some sgs => collect_all seg_utf8 sgs
      | None => None
      end
  | _ => None
  end.

(** Lines 209-213; [None] when an exception reaches line 215. *)
Definition timedtext_segs (data : Json) : option (list string) :=
  match data with
  | JObj f =>
      match dict_get "events" f with
      | Some evs =>
          match json_iter evs with
          | Some l => collect_all event_segs l
          | None => None
          end
      | None => Some []
      end
  | _ => Some []
  end.

(** Line 217: [ln and not re.match(r"^(\d+|WEBVTT|-->)", ln)]. *)
Definition keep_line (ln : string) : bool :=
  (truthy ln &&
   negb (match ln with String c _ => in_range 48 57 c | EmptyString => false end
         || startswith ln "WEBVTT" || startswith ln "-->"))%bool.

Definition _subtitle_to_plain (s : string) : string :=
  let s := strip s in
  if negb (truthy s) then ""
  else
    let by_lines := join " " (map strip (filter keep_line (splitlines s))) in
    match json_loads w s with
    | Some data =>
        match timedtext_segs data with
        | Some ((_ :: _) as segs) => join " " segs
        | _ => by_lines
        end
    | None => by_lines
    end.

(** *** [try_ytdlp_subtitles] (lines 220-324) *)

(** [[a-z]+$] at the head of [s]; [seen] tells whether a letter was read. *)
Fixpoint letters_to_end (seen : bool) (s : string) : bool :=
  match s with
  | EmptyString => seen
  | String c r =>
      if in_range 97 122 c then letters_to_end true r
      else (seen && N.eqb (code c) 10 && negb (truthy r))%bool
  end.

(** Line 231: [re.match(r"^en([\-_][a-z]+)?$", lbl) is not None]. *)
Definition re_en_code (lbl : string) : bool :=
  if startswith lbl "en" then
    match drop 2 lbl with
    | EmptyString => true
    | String c r =>
        ((N.eqb (code c) 10 && negb (truthy r))
         || ((N.eqb (code c) 45 || N.eqb (code c) 95) && letters_to_end false r))%bool
    end
  else false.

(** Lines 225-234. *)
Definition is_english_label (label : string) : bool :=
  if negb (truthy label) then false
  else
    let lbl := lower label in
    (contains "english" lbl || re_en_code lbl || startswith lbl "en"
     || (lbl =? "eng")%string)%bool.

(** [d[k] = v] on a dict: a present key keeps its place. *)
Fixpoint dict_set {A} (k : string) (v : A) (d : list (string * A)) : list (string * A) :=
  match d with
  | [] => [(k, v)]
  | (k', v') :: rest =>
      if (k' =? k)%string then (k, v) :: rest else (k', v') :: dict_set k v rest
  end.

(** Line 241: [{**subs, **auto}]. *)
Definition dict_merge {A} (subs auto : list (string * A)) : list (string * A) :=
  fold_left (fun d kv => dict_set (fst kv) (snd kv) d) (subs ++ auto)%list [].

(** Lines 247-253. *)
Fixpoint split_candidates (tracks : list (string * TrackVal))
    (english_candidates other_candidates : list Cand) : list Cand * list Cand :=
  match tracks with
  | [] => (english_candidates, other_candidates)
  | (lang, TNotList) :: rest => split_candidates rest english_candidates other_candidates
  | (lang, TList items) :: rest =>
      if is_english_label lang
      then split_candidates rest (english_candidates ++ items) other_candidates
      else split_candidates rest english_candidates (other_candidates ++ items)
  end.

(** Lines 256-264. *)
Definition candidates_of (all_tracks : list (string * TrackVal))
    (english_candidates other_candidates : list Cand) : list Cand :=
  match english_candidates with
  | _ :: _ => firstn 3 english_candidates
  | [] =>
      match other_candidates with
      | _ :: _ => firstn 2 other_candidates
      | [] =>
          flat_map (fun kv => match snd kv with
                              | TList v => firstn 1 v
                              | TNotList => []
                              end) (firstn 2 all_tracks)
      end
  end.

(** The candidate list built from the info dict (lines 238-264). *)
Definition build_candidates (info : Info) : list Cand :=
  let all_tracks := dict_merge (subtitles info) (automatic_captions info) in
  let '(english_candidates, other_candidates) := split_candidates all_tracks [] [] in
  candidates_of all_tracks english_candidates other_candidates.

(** Line 295. *)
Definition max_segs : Z := Z.min HLS_SEGMENT_LIMIT 20.

(** Lines 289-292: the segment URLs a playlist lists. *)
Definition playlist_segments (url text : string) : list string :=
  map (fun ln => urljoin w url (strip ln))
      (filter (fun ln => (truthy ln && negb (startswith ln "#"))%bool) (splitlines text)).

(** Lines 297-305: one segment. *)
Definition fetch_segment (seg : string) (collected : list string) : M (list string) :=
  try_catch
    (rs <- call_requests_get seg 5 ;;
     if status_code rs =? 200 then
       let cleaned := _subtitle_to_plain (content_utf8 rs) in
       if truthy (strip cleaned) then ret (collected ++ [cleaned])%list
       else ret collected
     else ret collected)
    (fun e => log ("Segment fetch failed: " ++ str_exn e) ;; ret collected).

(** Lines 296-305: the loop over [segs[:max_segs]]. *)
Fixpoint segment_loop (segs : list string) (collected : list string) : M (list string) :=
  match segs with
  | [] => ret collected
  | seg :: rest =>
      collected' <- fetch_segment seg collected ;;
      segment_loop rest collected'
  end.

(** Lines 286-309: the branch taken for a streaming playlist. *)
Definition fetch_hls_playlist (url text : string) : M (flow (option string)) :=
  log "Detected HLS (.m3u8) subtitle playlist; fetching limited segments..." ;;
  let segs := playlist_segments url text in
  collected <- segment_loop (firstn (Z.to_nat max_segs) segs) [] ;;
  match collected with
  | _ :: _ =>
      log ("Fetched " ++ of_nat (length collected) ++ " HLS subtitle segments") ;;
      ret (Return (Some (join " " collected)))
  | [] => ret Next
  end.

(** Lines 267-318: one iteration of the loop over the candidates. *)
Definition try_candidate (start : Q) (idx : nat) (cand : Cand) : M (flow (option string)) :=
  now <- call_time ;;
  if negb (Qle_bool (now - start) (inject_Z REQUEST_TIMEOUT * (8 # 10))) then
    log "Subtitle extraction timeout approaching, stopping early" ;;
    ret Break
  else
    match cand_url cand with
    | None => ret Next
    | Some url =>
        if negb (truthy url) then ret Next
        else
          try_catch
            (r <- call_requests_get url (REQUEST_TIMEOUT / 2) ;;
             if ((status_code r =? 200) && truthy (strip (text r)))%bool then
               if startswith (lstrip (text r)) "#EXTM3U" then
                 fetch_hls_playlist url (text r)
               else
                 let cleaned := _subtitle_to_plain (text r) in
                 if truthy (strip cleaned) then
                   log ("yt_dlp subtitle fetch succeeded (candidate "
                        ++ of_nat (idx + 1) ++ ")") ;;
                   ret (Return (Some cleaned))
                 else ret Next
             else ret Next)
            (fun e =>
               log ("Subtitle fetch attempt " ++ of_nat (idx + 1) ++ " failed: "
                    ++ upto (str_exn e) 80) ;;
               ret Next)
    end.

(** Lines 266-318: [Some v] is a [return v]; [None] leaves the loop. *)
Fixpoint candidate_loop (start : Q) (idx : nat) (candidates : list Cand)
  : M (option (option string)) :=
  match candidates with
  | [] => ret None
  | cand :: rest =>
      r <- try_candidate start idx cand ;;
      match r with
      | Return v => ret (Some v)
      | Break => ret None
      | Next => candidate_loop start (S idx) rest
      end
  end.

Definition try_ytdlp_subtitles (video_url : string) : M (option string) :=
  log "Attempting yt_dlp subtitle extraction (optimized)..." ;;
  start <- call_time ;;
  try_catch
    (info <- _extract_with_stable_client video_url false ;;
     r <- candidate_loop start 0 (build_candidates info) ;;
     match r with
     | Some v => ret v
     | None => log "No usable subtitles found via yt_dlp" ;; ret None
     end)
    (fun e =>
       log ("yt_dlp subtitle extraction failed: " ++ upto (str_exn e) 100) ;;
       ret None).

(** *** [extract_transcript_from_youtube] (lines 328-411) *)

(** Truth value of an optional [str]: neither [None] nor empty. *)
Definition opt_truthy (s : option string) : bool :=
  match s with
  | Some t => truthy t
  | None => false
  end.

(** [d.get(key, default)] for a value that may be missing; on a field of the
    info dict, [info.get(key, default)] is [get_or field (Some default)]. *)
Definition get_or {A} (v : option A) (default : A) : A :=
  match v with
  | Some x => x
  | None => default
  end.

(** Line 341. *)
Definition two_field_text (title desc : string) : string :=
  "Title: " ++ title ++ LF ++ LF ++ "Description:" ++ LF ++ desc.

(** Lines 335-345: the title and description as a stand-in transcript;
    [transcript] is the value the variable has on entry.  The message of
    line 342 is formatted before it is logged: [title[:50]] raises a
    [TypeError] when the title is [None], and so does [len(desc)] when the
    description is; the handler of line 343 then replaces the text assigned
    at line 341 by the empty string. *)
Definition metadata_fallback (video_url : string) (transcript : option string)
  : M (option string) :=
  log "No subtitles available - using title and description as fallback." ;;
  try_catch
    (info <- _extract_with_stable_client video_url false ;;
     let title := get_or (title info) (Some "") in
     let desc := get_or (description info) (Some "") in
     if (opt_truthy title || opt_truthy desc)%bool then
       match title, desc with
       | Some title, Some desc =>
           log ("Using metadata fallback: title='" ++ upto title 50 ++ "...', desc_length="
                ++ of_Z (len desc)) ;;
           ret (Some (two_field_text title desc))
       | None, _ => raise (Exception "'NoneType' object is not subscriptable")
       | Some _, None => raise (Exception "object of type 'NoneType' has no len()")
       end
     else ret transcript)
    (fun e =>
       log ("Metadata fetch failed: " ++ str_exn e) ;;
       ret (Some "")).

(** [f"{z:02d}"] *)
Definition pad2 (z : Z) : string :=
  if ((0 <=? z) && (z <? 10))%bool then "0" ++ of_Z z else of_Z z.

(** Lines 362-367, for a duration that is an [int], a [float] or [None].
    For a non-zero [float], [duration % 60] is a [float] and the format
    [02d] of line 365 raises a [ValueError]. *)
Definition duration_str (duration : option Number) : result string :=
  match duration with
  | Some (Int d) =>
      if negb (d =? 0) then Ok (of_Z (d / 60) ++ ":" ++ pad2 (d mod 60))
      else Ok "Unknown"
  | Some (Float d) =>
      if negb (Qeq_bool d 0)
      then Raise (Exception "Unknown format code 'd' for object of type 'float'")
      else Ok "Unknown"
  | None => Ok "Unknown"
  end.

(** Lines 370-378, for a view count that is an [int] or [None]. *)
Definition view_str (view_count : option Z) : string :=
  match view_count with
  | Some view_count =>
      if negb (view_count =? 0) then
        if view_count >=? 1000000 then format_1f w view_count 1000000 ++ "M views"
        else if view_count >=? 1000 then format_1f w view_count 1000 ++ "K views"
        else of_Z view_count ++ " views"
      else "Unknown views"
  | None => "Unknown views"
  end.

(** [str(v)] for a value that is a [str] or [None], as an f-string prints it. *)
Definition str_or_none (v : option string) : string :=
  match v with
  | Some s => s
  | None => "None"
  end.

(** Lines 381-388. *)
Definition upload_date_str (upload_date : string) : string :=
  if (truthy upload_date && negb (upload_date =? "Unknown")%string)%bool then
    slice upload_date 0 4 ++ "-" ++ slice upload_date 4 6 ++ "-" ++ slice upload_date 6 8
  else upload_date.

Definition disclaimer : string :=
  "Note: Transcript/subtitles were not available for this video. This summary is based on the video metadata only.".

(** Lines 390-400: the text built from what lines 354-388 computed. *)
Definition fallback_text (title uploader duration_str view_str upload_date desc : string)
  : string :=
  "Video Title: " ++ title ++ LF ++ LF
  ++ "Uploader: " ++ uploader ++ LF
  ++ "Duration: " ++ duration_str ++ LF
  ++ "Views: " ++ view_str ++ LF
  ++ "Upload Date: " ++ upload_date ++ LF ++ LF
  ++ "Description:" ++ LF
  ++ desc ++ LF ++ LF
  ++ disclaimer.

(** Lines 354-400: the text for an info dict, or the exception raised on the
    way.  An upload date that is [None] fails the test of line 381 and is
    printed as it is. *)
Definition fallback_text_of (info : Info) : result string :=
  let title := get_or (title info) (Some "No title available") in
  let desc := get_or (description info) (Some "No description available") in
  let uploader := get_or (uploader info) (Some "Unknown") in
  let duration := get_or (duration info) (Some (Int 0)) in
  let view_count := get_or (view_count info) (Some 0) in
  let upload_date := get_or (upload_date info) (Some "Unknown") in
  match duration_str duration with
  | Ok duration_str =>
      let upload_date :=
        match upload_date with
        | Some d => upload_date_str d
        | None => str_or_none None
        end in
      Ok (fallback_text (str_or_none title) (str_or_none uploader) duration_str
                        (view_str view_count) upload_date (str_or_none desc))
  | Raise e => Raise e
  end.

Definition exhausted : exn :=
  HTTPException 400
    "Unable to extract transcript or metadata from this video. This may be because: 1) The video has no subtitles/captions, 2) The video is private or age-restricted, 3) YouTube is blocking automated access. Please try a different video.".

(** Lines 350-411: the last attempt, and the error when it fails too. *)
Definition final_metadata (video_url : string) : M string :=
  r <- try_catch
         (log "Final attempt: fetching video metadata..." ;;
          info <- _extract_with_stable_client video_url false ;;
          fallback_text <- of_result (fallback_text_of info) ;;
          if truthy (strip fallback_text) then
            log "Successfully retrieved metadata for summarization" ;;
            ret (Some fallback_text)
          else ret None)
         (fun e =>
            log ("Final metadata fetch also failed: " ++ str_exn e) ;;
            ret None) ;;
  match r with
  | Some fallback_text => ret fallback_text
  | None => raise exhausted
  end.

Definition extract_transcript_from_youtube (video_url : string) : M string :=
  log ("extract_transcript_from_youtube START for " ++ video_url) ;;
  vid <- extract_video_id video_url ;;
  transcript <- try_transcript_api vid (Some video_url) ;;
  transcript <- (if negb (opt_truthy transcript) then try_ytdlp_subtitles video_url
                 else ret transcript) ;;
  transcript <- (if negb (opt_truthy transcript) then metadata_fallback video_url transcript
                 else ret transcript) ;;
  match transcript with
  | Some t =>
      if (truthy t && truthy (strip t))%bool then ret t
      else final_metadata video_url
  | None => final_metadata video_url
  end.

(** *** [summarize_via_gemini] (lines 422-649) *)

Definition MAX_SAFE_CHUNK : Z := 80000.
Definition overlap : Z := 300.
Definition max_chunks : Z := 2.

(** Lines 436-439. *)
Definition normalize_summary_type (summary_type : string) : M string :=
  let summary_type := lower (strip (if truthy summary_type then summary_type else "short")) in
  if existsb (String.eqb summary_type) ["short"; "bullet"; "detailed"] then ret summary_type
  else
    log ("Unknown summary_type '" ++ summary_type ++ "', defaulting to 'short'") ;;
    ret "short".

(** [range(start, stop, step)] for a positive [step]. *)
Definition py_range (start stop step : Z) : list Z :=
  map (fun k => start + Z.of_nat k * step)
      (seq 0 (Z.to_nat ((stop - start + step - 1) / step))).

(** Lines 456-460: the loop over the offsets, left at [max_chunks]. *)
Fixpoint chunk_loop (text : string) (offsets : list Z) (chunks : list string)
  : list string :=
  match offsets with
  | [] => chunks
  | i :: rest =>
      let chunks' := (chunks ++ [slice text i (i + MAX_SAFE_CHUNK)])%list in
      if Z.of_nat (length chunks') >=? max_chunks then chunks'
      else chunk_loop text rest chunks'
  end.

(** Lines 445-460, on the stripped text. *)
Definition make_chunks (text : string) : list string :=
  let text_len := len text in
  if text_len <=? MAX_SAFE_CHUNK then [text]
  else
    let step := MAX_SAFE_CHUNK - overlap in
    chunk_loop text (py_range 0 text_len step) [].

(** [int(bullet_count) if bullet_count else 10] *)
Definition bullet_count_or_10 (bullet_count : option Z) : Z :=
  match bullet_count with
  | Some n => if n =? 0 then 10 else n
  | None => 10
  end.

(** Lines 468-545: the prompt and [max_tokens] of a chunk. *)
Definition chunk_prompt (summary_type : string) (bullet_count : option Z) (chunk : string)
  : Prompt * Z :=
  if (summary_type =? "bullet")%string then
    (BulletPrompt (bullet_count_or_10 bullet_count) chunk, 2500)
  else if (summary_type =? "comprehensive")%string then (ComprehensivePrompt chunk, 3000)
  else if (summary_type =? "detailed")%string then (DetailedPrompt chunk, 3000)
  else (ShortPrompt chunk, 1200).

(** Lines 466-559. *)
Fixpoint summarize_chunks (summary_type : string) (bullet_count : option Z)
    (n_chunks idx : nat) (chunks partials : list string) : M (list string) :=
  match chunks with
  | [] => ret partials
  | chunk :: rest =>
      partials' <-
        try_catch
          (let '(prompt, max_tokens) := chunk_prompt summary_type bullet_count chunk in
           result <- call_generate prompt max_tokens ;;
           if truthy (strip result) then
             log ("Chunk " ++ of_nat idx ++ "/" ++ of_nat n_chunks ++ " completed ("
                  ++ of_Z (len chunk) ++ " chars)") ;;
             ret (partials ++ [result])%list
           else
             log ("Empty response for chunk " ++ of_nat idx) ;;
             ret partials)
          (fun e =>
             log ("Error processing chunk " ++ of_nat idx ++ ": " ++ str_exn e) ;;
             ret partials) ;;
      summarize_chunks summary_type bullet_count n_chunks (S idx) rest partials'
  end.

(** Lines 575-633. *)
Definition merge_prompt (summary_type : string) (bullet_count : option Z) (combined : string)
  : Prompt :=
  if (summary_type =? "short")%string then MergeShortPrompt combined
  else if (summary_type =? "bullet")%string then
    MergeBulletPrompt (bullet_count_or_10 bullet_count) combined
  else MergeDetailedPrompt combined.

Definition key_configured : bool := opt_truthy (GEMINI_KEY w).

Definition summarize_via_gemini (text summary_type : string) (bullet_count : option Z)
    (target_lang : string) : M string :=
  if negb (truthy text) then ret "No text available to summarize."
  else if negb key_configured then
    ret (upto text 800 ++ (if len text >? 800 then "..." else ""))
  else
    summary_type <- normalize_summary_type summary_type ;;
    let text := strip text in
    let text_len := len text in
    let chunks := make_chunks text in
    log ("[Chunker v1.4.0] Processing " ++ of_nat (length chunks) ++ " chunk(s) (~"
         ++ of_Z MAX_SAFE_CHUNK ++ " chars each, total=" ++ of_Z text_len ++ ")") ;;
    partials <- summarize_chunks summary_type bullet_count (length chunks) 1 chunks [] ;;
    match partials with
    | [] =>
        log "No AI summary generated - returning formatted metadata" ;;
        ret (format_summary_output w (upto text 1500) "short")
    | [p] =>
        log "Summary generated successfully" ;;
        ret (format_summary_output w p summary_type)
    | _ =>
        let combined := join (LF ++ LF) partials in
        r <- try_catch
               (final_summary <- call_generate
                                   (merge_prompt summary_type bullet_count combined) 3500 ;;
                let final_summary := strip final_summary in
                if truthy final_summary then
                  log "Final summary merged and optimized" ;;
                  ret (Some (format_summary_output w final_summary summary_type))
                else ret None)
               (fun e =>
                  log ("Merge error: " ++ str_exn e) ;;
                  ret (Some (format_summary_output w (join (LF ++ LF) partials)
                                                   summary_type))) ;;
        match r with
        | Some out => ret out
        | None =>
            ret (format_summary_output w (join (LF ++ LF) (firstn 3 partials)) summary_type)
        end
    end.

(** *** [summarize_youtube] (lines 808-856) *)

Record YoutubeResponse : Type := {
  success : bool;
  summary : string;
  resp_video_url : string;
  resp_summary_type : string;
  transcript_length : Z;
  metadata_only : bool;
  warning : option string
}.

Definition metadata_marker : string := "Note: Transcript/subtitles were not available".

(** Lines 845-854. *)
Definition friendly_error (error_message : string) : string :=
  if (contains "HTTP Error 429" error_message
      || contains "Too Many Requests" error_message)%bool then
    "YouTube is rate-limiting requests. Please wait a few minutes and try again."
  else if (contains "sign in" (lower error_message)
           || contains "bot" (lower error_message))%bool then
    "YouTube detected automated access. This usually resolves itself after a few minutes. Try again shortly, or use a different video."
  else if (contains "Private video" error_message
           || contains "unavailable" (lower error_message))%bool then
    "This video is private, unavailable, or age-restricted and cannot be accessed."
  else if contains "Video unavailable" error_message then
    "This video is not available. It may have been deleted or made private."
  else if contains "All extraction strategies failed" error_message then
    "Unable to access this video. YouTube may be blocking automated requests. Please try again in a few minutes or use a different video."
  else error_message.

Definition summarize_youtube (video_url summary_type : string) (bullet_count : option Z)
    (target_lang : string) : M YoutubeResponse :=
  try_catch
    (log ("Processing YouTube: " ++ upto video_url 50 ++ "... (" ++ summary_type ++ ")") ;;
     transcript <- extract_transcript_from_youtube video_url ;;
     if negb (truthy (strip transcript)) then
       raise (HTTPException 400
                "No content could be extracted from this video. Please try a different video.")
     else
       let is_metadata_only := contains metadata_marker transcript in
       log ("Generating summary... (metadata_only="
            ++ (if is_metadata_only then "True" else "False") ++ ")") ;;
       final <- summarize_via_gemini transcript summary_type bullet_count "en" ;;
       ret {| success := true;
              summary := final;
              resp_video_url := video_url;
              resp_summary_type := summary_type;
              transcript_length := len transcript;
              metadata_only := is_metadata_only;
              warning := if is_metadata_only
                         then Some "This summary is based on video metadata only (no transcript available)"
                         else None |})
    (fun e =>
       match e with
       | HTTPException _ _ => raise e
       | Exception _ =>
           log ("Error in YouTube summarization: " ++ str_exn e) ;;
           raise (HTTPException 500 (friendly_error (str_exn e)))
       end).

End Program.

(** * The vocabulary of the properties *)

(** [s] has a character that [strip] keeps. *)
Fixpoint has_nonspace (s : string) : bool :=
  match s with
  | EmptyString => false
  | String c r => (negb (is_space c) || has_nonspace r)%bool
  end.

(** [c] occurs in [m]. *)
Fixpoint has_char (c : ascii) (m : string) : bool :=
  match m with
  | EmptyString => false
  | String d r => ((Ascii.eqb c d) || has_char c r)%bool
  end.

(** [m] never raises, and what it returns satisfies [Q]. *)
Definition yields {A} (Q : A -> Prop) (m : M A) : Prop :=
  forall h, exists a h', m h = (Ok a, h') /\ Q a.

(** Whatever [m] returns satisfies [Q]. *)
Definition returns {A} (Q : A -> Prop) (m : M A) : Prop :=
  forall h a h', m h = (Ok a, h') -> Q a.

(** [m] only adds events, all of them in [P]. *)
Definition emits {A} (P : Event -> Prop) (m : M A) : Prop :=
  forall h, exists l, snd (m h) = (l ++ h)%list /\ Forall P l.

(** The events of a call to the media-info extractor. *)
Definition is_extract (e : Event) : bool :=
  match e with
  | EExtractInfo _ _ _ => true
  | _ => false
  end.

(** How often [extract_info] has been called in a history; every invocation
    of the extractor calls it at least once. *)
Definition extractor_calls (h : History) : nat := length (filter is_extract h).

(** The URLs fetched with [requests.get] in a history, newest first. *)
Fixpoint http_gets (h : History) : list string :=
  match h with
  | [] => []
  | EHttpGet url _ :: r => url :: http_gets r
  | _ :: r => http_gets r
  end.

Definition is_other_track (t : Transcript) : bool := negb (is_english_track t).

(** A result that is not an empty success: no text, or text that [strip]
    leaves non-empty. *)
Definition nonblank (r : option string) : Prop :=
  match r with
  | Some t => truthy (strip t) = true
  | None => True
  end.

Definition nonblank_flow (r : flow (option string)) : Prop :=
  match r with
  | Return v => nonblank v
  | _ => True
  end.

Definition not_extract (e : Event) : Prop := is_extract e = false.

Definition any_event (e : Event) : Prop := True.

(** The message logged before a strategy is tried (line 178). *)
Definition trying_msg (n idx : nat) (strategy : list string) : string :=
  "Trying extraction strategy " ++ of_nat (idx + 1) ++ "/" ++ of_nat n ++ ": "
  ++ repr_clients strategy.

(** The message logged when a strategy raises (line 188). *)
Definition strategy_failed_msg (strategy : list string) (e : exn) : string :=
  "Strategy " ++ repr_clients strategy ++ " failed: " ++ upto (str_exn e) 100.

(** Every collected segment has text left after [strip] (line 302). *)
Definition all_nonblank (collected : list string) : Prop :=
  Forall (fun c => truthy (strip c) = true) collected.

Definition nonblank_return (r : option (option string)) : Prop :=
  match r with
  | Some v => nonblank v
  | None => True
  end.

Definition start_msg (video_url : string) : string :=
  "extract_transcript_from_youtube START for " ++ video_url.

(** What the metadata stage can leave in [transcript]: the value it had, the
    empty string of line 345, or the two-field text of line 341. *)
Definition metadata_result (transcript r : option string) : Prop :=
  r = transcript \/ r = Some "" \/
  exists title desc, r = Some (two_field_text title desc).

(** ** Sample worlds *)

Definition sample_url : string := "https://youtu.be/abc12345678".
Definition sample_id : string := "abc12345678".

Definition captions_disabled : exn := Exception "Subtitles are disabled for this video".

Definition private_video : exn :=
  Exception "ERROR: [youtube] abc12345678: Private video. Sign in if you have been granted access to this video".

Definition empty_payload : exn := Exception "no element found: line 1, column 0".

Definition connection_refused : exn := Exception "Connection refused".

(** A stand-in for the float formatting: one decimal, truncated. *)
Definition sample_format_1f (a b : Z) : string :=
  of_Z (a / b) ++ "." ++ of_Z ((10 * a / b) mod 10).

(** A world from its four upstream services; the clock stands still, the
    model answers every prompt, no payload parses as JSON, playlists list
    absolute URLs and the formatter returns its text unchanged. *)
Definition sample_world
    (lt : History -> string -> result (list Transcript))
    (fe : History -> Transcript -> result (list Segment))
    (ei : History -> list string -> string -> bool -> result (option Info))
    (rg : History -> string -> Z -> result Response) : World :=
  {| list_transcripts := lt;
     fetch := fe;
     extract_info := ei;
     requests_get := rg;
     time_time := fun _ => 0%Q;
     generate_content := fun _ _ _ => Ok "A summary.";
     json_loads := fun _ => None;
     urljoin := fun _ rel => rel;
     format_1f := sample_format_1f;
     format_summary_output := fun t _ => t;
     GEMINI_KEY := Some "key" |}.

Definition track (name lang : string) : Transcript :=
  {| language := name; language_code := lang |}.

Definition five_and_three : list Transcript :=
  [track "Spanish" "es"; track "English" "en"; track "English (auto-generated)" "en";
   track "German" "de"; track "English (United Kingdom)" "en-GB";
   track "English (United States)" "en-US"; track "Hindi" "hi";
   track "English (India)" "en-IN"].

(** A video with captions: the transcript API answers. *)
Definition captioned_world : World :=
  sample_world
    (fun _ _ => Ok [track "English" "en"])
    (fun _ _ => Ok [{| seg_text := Some "hello" |}; {| seg_text := Some "world" |}])
    (fun _ _ _ _ => Ok None)
    (fun _ _ _ => Raise connection_refused).

(** A private video: no captions, and yt-dlp refuses under every client. *)
Definition private_world : World :=
  sample_world
    (fun _ _ => Raise captions_disabled)
    (fun _ _ => Ok [])
    (fun _ _ _ _ => Raise private_video)
    (fun _ _ _ => Raise connection_refused).

Definition info_of (title description : string) (subs : list (string * TrackVal)) : Info :=
  {| title := Some (Some title);
     description := Some (Some description);
     uploader := None;
     duration := None;
     view_count := None;
     upload_date := None;
     subtitles := subs;
     automatic_captions := [] |}.

Definition cand (url : string) : Cand := {| cand_url := Some url |}.

(** An English and a French subtitle track. *)
Definition two_language_info : Info :=
  info_of "Talk" "About things"
    [("en", TList [cand "https://cdn.example/en.vtt"]);
     ("fr", TList [cand "https://cdn.example/fr.vtt"])].

(** No captions and no subtitles; only a title and a description. *)
Definition metadata_world (title description : string) : World :=
  sample_world
    (fun _ _ => Raise captions_disabled)
    (fun _ _ => Ok [])
    (fun _ _ _ _ => Ok (Some (info_of title description [])))
    (fun _ _ _ => Raise connection_refused).

(** A playlist that lists [n] segments. *)
Fixpoint segment_lines (n : nat) : string :=
  match n with
  | O => ""
  | S n' => segment_lines n' ++ "https://cdn.example/seg" ++ of_nat n' ++ ".vtt" ++ LF
  end.

Definition playlist_url : string := "https://cdn.example/subs.m3u8".

Definition playlist_response : Response :=
  {| status_code := 200;
     text := "#EXTM3U" ++ LF ++ "#EXT-X-TARGETDURATION:10" ++ LF ++ segment_lines 25;
     content_utf8 := "" |}.

Definition segment_response : Response :=
  {| status_code := 200; text := "hello"; content_utf8 := "WEBVTT" ++ LF ++ "hello" |}.

(** The subtitle track is a playlist of 25 segments, each of them served. *)
Definition playlist_world : World :=
  sample_world
    (fun _ _ => Raise captions_disabled)
    (fun _ _ => Ok [])
    (fun _ _ _ _ => Ok (Some (info_of "Talk" "About things"
                                      [("en", TList [cand playlist_url])])))
    (fun _ url _ => if (url =? playlist_url)%string then Ok playlist_response
                    else Ok segment_response).

(** [n] copies of a character. *)
Fixpoint replicate (n : nat) (c : ascii) : string :=
  match n with
  | O => ""
  | S n' => String c (replicate n' c)
  end.

(** A text 2.2 times as long as the safe chunk size. *)
Definition long_text : string := replicate (Z.to_nat 176000) "a".

(** The message logged before a track is fetched (line 121). *)
Definition fetching_msg (n idx : nat) (t : Transcript) : string :=
  "Fetching transcript " ++ of_nat (idx + 1) ++ "/" ++ of_nat n ++ ": "
  ++ language t ++ " (" ++ language_code t ++ ")".

(** The message logged when fetching a track fails (line 132). *)
Definition attempt_failed_msg (idx : nat) (e : exn) : string :=
  "Transcript fetch attempt " ++ of_nat (idx + 1) ++ " failed: " ++ upto (str_exn e) 80.

Definition subtitles_start_msg : string :=
  "Attempting yt_dlp subtitle extraction (optimized)...".

Definition subtitles_failed_msg (e : exn) : string :=
  "yt_dlp subtitle extraction failed: " ++ upto (str_exn e) 100.

(** The candidates a track adds to the English group, and to the other. *)
Definition english_items (kv : string * TrackVal) : list Cand :=
  match snd kv with
  | TList items => if is_english_label (fst kv) then items else []
  | TNotList => []
  end.

Definition other_items (kv : string * TrackVal) : list Cand :=
  match snd kv with
  | TList items => if is_english_label (fst kv) then [] else items
  | TNotList => []
  end.

Definition processing_msg (video_url summary_type : string) : string :=
  "Processing YouTube: " ++ upto video_url 50 ++ "... (" ++ summary_type ++ ")".

Definition metadata_warning : string :=
  "This summary is based on video metadata only (no transcript available)".

Definition anything {A} (_ : A) : Prop := True.

(** ** Further vocabulary *)

(** Every character of [s] satisfies [p]. *)
Fixpoint all_chars (p : ascii -> bool) (s : string) : bool :=
  match s with
  | EmptyString => true
  | String c r => (p c && all_chars p r)%bool
  end.

(** A video identifier: 11 characters of the class [[0-9A-Za-z_-]]. *)
Definition is_video_id (g : string) : Prop :=
  String.length g = 11%nat /\ all_chars is_id_char g = true.

Definition invalid_url : exn := HTTPException 400 "Invalid YouTube URL.".

(** The calls to [extract_info] recorded in a history, newest first. *)
Definition extract_events (h : History) : list Event := filter is_extract h.

(** An answer of [extract_info] that makes the extractor go on: a falsy
    info, or a failure that is not permanent. *)
Definition goes_on (r : result (option Info)) : Prop :=
  match r with
  | Ok (Some _) => False
  | Ok None => True
  | Raise e => is_permanent e = false
  end.

Definition all_failed : exn := Exception "All extraction strategies failed".

(** The keys of a dict, in order. *)
Definition dict_keys {A} (d : list (string * A)) : list string := map fst d.

Definition manual_and_auto_subs : list (string * TrackVal) :=
  [("en", TList [cand "https://cdn.example/manual-en.vtt"]);
   ("fr", TList [cand "https://cdn.example/manual-fr.vtt"])].

Definition manual_and_auto_auto : list (string * TrackVal) :=
  [("de", TList [cand "https://cdn.example/auto-de.vtt"]);
   ("en", TList [cand "https://cdn.example/auto-en.vtt"])].

Definition is_fetch (e : Event) : bool :=
  match e with
  | EFetch _ => true
  | _ => false
  end.

(** The calls to [t.fetch()] recorded in a history, newest first. *)
Definition fetch_events (h : History) : list Event := filter is_fetch h.

Definition api_start_msg : string :=
  "Attempting YouTubeTranscriptApi (free tier optimized)...".

(** A video whose only caption track is Spanish. *)
Definition spanish_only_world : World :=
  sample_world
    (fun _ _ => Ok [track "Spanish" "es"])
    (fun _ _ => Ok [{| seg_text := Some "hola" |}; {| seg_text := None |};
                    {| seg_text := Some "mundo" |}])
    (fun _ _ _ _ => Ok None)
    (fun _ _ _ => Raise connection_refused).

(** [m] adds at most [n] events of the kind [f]. *)
Definition adds_at_most (f : Event -> bool) (n : nat) {A} (m : M A) : Prop :=
  forall h, (length (filter f (snd (m h))) <= length (filter f h) + n)%nat.

(** The events of a kind that [allowed] admits. *)
Definition only (allowed : Event -> bool) (e : Event) : Prop := allowed e = true.

Definition is_generate (e : Event) : bool :=
  match e with
  | EGenerate _ _ => true
  | _ => false
  end.

Definition is_get (e : Event) : bool :=
  match e with
  | EHttpGet _ _ => true
  | _ => false
  end.

Definition is_listing (e : Event) : bool :=
  match e with
  | EListTranscripts _ => true
  | _ => false
  end.

Definition is_log (e : Event) : bool :=
  match e with
  | ELog _ => true
  | _ => false
  end.

(** What the caption fetcher may record. *)
Definition api_event (e : Event) : bool :=
  match e with
  | ELog _ | EListTranscripts _ | EFetch _ => true
  | _ => false
  end.

(** What the extractor may record. *)
Definition extractor_event (e : Event) : bool :=
  match e with
  | ELog _ | EExtractInfo _ _ _ => true
  | _ => false
  end.

(** What the direct-subtitles stage may record. *)
Definition subtitle_event (e : Event) : bool :=
  match e with
  | ELog _ | EClock | EExtractInfo _ _ _ | EHttpGet _ _ => true
  | _ => false
  end.

(** What the pipeline may record: anything but a call to the model. *)
Definition pipeline_event (e : Event) : bool := negb (is_generate e).

(** What the summarizer may record: log lines, and calls to the model that
    carry one of the prompts for the modes short, bullet and detailed or a
    merge prompt. *)
Definition summarizer_event (e : Event) : bool :=
  match e with
  | ELog _ => true
  | EGenerate (ComprehensivePrompt _) _ => false
  | EGenerate _ _ => true
  | _ => false
  end.

Definition valid_mode (summary_type : string) : Prop :=
  In summary_type ["short"; "bullet"; "detailed"].

(** What the loop over the subtitle candidates may record. *)
Definition candidate_event (e : Event) : bool :=
  match e with
  | ELog _ | EClock | EHttpGet _ _ => true
  | _ => false
  end.

(** What the loop over the caption tracks may record. *)
Definition attempt_event (e : Event) : bool :=
  match e with
  | ELog _ | EFetch _ => true
  | _ => false
  end.

(** An info dict in which yt-dlp determined nothing: every field is present
    with the value [None]. *)
Definition blank_info : Info :=
  {| title := Some None;
     description := Some None;
     uploader := Some None;
     duration := Some None;
     view_count := Some None;
     upload_date := Some None;
     subtitles := [];
     automatic_captions := [] |}.

(** No captions, no subtitles, and an info dict of [None] values. *)
Definition blank_metadata_world : World :=
  sample_world
    (fun _ _ => Raise captions_disabled)
    (fun _ _ => Ok [])
    (fun _ _ _ _ => Ok (Some blank_info))
    (fun _ _ _ => Raise connection_refused).

(** The text of the last stage for [blank_info]. *)
Definition unknown_video_text : string :=
  "Video Title: None" ++ LF ++ LF
  ++ "Uploader: None" ++ LF
  ++ "Duration: Unknown" ++ LF
  ++ "Views: Unknown views" ++ LF
  ++ "Upload Date: None" ++ LF ++ LF
  ++ "Description:" ++ LF
  ++ "None" ++ LF ++ LF
  ++ disclaimer.

(** The [ValueError] of line 365 for a duration that is a [float]. *)
Definition float_format_error : exn :=
  Exception "Unknown format code 'd' for object of type 'float'".

(** An info dict whose duration is the [float] 212.5. *)
Definition float_duration_info : Info :=
  {| title := Some (Some "Talk");
     description := Some (Some "About things");
     uploader := Some (Some "Someone");
     duration := Some (Some (Float (425 # 2)));
     view_count := Some (Some 1500);
     upload_date := Some (Some "20230615");
     subtitles := [];
     automatic_captions := [] |}.

Definition float_duration_world : World :=
  sample_world
    (fun _ _ => Raise captions_disabled)
    (fun _ _ => Ok [])
    (fun _ _ _ _ => Ok (Some float_duration_info))
    (fun _ _ _ => Raise connection_refused).

(** The messages logged around the two metadata stages (lines 335, 344, 352
    and 406). *)
Definition two_field_start_msg : string :=
  "No subtitles available - using title and description as fallback.".

Definition metadata_failed_msg (e : exn) : string :=
  "Metadata fetch failed: " ++ str_exn e.

Definition final_start_msg : string := "Final attempt: fetching video metadata...".

Definition final_failed_msg (e : exn) : string :=
  "Final metadata fetch also failed: " ++ str_exn e.

(** The message logged when a fetch finds an empty payload (line 130). *)
Definition skip_msg : string := "Transcript XML empty (likely HLS) - skipping".

(** The history in which the loop over the attempts (lines 119-132), started
    in [h] at index [idx], arrives at the attempt that follows [pre]; [None]
    when the loop is left before. *)
Fixpoint loop_reaches (w : World) (n idx : nat) (pre : list Transcript) (h : History)
  : option History :=
  match pre with
  | [] => Some h
  | t :: pre' =>
      match attempt w n idx t h with
      | (Ok (Return _), _) => None
      | (Ok _, h') => loop_reaches w n (S idx) pre' h'
      | (Raise _, _) => None
      end
  end.

(** Two caption tracks: fetching the English one is refused, fetching the
    Spanish one finds an empty XML payload. *)
Definition flaky_world : World :=
  sample_world
    (fun _ _ => Ok [track "English" "en"; track "Spanish" "es"])
    (fun _ t => if (language_code t =? "en")%string then Raise connection_refused
                else Raise empty_payload)
    (fun _ _ _ _ => Ok None)
    (fun _ _ _ => Raise connection_refused).

(** Every call to [extract_info] recorded in [l], on top of [hbase],
    returned a falsy info. *)
Fixpoint calls_falsy (w : World) (l hbase : History) : Prop :=
  match l with
  | [] => True
  | ev :: l' =>
      match ev with
      | EExtractInfo s url download =>
          extract_info w (l' ++ hbase)%list s url download = Ok None
      | _ => True
      end /\ calls_falsy w l' hbase
  end.

Definition rate_limited : exn := Exception "HTTP Error 429: Too Many Requests".

(** No captions; yt-dlp is rate-limited under the ios client and finds
    nothing under the others. *)
Definition rate_limited_world : World :=
  sample_world
    (fun _ _ => Raise captions_disabled)
    (fun _ _ => Ok [])
    (fun _ player_client _ _ =>
       match player_client with
       | [c] => if (c =? "ios")%string then Raise rate_limited else Ok None
       | _ => Ok None
       end)
    (fun _ _ _ => Raise connection_refused).

Definition QUOTE : string := String (ascii_of_N 34) "".

(** A timed-text document with two segments, as text and parsed. *)
Definition json3_text : string :=
  "{" ++ QUOTE ++ "events" ++ QUOTE ++ ": [{" ++ QUOTE ++ "segs" ++ QUOTE ++ ": [{"
  ++ QUOTE ++ "utf8" ++ QUOTE ++ ": " ++ QUOTE ++ "Hello" ++ QUOTE ++ "}, {"
  ++ QUOTE ++ "utf8" ++ QUOTE ++ ": " ++ QUOTE ++ " world" ++ QUOTE ++ "}]}]}".

Definition json3_document : Json :=
  JObj [("events",
         JArr [JObj [("segs", JArr [JObj [("utf8", JStr "Hello")];
                                    JObj [("utf8", JStr " world")]])]])].

(** No captions; yt-dlp lists one English subtitle track, served as a
    timed-text document. *)
Definition json3_world : World :=
  {| list_transcripts := fun _ _ => Raise captions_disabled;
     fetch := fun _ _ => Ok [];
     extract_info := fun _ _ _ _ =>
       Ok (Some (info_of "Talk" "About things"
                         [("en", TList [cand "https://cdn.example/en.json3"])]));
     requests_get := fun _ _ _ =>
       Ok {| status_code := 200; text := json3_text; content_utf8 := json3_text |};
     time_time := fun _ => 0%Q;
     generate_content := fun _ _ _ => Ok "A summary.";
     json_loads := fun s => if (s =? json3_text)%string then Some json3_document else None;
     urljoin := fun _ rel => rel;
     format_1f := sample_format_1f;
     format_summary_output := fun t _ => t;
     GEMINI_KEY := Some "key" |}.

(** An info dict whose title is [None]. *)
Definition untitled_info : Info :=
  {| title := Some None;
     description := Some (Some "About things");
     uploader := None;
     duration := Some (Some (Int 125));
     view_count := Some (Some 1500);
     upload_date := Some (Some "20230615");
     subtitles := [];
     automatic_captions := [] |}.

Definition untitled_world : World :=
  sample_world
    (fun _ _ => Raise captions_disabled)
    (fun _ _ => Ok [])
    (fun _ _ _ _ => Ok (Some untitled_info))
    (fun _ _ _ => Raise connection_refused).

Definition untitled_video_text : string :=
  "Video Title: None" ++ LF ++ LF
  ++ "Uploader: Unknown" ++ LF
  ++ "Duration: 2:05" ++ LF
  ++ "Views: 1.5K views" ++ LF
  ++ "Upload Date: 2023-06-15" ++ LF ++ LF
  ++ "Description:" ++ LF
  ++ "About things" ++ LF ++ LF
  ++ disclaimer.

Unset Implicit Arguments.

(** * Facts about the string operations *)

Section StringFacts.

Lemma truthy_lstrip (s : string) : truthy (lstrip s) = has_nonspace s.
Proof.
  induction s as [|c r IH]; simpl; [reflexivity|].
  destruct (is_space c); simpl; [exact IH | reflexivity].
Qed.

Lemma truthy_rstrip (s : string) : truthy (rstrip s) = has_nonspace s.
Proof.
  induction s as [|c r IH]; simpl; [reflexivity|].
  rewrite IH. destruct (is_space c), (has_nonspace r); reflexivity.
Qed.

Lemma has_nonspace_lstrip (s : string) : has_nonspace (lstrip s) = has_nonspace s.
Proof.
  induction s as [|c r IH]; simpl; [reflexivity|].
  destruct (is_space c) eqn:E; simpl; [exact IH | now rewrite E].
Qed.

Lemma truthy_strip (s : string) : truthy (strip s) = has_nonspace s.
Proof. unfold strip. now rewrite truthy_rstrip, has_nonspace_lstrip. Qed.

Lemma has_nonspace_app (a b : string) :
  has_nonspace (a ++ b) = (has_nonspace a || has_nonspace b)%bool.
Proof.
  induction a as [|c r IH]; simpl; [reflexivity|].
  rewrite IH. now rewrite orb_assoc.
Qed.

Lemma has_nonspace_join (sep x : string) (l : list string) :
  In x l -> has_nonspace x = true -> has_nonspace (join sep l) = true.
Proof.
  unfold join. induction l as [|y l IH]; simpl; [tauto|].
  intros [->|Hin] Hx.
  - destruct l; [exact Hx|]. rewrite has_nonspace_app, Hx. reflexivity.
  - destruct l as [|z l]; [destruct Hin|].
    rewrite !has_nonspace_app, (IH Hin Hx). now rewrite !orb_true_r.
Qed.


Lemma lstrip_fixed (s : string) :
  match s with String c _ => is_space c = false | EmptyString => True end ->
  lstrip s = s.
Proof. destruct s as [|c r]; simpl; [reflexivity|]. now intros ->. Qed.

Lemma length_take (n : nat) (s : string) :
  String.length (take n s) = Nat.min n (String.length s).
Proof.
  revert s. induction n as [|n IH]; intros [|c r]; simpl; try reflexivity.
  now rewrite IH.
Qed.

Lemma length_drop (n : nat) (s : string) :
  String.length (drop n s) = (String.length s - n)%nat.
Proof.
  revert s. induction n as [|n IH]; intros [|c r]; simpl; try reflexivity.
  apply IH.
Qed.

Lemma len_slice (s : string) (i j : Z) :
  0 <= i <= j ->
  len (slice s i j) = Z.min (j - i) (Z.max 0 (len s - i)).
Proof.
  intros H. unfold len, slice. rewrite length_take, length_drop. lia.
Qed.

Lemma prefix_across (c : ascii) (m a b : string) :
  has_char c m = false ->
  String.prefix m (a ++ String c b) = String.prefix m a.
Proof.
  revert a. induction m as [|y m IH]; intros a Hc.
  - now destruct a.
  - simpl in Hc. apply orb_false_iff in Hc as [Hy Hm].
    destruct a as [|x a]; simpl.
    + destruct (ascii_dec y c) as [->|]; [|reflexivity].
      now rewrite Ascii.eqb_refl in Hy.
    + destruct (ascii_dec y x); [now apply IH | reflexivity].
Qed.

Lemma contains_nil (m : string) : truthy m = true -> contains m "" = false.
Proof. now destruct m. Qed.

(** An occurrence of [m] cannot straddle a character that [m] lacks. *)
Lemma contains_across (c : ascii) (m a b : string) :
  has_char c m = false -> truthy m = true ->
  contains m (a ++ String c b) = (contains m a || contains m b)%bool.
Proof.
  intros Hc Hm. induction a as [|x a IH].
  - rewrite (contains_nil _ Hm). cbn [append contains orb].
    change (String c b) with ("" ++ String c b). rewrite prefix_across by exact Hc.
    destruct m; [discriminate | reflexivity].
  - cbn [append contains]. rewrite IH.
    change (String x (a ++ String c b)) with (String x a ++ String c b).
    rewrite prefix_across by exact Hc. now rewrite orb_assoc.
Qed.

(** An occurrence of [m] cannot start at a character other than its first. *)
Lemma contains_skip (x : ascii) (m s : string) :
  match m with String y _ => Ascii.eqb y x = false | EmptyString => False end ->
  contains m (String x s) = contains m s.
Proof.
  destruct m as [|y m]; [tauto|]. intros H. cbn [contains prefix].
  destruct (ascii_dec y x) as [->|]; [now rewrite Ascii.eqb_refl in H | reflexivity].
Qed.

End StringFacts.

(** * Reasoning about computations *)

Section Computations.

Context {A B : Type}.

Lemma yields_returns (Q : A -> Prop) m : yields Q m -> returns Q m.
Proof.
  intros H h a h' E. destruct (H h) as (a0 & h0 & E0 & Ha). congruence.
Qed.

Lemma yields_ret (Q : A -> Prop) a : Q a -> yields Q (ret a).
Proof. intros H h. exists a, h. now split. Qed.

Lemma returns_ret (Q : A -> Prop) a : Q a -> returns Q (ret a).
Proof. intros H h a0 h' E. unfold ret in E. congruence. Qed.

Lemma returns_raise (Q : A -> Prop) e : returns Q (raise e).
Proof. intros h a h' E. discriminate. Qed.

Lemma yields_catch (Q : A -> Prop) m handler :
  returns Q m -> (forall e, yields Q (handler e)) -> yields Q (try_catch m handler).
Proof.
  intros Hm Hh h. unfold try_catch. destruct (m h) as [[a|e] h'] eqn:E.
  - exists a, h'. split; [reflexivity | eapply Hm; eassumption].
  - apply Hh.
Qed.

Lemma returns_catch (Q : A -> Prop) m handler :
  returns Q m -> (forall e, returns Q (handler e)) -> returns Q (try_catch m handler).
Proof.
  intros Hm Hh h a h1. unfold try_catch. destruct (m h) as [[a0|e] h'] eqn:E.
  - intros [= <- <-]. eapply Hm; eassumption.
  - apply Hh.
Qed.

Lemma emits_ret P (a : A) : emits P (ret a).
Proof. intros h. exists []. now split. Qed.

Lemma emits_raise P e : emits P (raise e : M A).
Proof. intros h. exists []. now split. Qed.

Lemma emits_of_result P (r : result A) : emits P (of_result r).
Proof. intros h. exists []. now split. Qed.

Lemma of_result_run (r : result A) h : of_result r h = (r, h).
Proof. reflexivity. Qed.

Lemma emits_catch P (m : M A) handler :
  emits P m -> (forall e, emits P (handler e)) -> emits P (try_catch m handler).
Proof.
  intros Hm Hh h. unfold try_catch. destruct (Hm h) as (l & E & Hl).
  destruct (m h) as [[a|e] h']; simpl in E; subst h'.
  - exists l. now split.
  - destruct (Hh e (l ++ h)%list) as (l' & E' & Hl').
    exists (l' ++ l)%list. rewrite E', app_assoc. split; [reflexivity|].
    now apply Forall_app.
Qed.

Lemma emits_weaken (P P' : Event -> Prop) (m : M A) :
  (forall e, P e -> P' e) -> emits P m -> emits P' m.
Proof.
  intros HP Hm h. destruct (Hm h) as (l & E & Hl). exists l. split; [exact E|].
  eapply Forall_impl; eassumption.
Qed.

Lemma yields_bind (P : A -> Prop) (Q : B -> Prop) m (k : A -> M B) :
  yields P m -> (forall a, P a -> yields Q (k a)) -> yields Q (bind m k).
Proof.
  intros Hm Hk h. unfold bind. destruct (Hm h) as (a & h' & -> & Ha).
  now apply Hk.
Qed.

Lemma returns_bind (P : A -> Prop) (Q : B -> Prop) m (k : A -> M B) :
  returns P m -> (forall a, P a -> returns Q (k a)) -> returns Q (bind m k).
Proof.
  intros Hm Hk h b h1. unfold bind. destruct (m h) as [[a|e] h'] eqn:E; [|discriminate].
  apply Hk. eapply Hm; eassumption.
Qed.

Lemma emits_bind P (m : M A) (k : A -> M B) :
  emits P m -> (forall a, emits P (k a)) -> emits P (bind m k).
Proof.
  intros Hm Hk h. unfold bind. destruct (Hm h) as (l & E & Hl).
  destruct (m h) as [[a|e] h']; simpl in E; subst h'.
  - destruct (Hk a (l ++ h)%list) as (l' & E' & Hl').
    exists (l' ++ l)%list. rewrite E', app_assoc. split; [reflexivity|].
    now apply Forall_app.
  - exists l. now split.
Qed.

End Computations.

Lemma returns_any {A} (m : M A) : returns (fun _ => True) m.
Proof. intros h a h' _. exact I. Qed.

Lemma yields_emit (e : Event) : yields (fun _ => True) (emit e).
Proof. intros h. exists tt, (e :: h). now split. Qed.

Lemma emits_emit (P : Event -> Prop) (e : Event) : P e -> emits P (emit e).
Proof. intros H h. exists [e]. split; [reflexivity | now constructor]. Qed.

Lemma emits_call {A} (P : Event -> Prop) (e : Event) (f : History -> result A) :
  P e -> emits P (fun h => (f h, e :: h)).
Proof. intros H h. exists [e]. split; [reflexivity | now constructor]. Qed.

Lemma extractor_calls_app (l h : History) :
  extractor_calls (l ++ h)%list = (extractor_calls l + extractor_calls h)%nat.
Proof. unfold extractor_calls. now rewrite filter_app, length_app. Qed.

Lemma extractor_calls_none (l : History) :
  Forall (fun e => is_extract e = false) l -> extractor_calls l = 0%nat.
Proof.
  unfold extractor_calls. induction 1 as [|e l He _ IH]; simpl; [reflexivity|].
  now rewrite He.
Qed.

(** One step of a proof that a computation yields, returns or emits. *)
Ltac step :=
  match goal with
  | |- yields _ (ret _) => apply yields_ret
  | |- returns _ (ret _) => apply returns_ret
  | |- returns _ (raise _) => apply returns_raise
  | |- emits _ (ret _) => apply emits_ret
  | |- emits _ (raise _) => apply emits_raise
  | |- emits _ (of_result _) => apply emits_of_result
  | |- emits _ (log _) => apply emits_emit
  | |- emits _ (emit _) => apply emits_emit
  | |- yields _ (bind (log _) _) =>
      eapply yields_bind; [apply yields_emit | intros ? _]
  | |- returns _ (bind _ _) => eapply returns_bind; [apply returns_any | intros ? _]
  | |- emits _ (bind _ _) => apply emits_bind; [|intros ?]
  | |- yields _ (try_catch _ _) => apply yields_catch; [|intros ?]
  | |- returns _ (try_catch _ _) => apply returns_catch; [|intros ?]
  | |- emits _ (try_catch _ _) => apply emits_catch; [|intros ?]
  | |- context [if ?b then _ else _] => destruct b eqn:?
  | |- context [match ?x with _ => _ end] => destruct x eqn:?
  end.

Lemma bind_run {A B} (m : M A) (k : A -> M B) h a h' :
  m h = (Ok a, h') -> bind m k h = k a h'.
Proof. unfold bind. now intros ->. Qed.

Lemma bind_run_raise {A B} (m : M A) (k : A -> M B) h e h' :
  m h = (Raise e, h') -> bind m k h = (Raise e, h').
Proof. unfold bind. now intros ->. Qed.

Lemma catch_run {A} (m : M A) handler h a h' :
  m h = (Ok a, h') -> try_catch m handler h = (Ok a, h').
Proof. unfold try_catch. now intros ->. Qed.

Lemma catch_run_raise {A} (m : M A) handler h e h' :
  m h = (Raise e, h') -> try_catch m handler h = handler e h'.
Proof. unfold try_catch. now intros ->. Qed.

Lemma log_run s h : log s h = (Ok tt, ELog s :: h).
Proof. reflexivity. Qed.

(** * The caption fetcher *)

Section CaptionFetcher.

Variable w : World.

Lemma split_tracks_filter (transcripts english_matches others : list Transcript) :
  split_tracks transcripts english_matches others =
  ((english_matches ++ filter is_english_track transcripts)%list,
   (others ++ filter is_other_track transcripts)%list).
Proof.
  revert english_matches others.
  induction transcripts as [|t rest IH]; intros e o; simpl.
  - now rewrite !app_nil_r.
  - unfold is_other_track at 1. destruct (is_english_track t); simpl; rewrite IH.
    + now rewrite <- app_assoc.
    + now rewrite <- app_assoc.
Qed.

Lemma all_attempts_filter (transcripts : list Transcript) :
  all_attempts transcripts =
  (firstn 3 (filter is_english_track transcripts)
   ++ firstn 1 (filter is_other_track transcripts))%list.
Proof. unfold all_attempts. now rewrite split_tracks_filter. Qed.

Lemma attempt_yields (n idx : nat) (t : Transcript) :
  yields nonblank_flow (attempt w n idx t).
Proof.
  unfold attempt. apply yields_catch.
  - repeat step; simpl; auto.
  - intros e. repeat step; simpl; auto.
Qed.

Lemma attempt_loop_yields (n idx : nat) (attempts : list Transcript) :
  yields nonblank (attempt_loop w n idx attempts).
Proof.
  revert idx. induction attempts as [|t rest IH]; intros idx; simpl.
  - now apply yields_ret.
  - eapply yields_bind; [apply attempt_yields|].
    intros [| |v] Hv; auto. now apply yields_ret.
Qed.

Lemma try_transcript_api_yields (video_id : string) (video_url : option string) :
  yields nonblank (try_transcript_api w video_id video_url).
Proof.
  unfold try_transcript_api. apply yields_catch.
  - step. step. apply yields_returns, attempt_loop_yields.
  - intros e. repeat step. exact I.
Qed.

(** A truthy result of a stage is text that passes the check of line 347. *)
Lemma nonblank_truthy (r : option string) :
  nonblank r -> opt_truthy r = true ->
  exists t, r = Some t /\ (truthy t && truthy (strip t))%bool = true.
Proof.
  destruct r as [t|]; simpl; [|discriminate].
  intros Hs Ht. exists t. now rewrite Hs, Ht.
Qed.

Lemma attempt_emits (n idx : nat) (t : Transcript) :
  emits not_extract (attempt w n idx t).
Proof.
  unfold attempt, call_fetch.
  apply emits_catch.
  - apply emits_bind; [now apply emits_emit|]. intros _.
    apply emits_bind; [now apply emits_call|]. intros fetched.
    repeat step; reflexivity.
  - intros e. repeat step; reflexivity.
Qed.

Lemma attempt_loop_emits (n idx : nat) (attempts : list Transcript) :
  emits not_extract (attempt_loop w n idx attempts).
Proof.
  revert idx. induction attempts as [|t rest IH]; intros idx; simpl.
  - apply emits_ret.
  - apply emits_bind; [apply attempt_emits|].
    intros [| |v]; auto. apply emits_ret.
Qed.

Lemma try_transcript_api_emits (video_id : string) (video_url : option string) :
  emits not_extract (try_transcript_api w video_id video_url).
Proof.
  unfold try_transcript_api, call_list_transcripts. apply emits_catch.
  - apply emits_bind; [now apply emits_emit|]. intros _.
    apply emits_bind; [now apply emits_call|]. intros ts.
    apply attempt_loop_emits.
  - intros e. repeat step. reflexivity.
Qed.

Lemma attempt_one_fetch (n idx : nat) (t : Transcript) (h : History) :
  fetch_events (snd (attempt w n idx t h)) = EFetch t :: fetch_events h.
Proof.
  unfold attempt, try_catch, bind, log, emit, call_fetch, ret.
  destruct (fetch w _ t) as [[|seg segs]|e]; simpl; try reflexivity.
  - destruct (truthy _); reflexivity.
  - destruct (is_empty_payload_signal e); reflexivity.
Qed.

Lemma fetcher_runs_loop (video_id : string) (video_url : option string) (h : History)
    (transcripts : list Transcript) :
  list_transcripts w (ELog api_start_msg :: h) video_id = Ok transcripts ->
  try_transcript_api w video_id video_url h =
  attempt_loop w (length (all_attempts transcripts)) 0 (all_attempts transcripts)
    (EListTranscripts video_id :: ELog api_start_msg :: h).
Proof.
  intros Hl. unfold try_transcript_api, try_catch.
  rewrite (bind_run _ _ _ _ _ (log_run _ h)). fold api_start_msg.
  unfold bind at 1, call_list_transcripts. rewrite Hl. cbv zeta.
  destruct (attempt_loop_yields (length (all_attempts transcripts)) 0
              (all_attempts transcripts)
              (EListTranscripts video_id :: ELog api_start_msg :: h)) as (r & h' & E & _).
  now rewrite E.
Qed.

(** What one attempt does when fetching the track raises (lines 128-132). *)
Lemma attempt_raising (n idx : nat) (t : Transcript) (h : History) (e : exn) :
  fetch w (ELog (fetching_msg n idx t) :: h) t = Raise e ->
  attempt w n idx t h =
  if is_empty_payload_signal e
  then (Ok (Return None), ELog skip_msg :: EFetch t :: ELog (fetching_msg n idx t) :: h)
  else (Ok Next,
        ELog (attempt_failed_msg idx e) :: EFetch t :: ELog (fetching_msg n idx t) :: h).
Proof.
  intros Hf. unfold attempt, try_catch, bind, log, emit, call_fetch.
  fold (fetching_msg n idx t). rewrite Hf.
  destruct (is_empty_payload_signal e); reflexivity.
Qed.

Lemma loop_from_reached (n : nat) (pre rest : list Transcript) :
  forall idx h hk,
  loop_reaches w n idx pre h = Some hk ->
  attempt_loop w n idx (pre ++ rest)%list h =
  attempt_loop w n (idx + length pre) rest hk.
Proof.
  induction pre as [|t pre IH]; intros idx h hk H.
  - cbn [loop_reaches] in H. injection H as ->. cbn [app length].
    now rewrite Nat.add_0_r.
  - cbn [loop_reaches] in H. cbn [app attempt_loop length]. unfold bind.
    destruct (attempt w n idx t h) as [[[| |v]|e] h']; try discriminate;
      rewrite (IH _ _ _ H); f_equal; lia.
Qed.

Lemma loop_reaches_fetches (n : nat) (pre : list Transcript) :
  forall idx h hk,
  loop_reaches w n idx pre h = Some hk ->
  fetch_events hk = (rev (map EFetch pre) ++ fetch_events h)%list.
Proof.
  induction pre as [|t pre IH]; intros idx h hk H.
  - cbn [loop_reaches] in H. now injection H as ->.
  - cbn [loop_reaches] in H. pose proof (attempt_one_fetch n idx t h) as F.
    destruct (attempt w n idx t h) as [[[| |v]|e] h']; try discriminate;
      simpl snd in F; rewrite (IH _ _ _ H), F; cbn [map rev];
      now rewrite <- app_assoc.
Qed.

End CaptionFetcher.

(** * The media-info extractor and the direct-subtitles stage *)

Section SubtitleStage.

Variable w : World.

Lemma strategy_attempt_grows url download n idx strategy last_error :
  emits any_event (strategy_attempt w url download n idx strategy last_error).
Proof.
  unfold strategy_attempt, call_extract_info. apply emits_catch.
  - apply emits_bind; [now apply emits_emit|]. intros _.
    apply emits_bind; [now apply emits_call|]. intros info.
    repeat step; exact I.
  - intros e. repeat step; exact I.
Qed.

Lemma strategy_loop_grows url download n idx todo last_error :
  emits any_event (strategy_loop w url download n idx todo last_error).
Proof.
  revert idx last_error. induction todo as [|s rest IH]; intros idx last_error; simpl.
  - destruct last_error; apply emits_raise.
  - apply emits_bind; [apply strategy_attempt_grows|].
    intros [info|le]; [apply emits_ret | apply IH].
Qed.

Lemma extract_grows url download :
  emits any_event (_extract_with_stable_client w url download).
Proof. apply strategy_loop_grows. Qed.

(** A permanent failure of a strategy leaves the loop at once (line 192):
    nothing is recorded after the failure is logged. *)
Lemma strategy_loop_permanent url download n idx strategy rest last_error h e :
  extract_info w (ELog (trying_msg n idx strategy) :: h) strategy url download = Raise e ->
  is_permanent e = true ->
  strategy_loop w url download n idx (strategy :: rest) last_error h =
  (Raise e,
   [ELog (strategy_failed_msg strategy e);
    EExtractInfo strategy url download;
    ELog (trying_msg n idx strategy)] ++ h)%list.
Proof.
  intros He Hp. simpl.
  unfold bind at 1, strategy_attempt, try_catch, bind at 1, log at 1, emit.
  unfold bind at 1, call_extract_info. fold (trying_msg n idx strategy). rewrite He.
  unfold bind, log, emit. rewrite Hp. reflexivity.
Qed.

(** A permanent failure that leaves the extractor was raised by the last
    call made: no client identity is tried after it. *)
Lemma strategy_loop_raises_at_once url download n todo :
  forall idx last_error h e h',
  match last_error with Some e0 => is_permanent e0 = false | None => True end ->
  strategy_loop w url download n idx todo last_error h = (Raise e, h') ->
  is_permanent e = true ->
  exists strategy hpre,
    h' = ELog (strategy_failed_msg strategy e) :: EExtractInfo strategy url download :: hpre /\
    extract_info w hpre strategy url download = Raise e.
Proof.
  induction todo as [|s rest IH]; intros idx last_error h e h' Hl Hr Hp.
  - cbn [strategy_loop] in Hr. destruct last_error as [e0|]; unfold raise in Hr;
      injection Hr as <- <-; [congruence | discriminate].
  - cbn [strategy_loop] in Hr. revert Hr.
    unfold bind at 1, strategy_attempt, try_catch, bind at 1, log at 1, emit.
    unfold bind at 1, call_extract_info. fold (trying_msg n idx s).
    destruct (extract_info w (ELog (trying_msg n idx s) :: h) s url download)
      as [[info|]|e0] eqn:E.
    + unfold bind, log, emit, ret. discriminate.
    + unfold ret. intros Hr. exact (IH _ _ _ _ _ Hl Hr Hp).
    + unfold bind at 1, log at 1, emit. fold (strategy_failed_msg s e0).
      destruct (is_permanent e0) eqn:P0.
      * unfold raise. intros [= <- <-]. eauto.
      * unfold ret. intros Hr. exact (IH _ (Some e0) _ _ _ P0 Hr Hp).
Qed.

Lemma strategy_attempt_calls url download n idx strategy last_error h :
  exists l,
    snd (strategy_attempt w url download n idx strategy last_error h) =
    (l ++ EExtractInfo strategy url download :: ELog (trying_msg n idx strategy) :: h)%list.
Proof.
  unfold strategy_attempt, try_catch, bind, log, emit, call_extract_info, ret, raise.
  fold (trying_msg n idx strategy).
  destruct (extract_info w _ _ _ _) as [[info|]|e]; simpl.
  - now exists [ELog ("Extraction successful with strategy: " ++ repr_clients strategy)].
  - now exists [].
  - destruct (is_permanent e); now exists [ELog (strategy_failed_msg strategy e)].
Qed.

Lemma strategy_loop_calls url download n idx strategy rest last_error h :
  (extractor_calls h <
   extractor_calls (snd (strategy_loop w url download n idx (strategy :: rest) last_error h)))%nat.
Proof.
  cbn [strategy_loop]. unfold bind.
  destruct (strategy_attempt_calls url download n idx strategy last_error h) as (l & E).
  destruct (strategy_attempt w url download n idx strategy last_error h) as [[[info|le]|e] h'];
    simpl in E; subst h'.
  - unfold ret. simpl snd. rewrite extractor_calls_app. simpl. unfold extractor_calls at 3.
    simpl. fold (extractor_calls h). lia.
  - match goal with
    | |- context [strategy_loop w url download n (S idx) rest le ?h0] =>
        destruct (strategy_loop_grows url download n (S idx) rest le h0) as (l' & -> & _)
    end.
    rewrite !extractor_calls_app. unfold extractor_calls at 4.
    simpl. fold (extractor_calls h). lia.
  - simpl snd. rewrite extractor_calls_app. unfold extractor_calls at 3.
    simpl. fold (extractor_calls h). lia.
Qed.

(** Every invocation of the extractor calls [extract_info] at least once. *)
Lemma extract_calls_more url download h :
  (extractor_calls h < extractor_calls (snd (_extract_with_stable_client w url download h)))%nat.
Proof. apply strategy_loop_calls. Qed.

Lemma yields_call_time : yields (fun _ => True) (call_time w).
Proof. intros h. eexists _, _. split; [reflexivity | exact I]. Qed.

Lemma emits_call_time P : P EClock -> emits P (call_time w).
Proof. intros H. now apply emits_call. Qed.

Lemma fetch_segment_yields seg collected :
  all_nonblank collected -> yields all_nonblank (fetch_segment w seg collected).
Proof.
  intros Hc. unfold fetch_segment. cbv zeta. apply yields_catch.
  - repeat step; auto. apply Forall_app. split; [exact Hc|]. now constructor.
  - intros e. repeat step. exact Hc.
Qed.

Lemma segment_loop_yields segs collected :
  all_nonblank collected -> yields all_nonblank (segment_loop w segs collected).
Proof.
  revert collected. induction segs as [|seg rest IH]; intros collected Hc; simpl.
  - now apply yields_ret.
  - eapply yields_bind; [now apply fetch_segment_yields | exact IH].
Qed.

Lemma join_nonblank (collected : list string) :
  all_nonblank collected -> collected <> [] ->
  truthy (strip (join " " collected)) = true.
Proof.
  intros Hc Hne. destruct collected as [|c rest]; [congruence|].
  rewrite truthy_strip. apply has_nonspace_join with (x := c); [now left|].
  rewrite <- truthy_strip. now inversion Hc.
Qed.

Lemma fetch_hls_playlist_yields url text :
  yields nonblank_flow (fetch_hls_playlist w url text).
Proof.
  unfold fetch_hls_playlist. cbv zeta. step.
  eapply yields_bind; [apply segment_loop_yields; constructor|].
  intros collected Hc. destruct collected as [|c rest] eqn:E.
  - now apply yields_ret.
  - step. apply yields_ret. unfold nonblank_flow, nonblank.
    apply join_nonblank; [exact Hc | discriminate].
Qed.

Lemma try_candidate_yields start idx cand :
  yields nonblank_flow (try_candidate w start idx cand).
Proof.
  unfold try_candidate. eapply yields_bind; [apply yields_call_time|].
  intros now _. cbv zeta.
  destruct (negb _).
  { step. now apply yields_ret. }
  destruct (cand_url cand) as [url|]; [|now apply yields_ret].
  destruct (negb (truthy url)); [now apply yields_ret|].
  apply yields_catch.
  - eapply returns_bind; [apply returns_any|]. intros r _.
    destruct (_ && _)%bool; [|now apply returns_ret].
    destruct (startswith _ _).
    + apply yields_returns, fetch_hls_playlist_yields.
    + destruct (truthy (strip _)) eqn:E; [|now apply returns_ret].
      step. now apply returns_ret.
  - intros e. step. now apply yields_ret.
Qed.

Lemma candidate_loop_yields start idx candidates :
  yields nonblank_return (candidate_loop w start idx candidates).
Proof.
  revert idx. induction candidates as [|cand rest IH]; intros idx; simpl.
  - now apply yields_ret.
  - eapply yields_bind; [apply try_candidate_yields|].
    intros [| |v] Hv; auto; now apply yields_ret.
Qed.

Lemma try_ytdlp_subtitles_yields url :
  yields nonblank (try_ytdlp_subtitles w url).
Proof.
  unfold try_ytdlp_subtitles. step.
  eapply yields_bind; [apply yields_call_time|]. intros start _.
  apply yields_catch.
  - eapply returns_bind; [apply returns_any|]. intros info _.
    eapply returns_bind; [apply yields_returns, candidate_loop_yields|].
    intros [v|] Hv; [now apply returns_ret|].
    step. now apply returns_ret.
  - intros e. step. now apply yields_ret.
Qed.

End SubtitleStage.

(** * The pipeline *)

Section Pipeline.

Variable w : World.

Lemma two_field_passes (title desc : string) :
  (truthy (two_field_text title desc) && truthy (strip (two_field_text title desc)))%bool
  = true.
Proof. rewrite truthy_strip. reflexivity. Qed.

Lemma metadata_fallback_yields url transcript :
  yields (metadata_result transcript) (metadata_fallback w url transcript).
Proof.
  unfold metadata_fallback. step. apply yields_catch.
  - eapply returns_bind; [apply returns_any|]. intros info _. cbv zeta.
    destruct (_ || _)%bool.
    + destruct (get_or (title info) (Some "")) as [title|];
        [destruct (get_or (description info) (Some "")) as [desc|]|];
        try apply returns_raise.
      step. apply returns_ret. right. right. eauto.
    + apply returns_ret. now left.
  - intros e. step. apply yields_ret. right. now left.
Qed.

Lemma metadata_fallback_grows url transcript :
  emits any_event (metadata_fallback w url transcript).
Proof.
  unfold metadata_fallback. apply emits_bind; [now apply emits_emit|]. intros _.
  apply emits_catch.
  - apply emits_bind; [apply extract_grows|]. intros info. cbv zeta.
    repeat step; exact I.
  - intros e. repeat step; exact I.
Qed.

(** The metadata stage invokes the extractor. *)
Lemma metadata_fallback_calls url transcript h :
  (extractor_calls h < extractor_calls (snd (metadata_fallback w url transcript h)))%nat.
Proof.
  unfold metadata_fallback. rewrite (bind_run _ _ _ _ _ (log_run _ h)).
  set (h0 := ELog _ :: h).
  assert (H0 : (extractor_calls h < extractor_calls
                  (snd (_extract_with_stable_client w url false h0)))%nat).
  { pose proof (extract_calls_more w url false h0) as H. exact H. }
  unfold try_catch, bind.
  destruct (_extract_with_stable_client w url false h0) as [[info|e] h1]; simpl snd in H0.
  - cbv zeta.
    destruct (_ || _)%bool;
      [destruct (get_or (title info) (Some "")) as [title|];
       [destruct (get_or (description info) (Some "")) as [desc|]|]|];
      simpl; unfold extractor_calls in *; simpl; lia.
  - simpl. unfold extractor_calls in *; simpl; lia.
Qed.

Lemma final_metadata_grows url : emits any_event (final_metadata w url).
Proof.
  unfold final_metadata. apply emits_bind.
  - apply emits_catch.
    + apply emits_bind; [now apply emits_emit|]. intros _.
      apply emits_bind; [apply extract_grows|]. intros info. cbv zeta.
      repeat step; exact I.
    + intros e. repeat step; exact I.
  - intros [t|]; [apply emits_ret | apply emits_raise].
Qed.

(** The pipeline as a state machine: each stage runs from the history the
    stage before it left, and only when that stage gave no text. *)
Lemma pipeline_stages url vid h :
  extract_video_id url (ELog (start_msg url) :: h) = (Ok vid, ELog (start_msg url) :: h) ->
  exists r1 h1,
    try_transcript_api w vid (Some url) (ELog (start_msg url) :: h) = (Ok r1, h1) /\
    if opt_truthy r1 then
      extract_transcript_from_youtube w url h = (Ok (get_or r1 ""), h1)
    else
      exists r2 h2,
        try_ytdlp_subtitles w url h1 = (Ok r2, h2) /\
        if opt_truthy r2 then
          extract_transcript_from_youtube w url h = (Ok (get_or r2 ""), h2)
        else
          exists r3 h3,
            metadata_fallback w url r2 h2 = (Ok r3, h3) /\
            if opt_truthy r3 then
              extract_transcript_from_youtube w url h = (Ok (get_or r3 ""), h3)
            else
              extract_transcript_from_youtube w url h = final_metadata w url h3.
Proof.
  intros Hvid.
  destruct (try_transcript_api_yields w vid (Some url) (ELog (start_msg url) :: h))
    as (r1 & h1 & E1 & N1).
  exists r1, h1. split; [exact E1|].
  unfold extract_transcript_from_youtube.
  rewrite (bind_run _ _ _ _ _ (log_run _ h)). fold (start_msg url).
  rewrite (bind_run _ _ _ _ _ Hvid), (bind_run _ _ _ _ _ E1).
  destruct (opt_truthy r1) eqn:T1; simpl negb.
  { destruct (nonblank_truthy _ N1 T1) as (t & -> & Ht).
    unfold bind, ret. cbn [opt_truthy]. simpl in T1. rewrite T1. cbv beta iota delta [negb].
    now rewrite Ht. }
  destruct (try_ytdlp_subtitles_yields w url h1) as (r2 & h2 & E2 & N2).
  exists r2, h2. split; [exact E2|].
  rewrite (bind_run _ _ _ _ _ E2).
  destruct (opt_truthy r2) eqn:T2; simpl negb.
  { destruct (nonblank_truthy _ N2 T2) as (t & -> & Ht).
    unfold bind, ret. now rewrite Ht. }
  destruct (metadata_fallback_yields url r2 h2) as (r3 & h3 & E3 & N3).
  exists r3, h3. split; [exact E3|].
  rewrite (bind_run _ _ _ _ _ E3).
  destruct N3 as [->|[->|(title & desc & ->)]].
  - rewrite T2. destruct r2 as [t|]; [|reflexivity].
    simpl in T2. now rewrite T2.
  - reflexivity.
  - change (opt_truthy (Some (two_field_text title desc))) with true. cbv iota.
    now rewrite two_field_passes.
Qed.

(** What the pipeline returns passes the check of line 817. *)
Lemma pipeline_returns_text (url : string) :
  returns (fun t => truthy (strip t) = true) (extract_transcript_from_youtube w url).
Proof.
  assert (F : returns (fun t => truthy (strip t) = true) (final_metadata w url)).
  { unfold final_metadata.
    eapply returns_bind
      with (P := fun r => match r with Some t => truthy (strip t) = true | None => True end).
    - apply returns_catch.
      + step. eapply returns_bind; [apply returns_any|]. intros info _.
        eapply returns_bind; [apply returns_any|]. intros fallback_text _.
        destruct (truthy (strip fallback_text)) eqn:E.
        * step. now apply returns_ret.
        * now apply returns_ret.
      + intros e. step. now apply returns_ret.
    - intros [t|] Ht; [now apply returns_ret | apply returns_raise]. }
  unfold extract_transcript_from_youtube. do 5 step.
  destruct a3 as [t|]; [|exact F].
  destruct (truthy t && truthy (strip t))%bool eqn:E; [|exact F].
  apply returns_ret. now apply andb_prop in E.
Qed.

End Pipeline.

(** * The claims about the caption fetcher and the pipeline *)

(** C8: a caption listing whose partition yields 5 preferred-language
    tracks and 3 other-language tracks gives an attempt list of exactly 4
    candidates: the first 3 preferred tracks, then the first other track. *)
Theorem attempt_list_three_then_one (transcripts : list Transcript) :
  length (filter is_english_track transcripts) = 5%nat ->
  length (filter is_other_track transcripts) = 3%nat ->
  exists e1 e2 e3 e4 e5 o1 o2 o3,
    split_tracks transcripts [] [] = ([e1; e2; e3; e4; e5], [o1; o2; o3]) /\
    all_attempts transcripts = [e1; e2; e3; o1] /\
    length (all_attempts transcripts) = 4%nat.
Proof.
  intros He Ho. rewrite all_attempts_filter, split_tracks_filter. simpl app at 1 2.
  destruct (filter is_english_track transcripts) as [|e1 [|e2 [|e3 [|e4 [|e5 [|]]]]]];
    try discriminate.
  destruct (filter is_other_track transcripts) as [|o1 [|o2 [|o3 [|]]]];
    try discriminate.
  exists e1, e2, e3, e4, e5, o1, o2, o3. repeat split.
Qed.

Lemma attempt_list_three_then_one_witness :
  exists e1 e2 e3 e4 e5 o1 o2 o3,
    split_tracks five_and_three [] [] = ([e1; e2; e3; e4; e5], [o1; o2; o3]) /\
    all_attempts five_and_three = [e1; e2; e3; o1] /\
    length (all_attempts five_and_three) = 4%nat.
Proof. apply (attempt_list_three_then_one five_and_three); reflexivity. Defined.

(** C5: in a run of the pipeline in which the caption fetcher obtains a
    listing and its loop over the attempts arrives at a candidate whose fetch
    raises: when the message contains "no element found", the fetcher ends
    at once with [None], and the tracks fetched in the run are the candidates
    before this one and this one, none of the remaining; otherwise the
    failure is logged and the fetcher goes on with the next candidate.  In
    both cases the fetcher returns, and when it returned no text the pipeline
    runs the direct-subtitles stage from the history the fetcher left. *)
Theorem empty_payload_aborts_fetcher (w : World) (url vid : string) (hp : History)
    (transcripts pre rest : list Transcript) (t : Transcript) (hk : History) (e : exn) :
  extract_video_id url (ELog (start_msg url) :: hp)
    = (Ok vid, ELog (start_msg url) :: hp) ->
  list_transcripts w (ELog api_start_msg :: ELog (start_msg url) :: hp) vid
    = Ok transcripts ->
  all_attempts transcripts = (pre ++ t :: rest)%list ->
  loop_reaches w (length (all_attempts transcripts)) 0 pre
    (EListTranscripts vid :: ELog api_start_msg :: ELog (start_msg url) :: hp) = Some hk ->
  fetch w (ELog (fetching_msg (length (all_attempts transcripts)) (length pre) t) :: hk) t
    = Raise e ->
  (if is_empty_payload_signal e then
     try_transcript_api w vid (Some url) (ELog (start_msg url) :: hp) =
       (Ok None,
        ELog skip_msg :: EFetch t
        :: ELog (fetching_msg (length (all_attempts transcripts)) (length pre) t) :: hk) /\
     fetch_events
       (snd (try_transcript_api w vid (Some url) (ELog (start_msg url) :: hp))) =
       (EFetch t :: rev (map EFetch pre) ++ fetch_events hp)%list
   else
     try_transcript_api w vid (Some url) (ELog (start_msg url) :: hp) =
       attempt_loop w (length (all_attempts transcripts)) (S (length pre)) rest
         (ELog (attempt_failed_msg (length pre) e) :: EFetch t
          :: ELog (fetching_msg (length (all_attempts transcripts)) (length pre) t) :: hk))
  /\ exists r1 h1,
       try_transcript_api w vid (Some url) (ELog (start_msg url) :: hp) = (Ok r1, h1) /\
       (opt_truthy r1 = false ->
        exists r2 h2 l,
          try_ytdlp_subtitles w url h1 = (Ok r2, h2) /\
          snd (extract_transcript_from_youtube w url hp) = (l ++ h2)%list).
Proof.
  intros Hvid Hl Ha Hk Hf.
  pose proof (fetcher_runs_loop w vid (Some url) _ _ Hl) as R.
  rewrite Ha in R at 2. rewrite (loop_from_reached w _ pre (t :: rest) _ _ _ Hk) in R.
  cbn [attempt_loop Nat.add] in R.
  unfold bind at 1 in R. rewrite (attempt_raising w _ _ _ _ _ Hf) in R.
  split.
  - destruct (is_empty_payload_signal e).
    + split; [exact R|]. rewrite R. cbn [snd].
      change (EFetch t :: rev (map EFetch pre) ++ fetch_events hp)%list
        with (EFetch t :: rev (map EFetch pre)
              ++ fetch_events (EListTranscripts vid :: ELog api_start_msg
                               :: ELog (start_msg url) :: hp))%list.
      rewrite <- (loop_reaches_fetches w _ pre _ _ _ Hk). reflexivity.
    + exact R.
  - destruct (pipeline_stages w url vid hp Hvid) as (r1 & h1 & E1 & Hrest).
    exists r1, h1. split; [exact E1|]. intros T1. rewrite T1 in Hrest.
    destruct Hrest as (r2 & h2 & E2 & Hrest). exists r2, h2.
    destruct (opt_truthy r2).
    + exists []. split; [exact E2|]. now rewrite Hrest.
    + destruct Hrest as (r3 & h3 & E3 & Hrest).
      destruct (metadata_fallback_grows w url r2 h2) as (l3 & G3 & _).
      rewrite E3 in G3. simpl in G3. subst h3.
      destruct (opt_truthy r3).
      * exists l3. split; [exact E2|]. now rewrite Hrest.
      * destruct (final_metadata_grows w url (l3 ++ h2)%list) as (l4 & G4 & _).
        exists (l4 ++ l3)%list. split; [exact E2|].
        rewrite Hrest, G4. now rewrite app_assoc.
Qed.

Lemma empty_payload_aborts_fetcher_witness :
  let w := flaky_world in
  let h := [ELog (start_msg sample_url)] in
  let english := track "English" "en" in
  let spanish := track "Spanish" "es" in
  let h0 := EListTranscripts sample_id :: ELog api_start_msg :: h in
  let hk := ELog (attempt_failed_msg 0 connection_refused) :: EFetch english
            :: ELog (fetching_msg 2 0 english) :: h0 in
  (try_transcript_api w sample_id (Some sample_url) h = attempt_loop w 2 1 [spanish] hk
   /\ exists r1 h1,
        try_transcript_api w sample_id (Some sample_url) h = (Ok r1, h1) /\
        (opt_truthy r1 = false ->
         exists r2 h2 l,
           try_ytdlp_subtitles w sample_url h1 = (Ok r2, h2) /\
           snd (extract_transcript_from_youtube w sample_url []) = (l ++ h2)%list))
  /\
  ((try_transcript_api w sample_id (Some sample_url) h =
      (Ok None, ELog skip_msg :: EFetch spanish :: ELog (fetching_msg 2 1 spanish) :: hk) /\
    fetch_events (snd (try_transcript_api w sample_id (Some sample_url) h)) =
      [EFetch spanish; EFetch english])
   /\ exists r1 h1,
        try_transcript_api w sample_id (Some sample_url) h = (Ok r1, h1) /\
        (opt_truthy r1 = false ->
         exists r2 h2 l,
           try_ytdlp_subtitles w sample_url h1 = (Ok r2, h2) /\
           snd (extract_transcript_from_youtube w sample_url []) = (l ++ h2)%list)).
Proof.
  cbv zeta. split.
  - apply (empty_payload_aborts_fetcher flaky_world sample_url sample_id []
             [track "English" "en"; track "Spanish" "es"] [] [track "Spanish" "es"]
             (track "English" "en") _ connection_refused); reflexivity.
  - apply (empty_payload_aborts_fetcher flaky_world sample_url sample_id []
             [track "English" "en"; track "Spanish" "es"] [track "English" "en"] []
             (track "Spanish" "es") _ empty_payload); reflexivity.
Defined.

(** C6: neither transcript-acquisition stage returns an empty or
    whitespace-only string as a success: from every history each of them
    returns, and what it returns is [None] or text that [strip] leaves
    non-empty. *)
Theorem stages_never_return_blank (w : World) (video_id video_url : string) (h : History) :
  (exists r h', try_transcript_api w video_id (Some video_url) h = (Ok r, h') /\
                match r with
                | Some t => strip t <> ""
                | None => True
                end) /\
  (exists r h', try_ytdlp_subtitles w video_url h = (Ok r, h') /\
                match r with
                | Some t => strip t <> ""
                | None => True
                end).
Proof.
  assert (N : forall r, nonblank r ->
                        match r with Some t => strip t <> "" | None => True end).
  { intros [t|] H; [|exact I]. simpl in H. unfold truthy in H.
    intros E. rewrite E in H. discriminate. }
  split.
  - destruct (try_transcript_api_yields w video_id (Some video_url) h) as (r & h' & E & H).
    exists r, h'. split; [exact E | now apply N].
  - destruct (try_ytdlp_subtitles_yields w video_url h) as (r & h' & E & H).
    exists r, h'. split; [exact E | now apply N].
Qed.

(** The last stage ends with text or with the exhaustion error. *)
Lemma final_metadata_result (w : World) (url : string) (h : History) :
  (exists t, fst (final_metadata w url h) = Ok t) \/
  fst (final_metadata w url h) = Raise exhausted.
Proof.
  unfold final_metadata. set (m := try_catch _ _). unfold bind.
  destruct (m h) as [[[t|]|e] h'] eqn:E.
  - left. exists t. reflexivity.
  - right. reflexivity.
  - exfalso. revert E. subst m. unfold try_catch.
    match goal with |- context [let (_, _) := ?c h in _] => destruct (c h) as [[a|e0] h0] end;
      [discriminate|].
    unfold bind. rewrite log_run. discriminate.
Qed.

Lemma extract_video_id_run (url : string) (h : History) :
  (exists g, extract_video_id url h = (Ok g, h)) \/
  extract_video_id url h = (Raise invalid_url, h).
Proof.
  unfold extract_video_id.
  destruct (re_search match_watch url) as [g|]; [left; now exists g|].
  destruct (re_search match_short url) as [g|]; [left; now exists g|].
  destruct (re_search match_bare url) as [g|]; [left; now exists g | now right].
Qed.

(** The pipeline ends with text or with one of its two errors. *)
Lemma pipeline_outcome (w : World) (url : string) (h : History) :
  match fst (extract_transcript_from_youtube w url h) with
  | Ok t => truthy (strip t) = true
  | Raise e => e = invalid_url \/ e = exhausted
  end.
Proof.
  destruct (extract_transcript_from_youtube w url h) as [[t|e] h'] eqn:R; simpl.
  - exact (pipeline_returns_text w url _ _ _ R).
  - destruct (extract_video_id_run url (ELog (start_msg url) :: h)) as [(vid & Hv)|Hv].
    + destruct (pipeline_stages w url vid h Hv) as (r1 & h1 & _ & H1).
      destruct (opt_truthy r1); [congruence|].
      destruct H1 as (r2 & h2 & _ & H2). destruct (opt_truthy r2); [congruence|].
      destruct H2 as (r3 & h3 & _ & H3). destruct (opt_truthy r3); [congruence|].
      destruct (final_metadata_result w url h3) as [(t & Ht)|Ht];
        rewrite <- H3, R in Ht; simpl in Ht; [discriminate|].
      injection Ht as ->. now right.
    + revert R. unfold extract_transcript_from_youtube.
      rewrite (bind_run _ _ _ _ _ (log_run _ h)). fold (start_msg url).
      rewrite (bind_run_raise _ _ _ _ _ Hv). intros [= <- _]. now left.
Qed.

(** C1: the pipeline tries its stages in order (caption API, yt-dlp
    subtitles, title and description, full metadata), each from the history
    the stage before it left and only when that stage gave no text, and
    returns the text of the first stage that gives some; when the caption
    API gives text, the extractor is not invoked at all. *)
Theorem first_success_stops_pipeline (w : World) (url vid : string) (h : History) :
  extract_video_id url (ELog (start_msg url) :: h) = (Ok vid, ELog (start_msg url) :: h) ->
  exists r1 h1,
    try_transcript_api w vid (Some url) (ELog (start_msg url) :: h) = (Ok r1, h1) /\
    if opt_truthy r1 then
      extract_transcript_from_youtube w url h = (Ok (get_or r1 ""), h1) /\
      extractor_calls h1 = extractor_calls h
    else
      exists r2 h2,
        try_ytdlp_subtitles w url h1 = (Ok r2, h2) /\
        if opt_truthy r2 then
          extract_transcript_from_youtube w url h = (Ok (get_or r2 ""), h2)
        else
          exists r3 h3,
            metadata_fallback w url r2 h2 = (Ok r3, h3) /\
            if opt_truthy r3 then
              extract_transcript_from_youtube w url h = (Ok (get_or r3 ""), h3)
            else
              extract_transcript_from_youtube w url h = final_metadata w url h3.
Proof.
  intros Hvid.
  destruct (pipeline_stages w url vid h Hvid) as (r1 & h1 & E1 & Hrest).
  exists r1, h1. split; [exact E1|].
  destruct (opt_truthy r1); [|exact Hrest].
  split; [exact Hrest|].
  destruct (try_transcript_api_emits w vid (Some url) (ELog (start_msg url) :: h))
    as (l & G & Hl).
  rewrite E1 in G. simpl in G. subst h1.
  rewrite extractor_calls_app, (extractor_calls_none l Hl). reflexivity.
Qed.

Lemma first_success_stops_pipeline_witness :
  exists r1 h1,
    try_transcript_api captioned_world sample_id (Some sample_url)
      [ELog (start_msg sample_url)] = (Ok r1, h1) /\
    if opt_truthy r1 then
      extract_transcript_from_youtube captioned_world sample_url [] =
        (Ok (get_or r1 ""), h1) /\
      extractor_calls h1 = extractor_calls []
    else
      exists r2 h2,
        try_ytdlp_subtitles captioned_world sample_url h1 = (Ok r2, h2) /\
        if opt_truthy r2 then
          extract_transcript_from_youtube captioned_world sample_url [] =
            (Ok (get_or r2 ""), h2)
        else
          exists r3 h3,
            metadata_fallback captioned_world sample_url r2 h2 = (Ok r3, h3) /\
            if opt_truthy r3 then
              extract_transcript_from_youtube captioned_world sample_url [] =
                (Ok (get_or r3 ""), h3)
            else
              extract_transcript_from_youtube captioned_world sample_url [] =
                final_metadata captioned_world sample_url h3.
Proof.
  apply (first_success_stops_pipeline captioned_world sample_url sample_id []).
  reflexivity.
Defined.

(** The last stage invokes the extractor. *)
Lemma final_metadata_calls (w : World) (url : string) (h : History) :
  (extractor_calls h < extractor_calls (snd (final_metadata w url h)))%nat.
Proof.
  unfold final_metadata. unfold bind at 1, try_catch.
  rewrite (bind_run _ _ _ _ _ (log_run _ h)). fold final_start_msg.
  pose proof (extract_calls_more w url false (ELog final_start_msg :: h)) as C.
  unfold bind at 1.
  destruct (_extract_with_stable_client w url false (ELog final_start_msg :: h))
    as [[info|e] hx]; simpl snd in C.
  - unfold bind at 1, of_result.
    destruct (fallback_text_of w info) as [text|e].
    + destruct (truthy (strip text)); simpl; unfold extractor_calls in *; simpl in *; lia.
    + simpl. unfold extractor_calls in *; simpl in *; lia.
  - simpl. unfold extractor_calls in *; simpl in *; lia.
Qed.

(** A subtitle track served as a timed-text document: every segment is
    joined, the direct-subtitles stage answers, and the extractor is invoked
    once. *)
Example timed_text_answers_from_subtitles :
  _subtitle_to_plain json3_world json3_text = "Hello world" /\
  fst (extract_transcript_from_youtube json3_world sample_url []) = Ok "Hello world" /\
  extractor_calls (snd (extract_transcript_from_youtube json3_world sample_url [])) = 1%nat.
Proof. repeat split; vm_compute; reflexivity. Qed.

(** A title that is [None]: line 342 raises, the title-and-description
    stage leaves the empty string, and the last stage answers, printing the
    title as [None]; the endpoint flags the response. *)
Example untitled_video_is_answered_by_last_stage :
  metadata_fallback untitled_world sample_url None [] =
    (Ok (Some ""),
     ELog (metadata_failed_msg (Exception "'NoneType' object is not subscriptable"))
     :: snd (_extract_with_stable_client untitled_world sample_url false
               [ELog two_field_start_msg])) /\
  fst (extract_transcript_from_youtube untitled_world sample_url []) =
    Ok untitled_video_text /\
  exists r h,
    summarize_youtube untitled_world sample_url "short" None "en" [] = (Ok r, h) /\
    metadata_only r = true.
Proof.
  split; [vm_compute; reflexivity|]. split; [vm_compute; reflexivity|].
  eexists _, _. split; [vm_compute; reflexivity | reflexivity].
Qed.

(** C2 at the failing input: in [private_world] the caption API gives
    nothing, the extractor invoked by the direct-subtitles stage fails with
    the permanent "Private video" error, and yet the caller does not receive
    that error: the extractor is invoked three times in all (once per
    remaining stage) and the caller receives the exhaustion error. *)
Lemma permanent_failure_does_not_reach_caller :
  let w := private_world in
  let h1 := snd (try_transcript_api w sample_id (Some sample_url)
                   [ELog (start_msg sample_url)]) in
  fst (try_transcript_api w sample_id (Some sample_url) [ELog (start_msg sample_url)])
    = Ok None /\
  fst (_extract_with_stable_client w sample_url false
         (EClock :: ELog subtitles_start_msg :: h1)) = Raise private_video /\
  is_permanent private_video = true /\
  fst (extract_transcript_from_youtube w sample_url []) = Raise exhausted /\
  fst (extract_transcript_from_youtube w sample_url []) <> Raise private_video /\
  extractor_calls (snd (extract_transcript_from_youtube w sample_url [])) = 3%nat.
Proof.
  cbv zeta. repeat split; try (vm_compute; reflexivity).
  vm_compute. discriminate.
Qed.

(** C2 fails on the code.  A permanent failure leaves the extractor at once
    (it is raised by the last call made; no further client identity is
    tried), but it never reaches the caller of the pipeline, in whichever
    stage it is met: the direct-subtitles stage catches it, logs it and gives
    no text; the title-and-description stage catches it, logs it and leaves
    the empty string; the last stage catches it, logs it and raises the
    exhaustion error instead.  After a stage that gave no text the pipeline
    runs the next one, which invokes the extractor again. *)
Theorem permanent_failure_is_caught_by_stage (w : World) (url : string) (e : exn) :
  is_permanent e = true ->
  (forall h hx,
     _extract_with_stable_client w url false h = (Raise e, hx) ->
     exists strategy hpre,
       hx = ELog (strategy_failed_msg strategy e) :: EExtractInfo strategy url false :: hpre /\
       extract_info w hpre strategy url false = Raise e) /\
  (forall h hx,
     _extract_with_stable_client w url false (EClock :: ELog subtitles_start_msg :: h)
       = (Raise e, hx) ->
     try_ytdlp_subtitles w url h = (Ok None, ELog (subtitles_failed_msg e) :: hx)) /\
  (forall transcript h hx,
     _extract_with_stable_client w url false (ELog two_field_start_msg :: h)
       = (Raise e, hx) ->
     metadata_fallback w url transcript h =
       (Ok (Some ""), ELog (metadata_failed_msg e) :: hx)) /\
  (forall h hx,
     _extract_with_stable_client w url false (ELog final_start_msg :: h) = (Raise e, hx) ->
     final_metadata w url h = (Raise exhausted, ELog (final_failed_msg e) :: hx)) /\
  (forall vid h r1 h1 r2 h2,
     extract_video_id url (ELog (start_msg url) :: h) = (Ok vid, ELog (start_msg url) :: h) ->
     try_transcript_api w vid (Some url) (ELog (start_msg url) :: h) = (Ok r1, h1) ->
     opt_truthy r1 = false ->
     try_ytdlp_subtitles w url h1 = (Ok r2, h2) ->
     opt_truthy r2 = false ->
     exists r3 h3,
       metadata_fallback w url r2 h2 = (Ok r3, h3) /\
       (extractor_calls h2 < extractor_calls h3)%nat /\
       if opt_truthy r3 then
         extract_transcript_from_youtube w url h = (Ok (get_or r3 ""), h3)
       else
         extract_transcript_from_youtube w url h = final_metadata w url h3 /\
         (extractor_calls h3 < extractor_calls (snd (final_metadata w url h3)))%nat) /\
  (forall h, fst (extract_transcript_from_youtube w url h) <> Raise e).
Proof.
  intros Hp. split; [|split; [|split; [|split; [|split]]]].
  - intros h hx Ee.
    exact (strategy_loop_raises_at_once w url false 3 strategies 0%nat None h e hx I Ee Hp).
  - intros h hx Ee. unfold try_ytdlp_subtitles.
    rewrite (bind_run _ _ _ _ _ (log_run _ h)).
    unfold bind at 1, call_time. fold subtitles_start_msg.
    unfold try_catch. rewrite (bind_run_raise _ _ _ _ _ Ee). reflexivity.
  - intros transcript h hx Ee. unfold metadata_fallback.
    rewrite (bind_run _ _ _ _ _ (log_run _ h)). fold two_field_start_msg.
    unfold try_catch. rewrite (bind_run_raise _ _ _ _ _ Ee). reflexivity.
  - intros h hx Ee. unfold final_metadata. unfold bind at 1, try_catch.
    rewrite (bind_run _ _ _ _ _ (log_run _ h)). fold final_start_msg.
    rewrite (bind_run_raise _ _ _ _ _ Ee), (bind_run _ _ _ _ _ (log_run _ hx)).
    reflexivity.
  - intros vid h r1 h1 r2 h2 Hvid E1 T1 E2 T2.
    destruct (pipeline_stages w url vid h Hvid) as (r1' & h1' & E1' & Hrest).
    rewrite E1 in E1'. injection E1' as <- <-. rewrite T1 in Hrest.
    destruct Hrest as (r2' & h2' & E2' & Hrest).
    rewrite E2 in E2'. injection E2' as <- <-. rewrite T2 in Hrest.
    destruct Hrest as (r3 & h3 & E3 & Hrest).
    exists r3, h3. split; [exact E3|]. split.
    + pose proof (metadata_fallback_calls w url r2 h2) as C. now rewrite E3 in C.
    + destruct (opt_truthy r3); [exact Hrest|].
      split; [exact Hrest | apply final_metadata_calls].
  - intros h E. pose proof (pipeline_outcome w url h) as P. rewrite E in P.
    destruct P as [->| ->]; vm_compute in Hp; discriminate.
Qed.

Lemma permanent_failure_is_caught_by_stage_witness :
  let w := private_world in
  let h1 := snd (try_transcript_api w sample_id (Some sample_url)
                   [ELog (start_msg sample_url)]) in
  let hx2 := snd (_extract_with_stable_client w sample_url false
                    (EClock :: ELog subtitles_start_msg :: h1)) in
  let h2 := ELog (subtitles_failed_msg private_video) :: hx2 in
  let hx3 := snd (_extract_with_stable_client w sample_url false
                    (ELog two_field_start_msg :: h2)) in
  let h3 := ELog (metadata_failed_msg private_video) :: hx3 in
  let hx4 := snd (_extract_with_stable_client w sample_url false
                    (ELog final_start_msg :: h3)) in
  try_ytdlp_subtitles w sample_url h1 = (Ok None, h2) /\
  metadata_fallback w sample_url None h2 = (Ok (Some ""), h3) /\
  final_metadata w sample_url h3 =
    (Raise exhausted, ELog (final_failed_msg private_video) :: hx4) /\
  fst (extract_transcript_from_youtube w sample_url []) <> Raise private_video.
Proof.
  cbv zeta.
  destruct (permanent_failure_is_caught_by_stage private_world sample_url private_video
              eq_refl) as (_ & H2 & H3 & H4 & _ & H6).
  split; [apply H2; reflexivity|]. split; [apply H3; reflexivity|].
  split; [apply H4; reflexivity|]. apply H6.
Defined.

(** * The claims about the candidate list, the summary mode and the chunker *)

Lemma split_candidates_flat_map (tracks : list (string * TrackVal)) (e o : list Cand) :
  split_candidates tracks e o =
  ((e ++ flat_map english_items tracks)%list, (o ++ flat_map other_items tracks)%list).
Proof.
  revert e o. induction tracks as [|[lang [items|]] rest IH]; intros e o; simpl.
  - now rewrite !app_nil_r.
  - unfold english_items at 1, other_items at 1. simpl.
    destruct (is_english_label lang); rewrite IH; simpl;
      now rewrite <- ?app_assoc, ?app_nil_r.
  - rewrite IH. reflexivity.
Qed.

Lemma incl_firstn {A} (n : nat) (l : list A) : incl (firstn n l) l.
Proof.
  intros x Hx. rewrite <- (firstn_skipn n l). apply in_or_app. now left.
Qed.

(** When both groups are empty every listed track is empty, so the fallback
    of lines 262-264 finds nothing. *)
Lemma fallback_finds_nothing (tracks picked : list (string * TrackVal)) :
  flat_map english_items tracks = [] ->
  flat_map other_items tracks = [] ->
  incl picked tracks ->
  flat_map (fun kv => match snd kv with
                      | TList v => firstn 1 v
                      | TNotList => []
                      end) picked = [].
Proof.
  intros He Ho Hin. induction picked as [|[lang v] rest IH]; [reflexivity|].
  cbn [flat_map]. rewrite IH by (intros x Hx; apply Hin; now right).
  assert (Hk : In (lang, v) tracks) by (apply Hin; now left).
  cbn [snd]. destruct v as [items|]; [|reflexivity].
  assert (items = []) as ->; [|reflexivity].
  clear IH Hin. induction tracks as [|kv tracks IH]; [destruct Hk|].
  simpl in He, Ho. apply app_eq_nil in He as [He1 He2]. apply app_eq_nil in Ho as [Ho1 Ho2].
  destruct Hk as [->|Hk]; [|now apply IH].
  unfold english_items, other_items in He1, Ho1. simpl in He1, Ho1.
  now destruct (is_english_label lang).
Qed.

(** C3, as the claim states it, fails: with one English and one French
    subtitle track both groups are non-empty, and the candidate list holds
    the English candidate only. *)
Lemma candidates_leave_out_other_languages :
  split_candidates
    (dict_merge (subtitles two_language_info) (automatic_captions two_language_info)) [] []
  = ([cand "https://cdn.example/en.vtt"], [cand "https://cdn.example/fr.vtt"]) /\
  build_candidates two_language_info = [cand "https://cdn.example/en.vtt"] /\
  build_candidates two_language_info <>
    (firstn 3 [cand "https://cdn.example/en.vtt"]
     ++ firstn 2 [cand "https://cdn.example/fr.vtt"])%list.
Proof. repeat split; try reflexivity. discriminate. Qed.

(** C3, amended: the candidate list is the first 3 preferred-language
    candidates when there are any, and no other-language candidate is added
    to them; otherwise it is the first 2 other-language candidates; when both
    groups are empty it is empty (at most 2 candidates from any language:
    every listed track is then empty). *)
Theorem candidates_prefer_english_only (info : Info) :
  let all_tracks := dict_merge (subtitles info) (automatic_captions info) in
  let english := fst (split_candidates all_tracks [] []) in
  let other := snd (split_candidates all_tracks [] []) in
  build_candidates info =
    match english, other with
    | _ :: _, _ => firstn 3 english
    | [], _ :: _ => firstn 2 other
    | [], [] => []
    end
  /\ (length (build_candidates info) <= 3)%nat
  /\ match english, other with
     | [], [] => (length (build_candidates info) <= 2)%nat
     | _, _ => True
     end.
Proof.
  cbv zeta. unfold build_candidates.
  set (all_tracks := dict_merge _ _).
  rewrite split_candidates_flat_map. simpl fst. simpl snd. simpl app.
  unfold candidates_of.
  destruct (flat_map english_items all_tracks) as [|e es] eqn:He.
  - destruct (flat_map other_items all_tracks) as [|o os] eqn:Ho.
    + rewrite (fallback_finds_nothing all_tracks (firstn 2 all_tracks) He Ho)
        by apply incl_firstn.
      simpl. repeat split; lia.
    + repeat split. pose proof (firstn_le_length 2 (o :: os)). lia.
  - repeat split. pose proof (firstn_le_length 3 (e :: es)). lia.
Qed.

(** C4 fails on the code: the mode "comprehensive" is not in the set of
    line 437, so it is replaced by "short" and the summarizer goes on exactly
    as for "short"; the comprehensive prompt of lines 497-514 is never used. *)
Theorem comprehensive_is_replaced_by_short (w : World) (text : string)
    (bullet_count : option Z) (h : History) :
  truthy text = true ->
  key_configured w = true ->
  normalize_summary_type "comprehensive" h =
    (Ok "short", ELog "Unknown summary_type 'comprehensive', defaulting to 'short'" :: h)
  /\ summarize_via_gemini w text "comprehensive" bullet_count "en" h =
     summarize_via_gemini w text "short" bullet_count "en"
       (ELog "Unknown summary_type 'comprehensive', defaulting to 'short'" :: h)
  /\ chunk_prompt "short" bullet_count text = (ShortPrompt text, 1200)
  /\ chunk_prompt "comprehensive" bullet_count text = (ComprehensivePrompt text, 3000).
Proof.
  intros Ht Hk. split; [reflexivity|]. split; [|split; reflexivity].
  unfold summarize_via_gemini. rewrite Ht, Hk. reflexivity.
Qed.

Lemma comprehensive_is_replaced_by_short_witness :
  normalize_summary_type "comprehensive" [] =
    (Ok "short", [ELog "Unknown summary_type 'comprehensive', defaulting to 'short'"])
  /\ summarize_via_gemini captioned_world "Some text." "comprehensive" None "en" [] =
     summarize_via_gemini captioned_world "Some text." "short" None "en"
       [ELog "Unknown summary_type 'comprehensive', defaulting to 'short'"]
  /\ chunk_prompt "short" None "Some text." = (ShortPrompt "Some text.", 1200)
  /\ chunk_prompt "comprehensive" None "Some text." = (ComprehensivePrompt "Some text.", 3000).
Proof.
  apply (comprehensive_is_replaced_by_short captioned_world "Some text." None []);
    reflexivity.
Defined.

(** The first prompt sent for the mode "comprehensive" is the short one. *)
Example comprehensive_run :
  snd (summarize_via_gemini captioned_world "Some text." "comprehensive" None "en" []) =
  [ELog "Summary generated successfully";
   ELog "Chunk 1/1 completed (10 chars)";
   EGenerate (ShortPrompt "Some text.") 1200;
   ELog "[Chunker v1.4.0] Processing 1 chunk(s) (~80000 chars each, total=10)";
   ELog "Unknown summary_type 'comprehensive', defaulting to 'short'"].
Proof. reflexivity. Qed.

Lemma chunk_loop_two (text : string) (i j : Z) (rest : list Z) :
  chunk_loop text (i :: j :: rest) [] =
  [slice text i (i + MAX_SAFE_CHUNK); slice text j (j + MAX_SAFE_CHUNK)].
Proof. reflexivity. Qed.

(** C7: a text 2.2 times as long as [MAX_SAFE_CHUNK] is cut into exactly
    2 chunks (the cap), each at most [MAX_SAFE_CHUNK] long; the chunks start
    at offsets that differ by [MAX_SAFE_CHUNK - overlap]. *)
Theorem long_text_gives_two_chunks (text : string) :
  10 * len text = 22 * MAX_SAFE_CHUNK ->
  exists i0 i1,
    make_chunks text =
      [slice text i0 (i0 + MAX_SAFE_CHUNK); slice text i1 (i1 + MAX_SAFE_CHUNK)] /\
    i0 = 0 /\ i1 - i0 = MAX_SAFE_CHUNK - overlap /\
    Z.of_nat (length (make_chunks text)) = max_chunks /\
    Forall (fun chunk => len chunk <= MAX_SAFE_CHUNK) (make_chunks text).
Proof.
  intros H.
  assert (Hlen : len text = 176000) by (unfold MAX_SAFE_CHUNK in H; lia).
  assert (E : make_chunks text =
              [slice text 0 (0 + MAX_SAFE_CHUNK);
               slice text (MAX_SAFE_CHUNK - overlap)
                 (MAX_SAFE_CHUNK - overlap + MAX_SAFE_CHUNK)]).
  { unfold make_chunks. cbv zeta. rewrite Hlen.
    change (176000 <=? MAX_SAFE_CHUNK) with false. cbv iota.
    change (py_range 0 176000 (MAX_SAFE_CHUNK - overlap))
      with [0; MAX_SAFE_CHUNK - overlap; 159400].
    apply chunk_loop_two. }
  exists 0, (MAX_SAFE_CHUNK - overlap). rewrite E.
  split; [reflexivity|]. split; [reflexivity|]. split; [lia|]. split; [reflexivity|].
  repeat constructor; rewrite len_slice by (unfold MAX_SAFE_CHUNK, overlap; lia); lia.
Qed.

Lemma long_text_gives_two_chunks_witness :
  exists i0 i1,
    make_chunks long_text =
      [slice long_text i0 (i0 + MAX_SAFE_CHUNK); slice long_text i1 (i1 + MAX_SAFE_CHUNK)] /\
    i0 = 0 /\ i1 - i0 = MAX_SAFE_CHUNK - overlap /\
    Z.of_nat (length (make_chunks long_text)) = max_chunks /\
    Forall (fun chunk => len chunk <= MAX_SAFE_CHUNK) (make_chunks long_text).
Proof.
  apply (long_text_gives_two_chunks long_text). vm_compute. reflexivity.
Defined.

(** * The claim about streaming playlists *)

Section Playlist.

Variable w : World.





End Playlist.



(** The sample playlist lists 25 segments; 20 of them are fetched. *)
Example playlist_of_25 :
  length (playlist_segments playlist_world playlist_url (text playlist_response)) = 25%nat /\
  length (http_gets (snd (try_candidate playlist_world 0%Q 0 (cand playlist_url) []))) = 21%nat.
Proof. split; reflexivity. Qed.

(** * The claim about the metadata-only flag *)

Section Endpoint.

Variable w : World.

Lemma normalize_summary_type_yields (summary_type : string) :
  yields anything (normalize_summary_type summary_type).
Proof.
  unfold normalize_summary_type. cbv zeta.
  destruct (existsb _ _); [now apply yields_ret|]. step. now apply yields_ret.
Qed.

Lemma summarize_chunks_yields summary_type bullet_count n idx chunks partials :
  yields anything (summarize_chunks w summary_type bullet_count n idx chunks partials).
Proof.
  revert idx partials. induction chunks as [|chunk rest IH]; intros idx partials.
  - now apply yields_ret.
  - cbn [summarize_chunks]. eapply yields_bind with (P := anything); [|intros; apply IH].
    apply yields_catch; [apply returns_any|]. intros e. step. now apply yields_ret.
Qed.

Lemma summarize_via_gemini_yields text summary_type bullet_count target_lang :
  yields anything (summarize_via_gemini w text summary_type bullet_count target_lang).
Proof.
  unfold summarize_via_gemini.
  destruct (negb (truthy text)); [now apply yields_ret|].
  destruct (negb (key_configured w)); [now apply yields_ret|].
  eapply yields_bind; [apply normalize_summary_type_yields|]. intros st _. cbv zeta.
  step. eapply yields_bind; [apply summarize_chunks_yields|]. intros partials _.
  destruct partials as [|p [|q rest]].
  - step. now apply yields_ret.
  - step. now apply yields_ret.
  - eapply yields_bind with (P := anything).
    + apply yields_catch; [apply returns_any|]. intros e. step. now apply yields_ret.
    + intros [out|] _; now apply yields_ret.
Qed.

(** The flag is the substring test of line 824 on what the pipeline
    returned, and the warning goes with the flag. *)
Lemma metadata_only_tests_marker (url summary_type : string) (bullet_count : option Z)
    (target_lang transcript : string) (h h1 : History) :
  extract_transcript_from_youtube w url (ELog (processing_msg url summary_type) :: h)
    = (Ok transcript, h1) ->
  exists r h2,
    summarize_youtube w url summary_type bullet_count target_lang h = (Ok r, h2) /\
    metadata_only r = contains metadata_marker transcript /\
    warning r = (if contains metadata_marker transcript then Some metadata_warning else None).
Proof.
  intros E.
  pose proof (pipeline_returns_text w url _ _ _ E) as Ht. cbv beta in Ht.
  set (msg := "Generating summary... (metadata_only="
              ++ (if contains metadata_marker transcript then "True" else "False") ++ ")").
  destruct (summarize_via_gemini_yields transcript summary_type bullet_count "en"
              (ELog msg :: h1)) as (final & h2 & Es & _).
  eexists _, h2. split; [|split].
  - unfold summarize_youtube. apply catch_run.
    rewrite (bind_run _ _ _ _ _ (log_run _ h)). fold (processing_msg url summary_type).
    rewrite (bind_run _ _ _ _ _ E), Ht. cbv beta iota delta [negb].
    rewrite (bind_run _ _ _ _ _ (log_run _ h1)). fold msg.
    rewrite (bind_run _ _ _ _ _ Es). reflexivity.
  - reflexivity.
  - reflexivity.
Qed.

End Endpoint.

(** The marker occurs in the two-field text exactly when it occurs in the
    title or in the description. *)
Lemma marker_in_two_field_text (title desc : string) :
  contains metadata_marker (two_field_text title desc) =
  (contains metadata_marker title || contains metadata_marker desc)%bool.
Proof.
  unfold two_field_text, LF.
  change ("Title: " ++ title ++ String (ascii_of_N 10) ""
          ++ String (ascii_of_N 10) "" ++ "Description:" ++ String (ascii_of_N 10) "" ++ desc)
    with (String "T" (String "i" (String "t" (String "l" (String "e" (String ":"
           (String " " (title ++ String (ascii_of_N 10)
              ("" ++ String (ascii_of_N 10)
                 ("Description:" ++ String (ascii_of_N 10) desc)))))))))).
  rewrite !contains_skip by reflexivity.
  rewrite !contains_across by reflexivity.
  assert (E1 : contains metadata_marker "" = false) by reflexivity.
  assert (E2 : contains metadata_marker "Description:" = false) by reflexivity.
  rewrite E1, E2. reflexivity.
Qed.

(** C10, as the claim states it, fails: a video whose description contains
    the marker phrase is answered from the two-field fallback and is flagged
    [metadata_only], with the warning. *)
Lemma two_field_fallback_can_be_flagged :
  let w := metadata_world "Talk" "Note: Transcript/subtitles were not available, sorry" in
  fst (extract_transcript_from_youtube w sample_url [ELog (processing_msg sample_url "short")])
    = Ok (two_field_text "Talk" "Note: Transcript/subtitles were not available, sorry") /\
  exists r h2,
    summarize_youtube w sample_url "short" None "en" [] = (Ok r, h2) /\
    metadata_only r = true /\
    warning r = Some metadata_warning.
Proof.
  cbv zeta. split; [vm_compute; reflexivity|].
  eexists _, _. split; [vm_compute; reflexivity|]. split; reflexivity.
Qed.

(** C10, amended: the flag is computed only by testing whether the
    returned transcript contains the marker phrase; a request answered from
    the two-field fallback therefore has [metadata_only = False] and no
    warning exactly when neither the title nor the description contains the
    phrase, and is flagged when one of them does. *)
Theorem two_field_flag_follows_marker (w : World) (url summary_type : string)
    (bullet_count : option Z) (target_lang title desc : string) (h h1 : History) :
  extract_transcript_from_youtube w url (ELog (processing_msg url summary_type) :: h)
    = (Ok (two_field_text title desc), h1) ->
  exists r h2,
    summarize_youtube w url summary_type bullet_count target_lang h = (Ok r, h2) /\
    metadata_only r = contains metadata_marker (two_field_text title desc) /\
    metadata_only r = (contains metadata_marker title || contains metadata_marker desc)%bool /\
    warning r = (if metadata_only r then Some metadata_warning else None).
Proof.
  intros E.
  destruct (metadata_only_tests_marker w url summary_type bullet_count target_lang _ h h1 E)
    as (r & h2 & Er & Hm & Hw).
  exists r, h2. split; [exact Er|]. split; [exact Hm|]. split.
  - now rewrite Hm, marker_in_two_field_text.
  - now rewrite Hm.
Qed.

Lemma two_field_flag_follows_marker_witness :
  exists r h2,
    summarize_youtube (metadata_world "Talk" "About things") sample_url "short" None "en" []
      = (Ok r, h2) /\
    metadata_only r = contains metadata_marker (two_field_text "Talk" "About things") /\
    metadata_only r =
      (contains metadata_marker "Talk" || contains metadata_marker "About things")%bool /\
    warning r = (if metadata_only r then Some metadata_warning else None).
Proof.
  apply (two_field_flag_follows_marker (metadata_world "Talk" "About things") sample_url
           "short" None "en" "Talk" "About things" []
           (snd (extract_transcript_from_youtube (metadata_world "Talk" "About things")
                   sample_url [ELog (processing_msg sample_url "short")]))).
  reflexivity.
Defined.

(** * Further properties: the video identifier *)

Lemma id_chars_sound (n : nat) (s g rest : string) :
  id_chars n s = Some (g, rest) ->
  s = g ++ rest /\ String.length g = n /\ all_chars is_id_char g = true.
Proof.
  revert s g rest. induction n as [|n IH]; intros s g rest; simpl.
  - intros [= <- <-]. repeat split.
  - destruct s as [|c r]; [discriminate|].
    destruct (is_id_char c) eqn:Hc; [|discriminate].
    destruct (id_chars n r) as [[g' rest']|] eqn:E; [|discriminate].
    intros [= <- <-]. destruct (IH _ _ _ E) as (-> & <- & Hg).
    simpl. rewrite Hc, Hg. repeat split.
Qed.

Lemma id_chars_complete (g rest : string) :
  all_chars is_id_char g = true ->
  id_chars (String.length g) (g ++ rest) = Some (g, rest).
Proof.
  induction g as [|c g IH]; simpl; [reflexivity|].
  intros H. apply andb_prop in H as [Hc Hg]. now rewrite Hc, (IH Hg).
Qed.

Lemma prefix_app (g rest : string) : String.prefix g (g ++ rest) = true.
Proof.
  induction g as [|c g IH]; simpl; [now destruct rest|].
  destruct (ascii_dec c c); [exact IH | congruence].
Qed.

Lemma contains_app (g pre rest : string) :
  contains g rest = true -> contains g (pre ++ rest) = true.
Proof.
  intros H. induction pre as [|c pre IH]; [exact H|].
  cbn [append contains]. rewrite IH. apply orb_true_r.
Qed.

Lemma contains_here (g rest : string) : contains g (g ++ rest) = true.
Proof.
  destruct (g ++ rest) eqn:E; cbn [contains]; rewrite <- E, prefix_app; reflexivity.
Qed.

Lemma startswith_split (s p : string) :
  startswith s p = true -> s = p ++ drop (String.length p) s.
Proof.
  unfold startswith. revert s. induction p as [|c p IH]; intros s H; [reflexivity|].
  destruct s as [|d s]; [discriminate|]. cbn [prefix] in H.
  destruct (ascii_dec c d) as [<-|]; [|discriminate].
  cbn [String.length drop append]. now rewrite <- (IH s H).
Qed.

Lemma re_search_sound (f : string -> option string) (s g : string) :
  re_search f s = Some g -> exists pre suf, s = pre ++ suf /\ f suf = Some g.
Proof.
  induction s as [|c s IH]; cbn [re_search].
  - destruct (f "") eqn:E; [|discriminate]. intros [= <-]. now exists "", "".
  - destruct (f (String c s)) eqn:E.
    + intros [= <-]. now exists "", (String c s).
    + intros H. destruct (IH H) as (pre & suf & -> & Hf).
      now exists (String c pre), suf.
Qed.

Lemma re_search_complete (f : string -> option string) (pre suf : string) :
  f suf <> None -> re_search f (pre ++ suf) <> None.
Proof.
  intros H. induction pre as [|c pre IH].
  - destruct suf; cbn [append re_search]; destruct (f _); congruence.
  - cbn [append re_search]. destruct (f (String c (pre ++ suf))); [discriminate | exact IH].
Qed.

Lemma match_bare_sound (s g : string) :
  match_bare s = Some g -> is_video_id g /\ contains g s = true.
Proof.
  unfold match_bare. destruct (id_chars 11 s) as [[g' rest]|] eqn:E; [|discriminate].
  intros [= <-]. destruct (id_chars_sound _ _ _ _ E) as (-> & Hl & Hc).
  split; [now split | apply contains_here].
Qed.

Lemma match_short_sound (s g : string) :
  match_short s = Some g -> is_video_id g /\ contains g s = true.
Proof.
  unfold match_short. destruct (startswith s "youtu.be/") eqn:P; [|discriminate].
  destruct (id_chars 11 (drop 9 s)) as [[g' rest]|] eqn:E; [|discriminate].
  intros [= <-]. destruct (id_chars_sound _ _ _ _ E) as (Hs & Hl & Hc).
  split; [now split|]. rewrite (startswith_split _ _ P). cbn [String.length].
  rewrite Hs. apply contains_app, contains_here.
Qed.

Lemma match_watch_sound (s g : string) :
  match_watch s = Some g -> is_video_id g /\ contains g s = true.
Proof.
  unfold match_watch.
  assert (G : forall p, startswith s p = true ->
                match id_chars 11 (drop (String.length p) s) with
                | Some (g0, rest) => if id_end rest then Some g0 else None
                | None => None
                end = Some g -> is_video_id g /\ contains g s = true).
  { intros p P. destruct (id_chars 11 _) as [[g' rest]|] eqn:E; [|discriminate].
    destruct (id_end rest); [|discriminate].
    intros [= <-]. destruct (id_chars_sound _ _ _ _ E) as (Hs & Hl & Hc).
    split; [now split|]. rewrite (startswith_split _ _ P), Hs.
    apply contains_app, contains_here. }
  destruct (startswith s "v=") eqn:P1; [exact (G "v=" P1)|].
  destruct (startswith s "/") eqn:P2; [exact (G "/" P2) | discriminate].
Qed.

Lemma re_search_id (f : string -> option string) (url g : string) :
  (forall s g0, f s = Some g0 -> is_video_id g0 /\ contains g0 s = true) ->
  re_search f url = Some g -> is_video_id g /\ contains g url = true.
Proof.
  intros Hf H. destruct (re_search_sound f url g H) as (pre & suf & -> & E).
  destruct (Hf _ _ E) as [Hid Hc]. split; [exact Hid | now apply contains_app].
Qed.

(** X1: [extract_video_id] records nothing and either returns an
    identifier that is 11 characters of [[0-9A-Za-z_-]] and occurs in the
    URL, or raises HTTP 400 "Invalid YouTube URL.". *)
Theorem video_id_comes_from_url (url : string) (h : History) :
  snd (extract_video_id url h) = h /\
  match fst (extract_video_id url h) with
  | Ok g => is_video_id g /\ contains g url = true
  | Raise e => e = invalid_url
  end.
Proof.
  unfold extract_video_id.
  destruct (re_search match_watch url) as [g|] eqn:E1.
  { split; [reflexivity|]. exact (re_search_id _ _ _ match_watch_sound E1). }
  destruct (re_search match_short url) as [g|] eqn:E2.
  { split; [reflexivity|]. exact (re_search_id _ _ _ match_short_sound E2). }
  destruct (re_search match_bare url) as [g|] eqn:E3.
  { split; [reflexivity|]. exact (re_search_id _ _ _ match_bare_sound E3). }
  split; reflexivity.
Qed.

(** X2: a URL that contains 11 consecutive characters of [[0-9A-Za-z_-]]
    anywhere is never rejected, whatever surrounds them. *)
Theorem url_with_id_run_is_accepted (pre g post : string) (h : History) :
  is_video_id g ->
  exists g', extract_video_id (pre ++ g ++ post) h = (Ok g', h).
Proof.
  intros [Hl Hc].
  assert (B : re_search match_bare (pre ++ g ++ post) <> None).
  { apply re_search_complete. unfold match_bare.
    rewrite <- Hl, (id_chars_complete g post Hc). discriminate. }
  unfold extract_video_id.
  destruct (re_search match_watch _) as [g1|]; [now exists g1|].
  destruct (re_search match_short _) as [g2|]; [now exists g2|].
  destruct (re_search match_bare _) as [g3|]; [now exists g3 | congruence].
Qed.

Lemma url_with_id_run_is_accepted_witness :
  exists g', extract_video_id ("see " ++ "abc12345678" ++ " please") [] = (Ok g', []).
Proof.
  apply (url_with_id_run_is_accepted "see " "abc12345678" " please" []).
  split; reflexivity.
Defined.

Lemma re_search_skip (f : string -> option string) (c : ascii) (s : string) :
  f (String c s) = None -> re_search f (String c s) = re_search f s.
Proof. intros H. cbn [re_search]. now rewrite H. Qed.

Lemma id_chars_whole (g : string) :
  is_video_id g -> id_chars 11 g = Some (g, "").
Proof.
  intros [Hl Hc]. pose proof (id_chars_complete g "" Hc) as H.
  rewrite Hl in H. rewrite <- H. f_equal. clear. induction g; simpl; congruence.
Qed.

Lemma id_chars_then (g rest : string) :
  is_video_id g -> id_chars 11 (g ++ rest) = Some (g, rest).
Proof.
  intros [Hl Hc]. rewrite <- Hl. now apply id_chars_complete.
Qed.

Lemma re_search_here (f : string -> option string) (s g : string) :
  f s = Some g -> re_search f s = Some g.
Proof. intros H. destruct s; cbn [re_search]; now rewrite H. Qed.

Lemma match_watch_at (s g rest : string) :
  id_chars 11 s = Some (g, rest) -> id_end rest = true ->
  match_watch ("v=" ++ s) = Some g /\ match_watch ("/" ++ s) = Some g.
Proof.
  intros E R. unfold match_watch.
  change (startswith ("v=" ++ s) "v=") with (String.prefix "v=" ("v=" ++ s)).
  rewrite prefix_app.
  change (startswith ("/" ++ s) "v=") with false.
  change (startswith ("/" ++ s) "/") with (String.prefix "/" ("/" ++ s)).
  rewrite prefix_app.
  change (drop 2 ("v=" ++ s)) with s. change (drop 1 ("/" ++ s)) with s.
  now rewrite E, R.
Qed.

(** X3: the canonical watch URL, the watch URL followed by further query
    parameters, and the shortened URL of the same video all resolve to the
    same identifier, the one they carry. *)
Theorem url_forms_agree (g more : string) (h : History) :
  is_video_id g ->
  extract_video_id ("https://www.youtube.com/watch?v=" ++ g) h = (Ok g, h) /\
  extract_video_id ("https://www.youtube.com/watch?v=" ++ g ++ "&" ++ more) h = (Ok g, h) /\
  extract_video_id ("https://youtu.be/" ++ g) h = (Ok g, h).
Proof.
  intros Hg. unfold extract_video_id.
  destruct (match_watch_at g g "" (id_chars_whole g Hg) eq_refl) as [W1 W3].
  destruct (match_watch_at (g ++ "&" ++ more) g ("&" ++ more)
              (id_chars_then g _ Hg) eq_refl) as [W2 _].
  cbn [append] in W1, W2, W3.
  repeat split.
  - cbn [append]. do 30 (rewrite re_search_skip by reflexivity).
    now rewrite (re_search_here _ _ _ W1).
  - cbn [append]. do 30 (rewrite re_search_skip by reflexivity).
    now rewrite (re_search_here _ _ _ W2).
  - cbn [append]. do 16 (rewrite re_search_skip by reflexivity).
    now rewrite (re_search_here _ _ _ W3).
Qed.

Lemma url_forms_agree_witness :
  extract_video_id ("https://www.youtube.com/watch?v=" ++ "abc12345678") [] =
    (Ok "abc12345678", []) /\
  extract_video_id ("https://www.youtube.com/watch?v=" ++ "abc12345678" ++ "&" ++ "t=42") [] =
    (Ok "abc12345678", []) /\
  extract_video_id ("https://youtu.be/" ++ "abc12345678") [] = (Ok "abc12345678", []).
Proof.
  apply (url_forms_agree "abc12345678" "t=42" []). split; reflexivity.
Defined.

(** * Further properties: the media-info extractor *)

Section ExtractorFacts.

Variable w : World.

Lemma strategy_attempt_one_call url download n idx strategy last_error h :
  extract_events (snd (strategy_attempt w url download n idx strategy last_error h)) =
  EExtractInfo strategy url download :: extract_events h.
Proof.
  unfold strategy_attempt, try_catch, bind, log, emit, call_extract_info, ret, raise.
  destruct (extract_info w _ _ _ _) as [[info|]|e]; simpl; try reflexivity.
  destruct (is_permanent e); reflexivity.
Qed.

Lemma strategy_loop_calls_at_most url download n todo :
  forall idx last_error h,
  exists done,
    extract_events (snd (strategy_loop w url download n idx todo last_error h)) =
    (rev (map (fun s => EExtractInfo s url download) done) ++ extract_events h)%list /\
    exists rest, todo = (done ++ rest)%list.
Proof.
  induction todo as [|s todo IH]; intros idx last_error h.
  - exists []. split; [|now exists []].
    cbn [strategy_loop]. destruct last_error; reflexivity.
  - cbn [strategy_loop]. unfold bind.
    pose proof (strategy_attempt_one_call url download n idx s last_error h) as C.
    destruct (strategy_attempt w url download n idx s last_error h) as [[[info|le]|e] h'];
      simpl snd in C.
    + exists [s]. split; [exact C | now exists todo].
    + destruct (IH (S idx) le h') as (done & E & rest & ->).
      exists (s :: done). split; [|now exists rest].
      rewrite E, C. cbn [map rev]. now rewrite <- app_assoc.
    + exists [s]. split; [exact C | now exists todo].
Qed.

(** X4: one invocation of the extractor calls [extract_info] at least
    once and at most three times, under the client identities android, ios,
    web in that order, stopping at the first that settles the outcome. *)
Theorem extractor_tries_clients_in_order (url : string) (download : bool) (h : History) :
  exists done rest,
    [["android"]; ["ios"]; ["web"]] = (done ++ rest)%list /\
    done <> [] /\
    extract_events (snd (_extract_with_stable_client w url download h)) =
    (rev (map (fun s => EExtractInfo s url download) done) ++ extract_events h)%list /\
    (extractor_calls h + 1 <= extractor_calls (snd (_extract_with_stable_client w url download h))
     <= extractor_calls h + 3)%nat.
Proof.
  destruct (strategy_loop_calls_at_most url download (length strategies) strategies 0%nat None h)
    as (done & E & rest & Hs).
  pose proof (extract_calls_more w url download h) as Hmore.
  exists done, rest. split; [exact Hs|].
  assert (Hlen : extractor_calls (snd (_extract_with_stable_client w url download h))
                 = (length done + extractor_calls h)%nat).
  { pose proof E as E'. unfold extract_events in E'.
    unfold _extract_with_stable_client, extractor_calls. rewrite E'.
    now rewrite length_app, length_rev, length_map. }
  assert (Hd : (length done <= 3)%nat).
  { apply (f_equal (@length _)) in Hs. rewrite length_app in Hs. simpl in Hs. lia. }
  split; [|split; [exact E | lia]].
  intros ->. simpl in Hlen. lia.
Qed.

(** The info the extractor returns is the one its last call returned. *)
Lemma strategy_loop_returns_last url download n todo :
  forall idx last_error h info h',
  strategy_loop w url download n idx todo last_error h = (Ok info, h') ->
  exists strategy hpre,
    h' = ELog ("Extraction successful with strategy: " ++ repr_clients strategy)
         :: EExtractInfo strategy url download :: hpre /\
    extract_info w hpre strategy url download = Ok (Some info).
Proof.
  induction todo as [|s rest IH]; intros idx last_error h info h' Hr.
  - cbn [strategy_loop] in Hr. destruct last_error; discriminate.
  - cbn [strategy_loop] in Hr. revert Hr.
    unfold bind at 1, strategy_attempt, try_catch, bind at 1, log at 1, emit.
    unfold bind at 1, call_extract_info.
    destruct (extract_info w _ s url download) as [[i|]|e0] eqn:E.
    + unfold bind, log, emit, ret. intros [= <- <-].
      eexists _, _. split; [reflexivity | exact E].
    + unfold ret. intros Hr. exact (IH _ _ _ _ _ Hr).
    + unfold bind at 1, log at 1, emit. destruct (is_permanent e0).
      * unfold raise. discriminate.
      * unfold ret. intros Hr. exact (IH _ _ _ _ _ Hr).
Qed.

(** X5: an info returned by the extractor is the truthy info that its last
    call to [extract_info] returned; nothing is tried after that call. *)
Theorem extractor_returns_what_a_client_gave (url : string) (download : bool)
    (h h' : History) (info : Info) :
  _extract_with_stable_client w url download h = (Ok info, h') ->
  exists strategy hpre,
    In strategy [["android"]; ["ios"]; ["web"]] /\
    h' = ELog ("Extraction successful with strategy: " ++ repr_clients strategy)
         :: EExtractInfo strategy url download :: hpre /\
    extract_info w hpre strategy url download = Ok (Some info).
Proof.
  intros Hr.
  destruct (strategy_loop_returns_last url download 3 strategies 0%nat None h info h' Hr)
    as (s & hpre & -> & E).
  exists s, hpre. split; [|now split].
  destruct (strategy_loop_calls_at_most url download (length strategies) strategies 0%nat None h)
    as (done & Ev & rest & Hs).
  unfold _extract_with_stable_client in Hr. rewrite Hr in Ev. simpl snd in Ev.
  unfold extract_events in Ev at 1. cbn [filter is_extract] in Ev.
  assert (Hin : In s done).
  { destruct done as [|d done] using rev_ind.
    - simpl in Ev. exfalso.
      pose proof (extract_calls_more w url download h) as M.
      unfold _extract_with_stable_client in M. rewrite Hr in M. simpl snd in M.
      unfold extractor_calls in M. cbn [filter is_extract] in M.
      unfold extract_events in Ev. rewrite Ev in M. lia.
    - rewrite map_app, rev_app_distr in Ev. simpl in Ev. injection Ev as <- _.
      apply in_or_app. right. now left. }
  unfold strategies in Hs. rewrite Hs. apply in_or_app. now left.
Qed.

Lemma strategy_loop_exhausts url download n todo :
  (forall hx s, goes_on (extract_info w hx s url download)) ->
  forall idx last_error h,
  match last_error with Some e0 => is_permanent e0 = false | None => True end ->
  exists e h',
    strategy_loop w url download n idx todo last_error h = (Raise e, h') /\
    is_permanent e = false /\
    extract_events h' =
    (rev (map (fun s => EExtractInfo s url download) todo) ++ extract_events h)%list.
Proof.
  intros Hw. induction todo as [|s rest IH]; intros idx last_error h Hl.
  - cbn [strategy_loop]. destruct last_error as [e0|].
    + now exists e0, h.
    + now exists all_failed, h.
  - cbn [strategy_loop].
    unfold bind at 1, strategy_attempt, try_catch, bind at 1, log at 1, emit.
    unfold bind at 1, call_extract_info.
    pose proof (Hw (ELog (trying_msg n idx s) :: h) s) as G. unfold trying_msg in G.
    destruct (extract_info w _ s url download) as [[i|]|e0]; simpl in G; [tauto| |].
    + unfold ret.
      destruct (IH (S idx) last_error
                  (EExtractInfo s url download :: ELog (trying_msg n idx s) :: h) Hl)
        as (e & h' & E & P & Ev).
      exists e, h'. unfold trying_msg in E. rewrite E. split; [reflexivity|].
      split; [exact P|]. rewrite Ev. cbn [map rev]. unfold extract_events.
      cbn [filter is_extract]. now rewrite <- app_assoc.
    + unfold bind at 1, log at 1, emit. rewrite G. unfold ret.
      destruct (IH (S idx) (Some e0)
                  (ELog (strategy_failed_msg s e0) :: EExtractInfo s url download
                   :: ELog (trying_msg n idx s) :: h) G) as (e & h' & E & P & Ev).
      exists e, h'. unfold trying_msg, strategy_failed_msg in E. rewrite E.
      split; [reflexivity|].
      split; [exact P|]. rewrite Ev. cbn [map rev]. unfold extract_events.
      cbn [filter is_extract]. now rewrite <- app_assoc.
Qed.

Lemma calls_falsy_app (l m hbase : History) :
  calls_falsy w l (m ++ hbase)%list -> calls_falsy w m hbase ->
  calls_falsy w (l ++ m)%list hbase.
Proof.
  intros Hl Hm. induction l as [|ev l IH]; [exact Hm|].
  cbn [app calls_falsy] in *. destruct Hl as [Hev Hl]. split; [|now apply IH].
  now rewrite <- app_assoc.
Qed.

(** Which failure ends the loop over the strategies: the one of the last
    call that raised, or, when no call raised, the one it entered with. *)
Lemma strategy_loop_last_error url download n todo :
  (forall hx s, goes_on (extract_info w hx s url download)) ->
  forall idx last_error h e h',
  strategy_loop w url download n idx todo last_error h = (Raise e, h') ->
  (exists l, h' = (l ++ h)%list /\ e = get_or last_error all_failed /\ calls_falsy w l h) \/
  (exists s l l0,
     h' = (l ++ ELog (strategy_failed_msg s e) :: EExtractInfo s url download
           :: l0 ++ h)%list /\
     extract_info w (l0 ++ h)%list s url download = Raise e /\
     calls_falsy w l (ELog (strategy_failed_msg s e) :: EExtractInfo s url download
                      :: l0 ++ h)%list).
Proof.
  intros Hw. induction todo as [|s rest IH]; intros idx last_error h e h' Hr.
  - left. exists []. cbn [strategy_loop] in Hr.
    destruct last_error as [e0|]; unfold raise in Hr; injection Hr as <- <-;
      repeat split.
  - cbn [strategy_loop] in Hr. revert Hr.
    unfold bind at 1, strategy_attempt, try_catch, bind at 1, log at 1, emit.
    unfold bind at 1, call_extract_info. fold (trying_msg n idx s).
    pose proof (Hw (ELog (trying_msg n idx s) :: h) s) as G.
    destruct (extract_info w (ELog (trying_msg n idx s) :: h) s url download)
      as [[i|]|e0] eqn:E; simpl in G; [tauto| |].
    + unfold ret. intros Hr.
      destruct (IH _ _ _ _ _ Hr) as [(l & -> & -> & Hl)|(s' & l & l0 & -> & Es & Hl)].
      * left. exists (l ++ [EExtractInfo s url download; ELog (trying_msg n idx s)])%list.
        rewrite <- app_assoc. split; [reflexivity|]. split; [reflexivity|].
        apply calls_falsy_app; [exact Hl|]. cbn [calls_falsy app]. now rewrite E.
      * right.
        exists s', l, (l0 ++ [EExtractInfo s url download; ELog (trying_msg n idx s)])%list.
        rewrite <- !app_assoc. cbn [app]. now repeat split.
    + unfold bind at 1, log at 1, emit. fold (strategy_failed_msg s e0). rewrite G.
      unfold ret. intros Hr.
      destruct (IH _ _ _ _ _ Hr) as [(l & -> & -> & Hl)|(s' & l & l0 & -> & Es & Hl)].
      * right. exists s, l, [ELog (trying_msg n idx s)]. cbn [get_or app].
        now repeat split.
      * right.
        exists s', l,
          (l0 ++ [ELog (strategy_failed_msg s e0); EExtractInfo s url download;
                  ELog (trying_msg n idx s)])%list.
        rewrite <- !app_assoc. cbn [app]. now repeat split.
Qed.

(** X6: when no client obtains an info and no failure is permanent, the
    extractor tries all three clients, android, ios and web in that order,
    and then raises a failure that is not permanent: the failure of the last
    call that raised (every call after it returned a falsy info), or "All
    extraction strategies failed" when every call returned a falsy info. *)
Theorem extractor_exhausts_all_clients (url : string) (download : bool) (h : History) :
  (forall hx s, goes_on (extract_info w hx s url download)) ->
  exists e h',
    _extract_with_stable_client w url download h = (Raise e, h') /\
    is_permanent e = false /\
    extract_events h' =
    ([EExtractInfo ["web"] url download; EExtractInfo ["ios"] url download;
      EExtractInfo ["android"] url download] ++ extract_events h)%list /\
    ((exists l, h' = (l ++ h)%list /\ e = all_failed /\ calls_falsy w l h) \/
     (exists s l l0,
        h' = (l ++ ELog (strategy_failed_msg s e) :: EExtractInfo s url download
              :: l0 ++ h)%list /\
        extract_info w (l0 ++ h)%list s url download = Raise e /\
        calls_falsy w l (ELog (strategy_failed_msg s e) :: EExtractInfo s url download
                         :: l0 ++ h)%list)).
Proof.
  intros Hw.
  destruct (strategy_loop_exhausts url download 3 strategies Hw 0%nat None h I)
    as (e & h' & E & P & Ev).
  exists e, h'. split; [exact E|]. split; [exact P|]. split; [exact Ev|].
  exact (strategy_loop_last_error url download 3 strategies Hw 0%nat None h e h' E).
Qed.

End ExtractorFacts.

Lemma extractor_exhausts_all_clients_witness :
  let w := rate_limited_world in
  exists e h',
    _extract_with_stable_client w sample_url false [] = (Raise e, h') /\
    is_permanent e = false /\
    extract_events h' =
    ([EExtractInfo ["web"] sample_url false; EExtractInfo ["ios"] sample_url false;
      EExtractInfo ["android"] sample_url false] ++ extract_events [])%list /\
    ((exists l, h' = (l ++ [])%list /\ e = all_failed /\ calls_falsy w l []) \/
     (exists s l l0,
        h' = (l ++ ELog (strategy_failed_msg s e) :: EExtractInfo s sample_url false
              :: l0 ++ [])%list /\
        extract_info w (l0 ++ [])%list s sample_url false = Raise e /\
        calls_falsy w l (ELog (strategy_failed_msg s e) :: EExtractInfo s sample_url false
                         :: l0 ++ [])%list)).
Proof.
  cbv zeta.
  apply (extractor_exhausts_all_clients rate_limited_world sample_url false []).
  intros hx [|c [|]]; try exact I. cbn [rate_limited_world sample_world extract_info].
  destruct (c =? "ios")%string; [reflexivity | exact I].
Defined.

(** In [rate_limited_world] the failure raised is the one of the second
    client, although the third was tried after it. *)
Example rate_limited_run :
  fst (_extract_with_stable_client rate_limited_world sample_url false []) =
    Raise rate_limited /\
  extract_events (snd (_extract_with_stable_client rate_limited_world sample_url false [])) =
    [EExtractInfo ["web"] sample_url false; EExtractInfo ["ios"] sample_url false;
     EExtractInfo ["android"] sample_url false].
Proof. split; reflexivity. Qed.

Lemma extractor_returns_what_a_client_gave_witness :
  exists strategy hpre,
    In strategy [["android"]; ["ios"]; ["web"]] /\
    snd (_extract_with_stable_client playlist_world sample_url false []) =
      ELog ("Extraction successful with strategy: " ++ repr_clients strategy)
      :: EExtractInfo strategy sample_url false :: hpre /\
    extract_info playlist_world hpre strategy sample_url false =
      Ok (Some (info_of "Talk" "About things" [("en", TList [cand playlist_url])])).
Proof.
  apply (extractor_returns_what_a_client_gave playlist_world sample_url false [] _ _).
  reflexivity.
Defined.

(** * Further properties: the merged track pool and the language tests *)

Lemma dict_get_set_same {A} (k : string) (v : A) (d : list (string * A)) :
  dict_get k (dict_set k v d) = Some v.
Proof.
  induction d as [|[k' v'] d IH]; simpl.
  - now rewrite String.eqb_refl.
  - destruct (k' =? k)%string eqn:E; simpl; rewrite ?String.eqb_refl, ?E; auto.
Qed.

Lemma dict_get_set_other {A} (k k' : string) (v : A) (d : list (string * A)) :
  k <> k' -> dict_get k (dict_set k' v d) = dict_get k d.
Proof.
  intros Hk. induction d as [|[k0 v0] d IH]; simpl.
  - destruct (k' =? k)%string eqn:E; [|reflexivity].
    apply String.eqb_eq in E. congruence.
  - destruct (k0 =? k')%string eqn:E; simpl.
    + apply String.eqb_eq in E. subst k0.
      destruct (k' =? k)%string eqn:E'; [|reflexivity].
      apply String.eqb_eq in E'. congruence.
    + destruct (k0 =? k)%string; [reflexivity | exact IH].
Qed.

Lemma dict_get_absent {A} (k : string) (d : list (string * A)) :
  ~ In k (dict_keys d) -> dict_get k d = None.
Proof.
  induction d as [|[k' v'] d IH]; simpl; [reflexivity|].
  intros H. destruct (k' =? k)%string eqn:E.
  - apply String.eqb_eq in E. tauto.
  - apply IH. tauto.
Qed.

Lemma dict_get_fold {A} (k : string) (l d : list (string * A)) :
  NoDup (dict_keys l) ->
  dict_get k (fold_left (fun d kv => dict_set (fst kv) (snd kv) d) l d) =
  match dict_get k l with
  | Some v => Some v
  | None => dict_get k d
  end.
Proof.
  revert d. induction l as [|[k1 v1] l IH]; intros d Hn; [reflexivity|].
  inversion Hn as [|? ? Hnotin Hn']; subst. cbn [fold_left fst snd dict_get].
  rewrite (IH _ Hn'). destruct (k1 =? k)%string eqn:E.
  - apply String.eqb_eq in E. subst k1.
    now rewrite (dict_get_absent k l Hnotin), dict_get_set_same.
  - destruct (dict_get k l); [reflexivity|].
    apply dict_get_set_other. intros ->. now rewrite String.eqb_refl in E.
Qed.

(** X7: in the merged pool [{**subs, **auto}] a language is looked up in
    the automatic captions first: when a language has both manual subtitles
    and automatic captions, the pool holds the automatic ones only. *)
Theorem automatic_captions_shadow_manual {A} (subs auto : list (string * A)) (lang : string) :
  NoDup (dict_keys subs) ->
  NoDup (dict_keys auto) ->
  dict_get lang (dict_merge subs auto) =
  match dict_get lang auto with
  | Some v => Some v
  | None => dict_get lang subs
  end.
Proof.
  intros Hs Ha. unfold dict_merge. rewrite fold_left_app.
  rewrite (dict_get_fold lang auto _ Ha).
  destruct (dict_get lang auto); [reflexivity|].
  rewrite (dict_get_fold lang subs [] Hs). now destruct (dict_get lang subs).
Qed.

Lemma automatic_captions_shadow_manual_witness :
  dict_get "en" (dict_merge manual_and_auto_subs manual_and_auto_auto) =
  match dict_get "en" manual_and_auto_auto with
  | Some v => Some v
  | None => dict_get "en" manual_and_auto_subs
  end.
Proof.
  apply (automatic_captions_shadow_manual manual_and_auto_subs manual_and_auto_auto "en").
  - repeat constructor; simpl; intuition discriminate.
  - repeat constructor; simpl; intuition discriminate.
Defined.

Lemma dict_keys_set {A} (k : string) (v : A) (d : list (string * A)) :
  dict_keys (dict_set k v d) =
  if existsb (String.eqb k) (dict_keys d) then dict_keys d else (dict_keys d ++ [k])%list.
Proof.
  induction d as [|[k' v'] d IH]; [reflexivity|].
  cbn [dict_set dict_keys map fst existsb]. rewrite (String.eqb_sym k k').
  destruct (k' =? k)%string eqn:E.
  - apply String.eqb_eq in E. now subst.
  - cbn [orb map fst]. fold (dict_keys (dict_set k v d)). rewrite IH.
    fold (dict_keys d). now destruct (existsb _ _).
Qed.

Lemma dict_keys_fold {A} (l d : list (string * A)) :
  dict_keys (fold_left (fun d kv => dict_set (fst kv) (snd kv) d) l d) =
  fold_left (fun ks k => if existsb (String.eqb k) ks then ks else (ks ++ [k])%list)
            (dict_keys l) (dict_keys d).
Proof.
  revert d. induction l as [|[k v] l IH]; intros d; [reflexivity|].
  change (dict_keys ((k, v) :: l)) with (k :: dict_keys l).
  cbn [fold_left fst snd]. now rewrite IH, dict_keys_set.
Qed.

Lemma keys_fold_fresh (ks new : list string) :
  NoDup (ks ++ new) ->
  fold_left (fun ks k => if existsb (String.eqb k) ks then ks else (ks ++ [k])%list) new ks =
  (ks ++ new)%list.
Proof.
  revert ks. induction new as [|k new IH]; intros ks Hn; cbn [fold_left].
  - now rewrite app_nil_r.
  - assert (Hk : existsb (String.eqb k) ks = false).
    { apply not_true_is_false. intros H. apply existsb_exists in H as (x & Hx & E).
      apply String.eqb_eq in E. subst x.
      apply NoDup_remove_2 in Hn. apply Hn. apply in_or_app. now left. }
    rewrite Hk, IH; rewrite <- app_assoc; [reflexivity | exact Hn].
Qed.

(** X8: merging keeps the languages of the manual subtitles first in the
    pool and in their order; the languages that follow them are languages of
    the automatic captions. *)
Theorem merged_pool_keeps_manual_order {A} (subs auto : list (string * A)) :
  NoDup (dict_keys subs) ->
  exists later, dict_keys (dict_merge subs auto) = (dict_keys subs ++ later)%list /\
                incl later (dict_keys auto).
Proof.
  intros Hs. unfold dict_merge. rewrite fold_left_app, dict_keys_fold.
  rewrite dict_keys_fold. change (dict_keys (@nil (string * A))) with (@nil string).
  rewrite (keys_fold_fresh [] (dict_keys subs) Hs). simpl app.
  generalize (dict_keys subs) as ks. induction (dict_keys auto) as [|k l IH]; intros ks.
  - exists []. split; [now rewrite app_nil_r | intros x []].
  - cbn [fold_left]. destruct (existsb (String.eqb k) ks).
    + destruct (IH ks) as (later & E & I). exists later. split; [exact E|].
      intros x Hx. right. now apply I.
    + destruct (IH (ks ++ [k])%list) as (later & E & I). exists (k :: later).
      split; [now rewrite E, <- app_assoc|].
      intros x [<-|Hx]; [now left | right; now apply I].
Qed.

Lemma merged_pool_keeps_manual_order_witness :
  exists later,
    dict_keys (dict_merge manual_and_auto_subs manual_and_auto_auto) =
    (dict_keys manual_and_auto_subs ++ later)%list /\
    incl later (dict_keys manual_and_auto_auto).
Proof.
  apply (merged_pool_keeps_manual_order manual_and_auto_subs manual_and_auto_auto).
  repeat constructor; simpl; intuition discriminate.
Defined.

(** X9: a label counts as English exactly when it is non-empty and, in
    lower case, contains "english" or starts with "en"; the regular
    expression and the comparison with "eng" of lines 231 and 233 never
    decide. *)
Theorem english_label_is_prefix_test (label : string) :
  is_english_label label =
  (truthy label &&
   (contains "english" (lower label) || startswith (lower label) "en"))%bool.
Proof.
  unfold is_english_label. destruct (truthy label); [|reflexivity]. cbn [negb andb].
  cbv zeta. destruct (contains "english" (lower label)); [reflexivity|]. cbn [orb].
  unfold re_en_code. destruct (startswith (lower label) "en") eqn:P.
  - now rewrite orb_true_r.
  - cbn [orb]. destruct (lower label =? "eng")%string eqn:E; [|reflexivity].
    apply String.eqb_eq in E. rewrite E in P. discriminate.
Qed.

Lemma prefix_trans (p v s : string) :
  String.prefix p v = true -> String.prefix v s = true -> String.prefix p s = true.
Proof.
  revert v s. induction p as [|a p IH]; intros v s Hp Hv.
  - now destruct s.
  - destruct v as [|b v]; [discriminate|]. destruct s as [|c s]; [discriminate|].
    cbn [prefix] in *. destruct (ascii_dec a b) as [->|]; [|discriminate].
    destruct (ascii_dec b c) as [->|]; [|discriminate]. eauto.
Qed.

Lemma contains_prefix_of_needle (p v s : string) :
  String.prefix p v = true -> contains v s = true -> contains p s = true.
Proof.
  intros Hp. induction s as [|c s IH]; cbn [contains].
  - rewrite orb_false_r. intros Hv. rewrite (prefix_trans p v "" Hp Hv). reflexivity.
  - intros H. apply orb_prop in H as [H|H].
    + now rewrite (prefix_trans p v _ Hp H).
    + rewrite (IH H). apply orb_true_r.
Qed.

(** X10: a caption track is preferred exactly when its language name, in
    lower case, contains "en" anywhere, or its language code, in lower case,
    is one of "english", "en", "en-us", "en-gb". *)
Theorem preferred_track_is_substring_test (t : Transcript) :
  is_english_track t =
  (contains "en" (lower (language t))
   || existsb (String.eqb (lower (language_code t))) english_variants)%bool.
Proof.
  unfold is_english_track, english_variants. cbv zeta. cbn [existsb].
  set (ln := lower (language t)). set (lc := lower (language_code t)).
  rewrite !(String.eqb_sym lc).
  destruct (contains "en" ln) eqn:En.
  - rewrite !orb_true_r. now rewrite ?orb_true_l, ?orb_true_r.
  - assert (N : forall v, String.prefix "en" v = true -> contains v ln = false).
    { intros v Hv. apply not_true_is_false. intros H.
      rewrite (contains_prefix_of_needle "en" v ln Hv H) in En. discriminate. }
    rewrite (N "english" eq_refl), (N "en-us" eq_refl), (N "en-gb" eq_refl).
    reflexivity.
Qed.

(** * Further properties: the caption fetcher *)

Section FetcherFacts.

Variable w : World.

Lemma attempt_loop_fetches (n : nat) (attempts : list Transcript) :
  forall idx h,
  exists done rest,
    attempts = (done ++ rest)%list /\
    fetch_events (snd (attempt_loop w n idx attempts h)) =
    (rev (map EFetch done) ++ fetch_events h)%list.
Proof.
  induction attempts as [|t attempts IH]; intros idx h.
  - now exists [], [].
  - cbn [attempt_loop]. unfold bind.
    pose proof (attempt_one_fetch w n idx t h) as F.
    destruct (attempt w n idx t h) as [[[| |v]|e] h']; simpl snd in F.
    + destruct (IH (S idx) h') as (done & rest & -> & E).
      exists (t :: done), rest. split; [reflexivity|].
      rewrite E, F. cbn [map rev]. now rewrite <- app_assoc.
    + destruct (IH (S idx) h') as (done & rest & -> & E).
      exists (t :: done), rest. split; [reflexivity|].
      rewrite E, F. cbn [map rev]. now rewrite <- app_assoc.
    + now exists [t], attempts.
    + now exists [t], attempts.
Qed.

Lemma all_attempts_at_most_four (transcripts : list Transcript) :
  (length (all_attempts transcripts) <= 4)%nat.
Proof.
  rewrite all_attempts_filter, length_app.
  pose proof (firstn_le_length 3 (filter is_english_track transcripts)).
  pose proof (firstn_le_length 1 (filter is_other_track transcripts)). lia.
Qed.

(** X11: one run of the caption fetcher fetches at most 4 tracks; the
    tracks fetched are an initial part of the attempt list, in its order,
    and when the listing call fails no track is fetched. *)
Theorem fetcher_fetches_a_prefix_of_attempts (video_id : string) (video_url : option string)
    (h : History) :
  (length (fetch_events (snd (try_transcript_api w video_id video_url h)))
   <= length (fetch_events h) + 4)%nat /\
  match list_transcripts w (ELog api_start_msg :: h) video_id with
  | Ok transcripts =>
      exists done rest,
        all_attempts transcripts = (done ++ rest)%list /\
        fetch_events (snd (try_transcript_api w video_id video_url h)) =
        (rev (map EFetch done) ++ fetch_events h)%list
  | Raise _ =>
      fetch_events (snd (try_transcript_api w video_id video_url h)) = fetch_events h
  end.
Proof.
  assert (R : fetch_events (snd (try_transcript_api w video_id video_url h)) =
              match list_transcripts w (ELog api_start_msg :: h) video_id with
              | Ok ts =>
                  fetch_events
                    (snd (attempt_loop w (length (all_attempts ts)) 0 (all_attempts ts)
                            (EListTranscripts video_id :: ELog api_start_msg :: h)))
              | Raise _ => fetch_events h
              end).
  { unfold try_transcript_api, try_catch. rewrite (bind_run _ _ _ _ _ (log_run _ h)).
    fold api_start_msg. unfold bind at 1, call_list_transcripts.
    destruct (list_transcripts w (ELog api_start_msg :: h) video_id) as [ts|e].
    - cbv zeta.
      destruct (attempt_loop_yields w (length (all_attempts ts)) 0 (all_attempts ts)
                  (EListTranscripts video_id :: ELog api_start_msg :: h))
        as (r & h' & E & _).
      now rewrite E.
    - reflexivity. }
  rewrite R. destruct (list_transcripts w (ELog api_start_msg :: h) video_id) as [ts|e].
  - destruct (attempt_loop_fetches (length (all_attempts ts)) (all_attempts ts) 0%nat
                (EListTranscripts video_id :: ELog api_start_msg :: h))
      as (done & rest & Hd & F).
    change (fetch_events (EListTranscripts video_id :: ELog api_start_msg :: h))
      with (fetch_events h) in F.
    split; [|now exists done, rest].
    rewrite F, length_app, length_rev, length_map.
    pose proof (all_attempts_at_most_four ts) as L. rewrite Hd, length_app in L. lia.
  - split; [lia | reflexivity].
Qed.

(** X12: when the listing has no preferred-language track, the first
    listed track is the one attempt made; if fetching it gives text that is
    not blank, the fetcher returns that text, the non-empty segment texts
    joined by single spaces. *)
Theorem other_language_slot_is_tried (video_id : string) (video_url : option string)
    (h : History) (t : Transcript) (rest : list Transcript) (segments : list Segment) :
  list_transcripts w (ELog api_start_msg :: h) video_id = Ok (t :: rest) ->
  filter is_english_track (t :: rest) = [] ->
  fetch w (ELog (fetching_msg 1 0 t) :: EListTranscripts video_id
           :: ELog api_start_msg :: h) t = Ok segments ->
  truthy (strip (joined_text segments)) = true ->
  all_attempts (t :: rest) = [t] /\
  try_transcript_api w video_id video_url h =
    (Ok (Some (joined_text segments)),
     [ELog ("Transcript fetched successfully: " ++ language t);
      EFetch t;
      ELog (fetching_msg 1 0 t);
      EListTranscripts video_id;
      ELog api_start_msg] ++ h)%list.
Proof.
  intros Hl He Hf Ht.
  assert (Ha : all_attempts (t :: rest) = [t]).
  { rewrite all_attempts_filter, He. cbn [firstn app]. unfold is_other_track.
    cbn [filter] in He |- *. destruct (is_english_track t); [discriminate|].
    reflexivity. }
  split; [exact Ha|].
  unfold try_transcript_api, try_catch. rewrite (bind_run _ _ _ _ _ (log_run _ h)).
  fold api_start_msg. unfold bind at 1, call_list_transcripts. rewrite Hl. cbv zeta.
  rewrite Ha. cbn [length attempt_loop]. unfold bind at 1, attempt, try_catch.
  rewrite (bind_run _ _ _ _ _ (log_run _ _)). fold (fetching_msg 1 0 t).
  unfold bind at 1, call_fetch. rewrite Hf.
  destruct segments as [|seg segs]; [discriminate|]. rewrite Ht.
  reflexivity.
Qed.

End FetcherFacts.

Lemma other_language_slot_is_tried_witness :
  all_attempts [track "Spanish" "es"] = [track "Spanish" "es"] /\
  try_transcript_api spanish_only_world sample_id (Some sample_url) [] =
    (Ok (Some (joined_text [{| seg_text := Some "hola" |}; {| seg_text := None |};
                            {| seg_text := Some "mundo" |}])),
     [ELog ("Transcript fetched successfully: " ++ language (track "Spanish" "es"));
      EFetch (track "Spanish" "es");
      ELog (fetching_msg 1 0 (track "Spanish" "es"));
      EListTranscripts sample_id;
      ELog api_start_msg] ++ [])%list.
Proof.
  apply (other_language_slot_is_tried spanish_only_world sample_id (Some sample_url) []
           (track "Spanish" "es") []
           [{| seg_text := Some "hola" |}; {| seg_text := None |};
            {| seg_text := Some "mundo" |}]); reflexivity.
Defined.

(** * Further properties: counting what a computation records *)

Section Counting.

Context {A B : Type}.
Variable f : Event -> bool.

Lemma adds_ret (a : A) : adds_at_most f 0 (ret a).
Proof. intros h. simpl. lia. Qed.

Lemma adds_raise (e : exn) : adds_at_most f 0 (raise e : M A).
Proof. intros h. simpl. lia. Qed.

Lemma adds_weaken (n n' : nat) (m : M A) :
  (n <= n')%nat -> adds_at_most f n m -> adds_at_most f n' m.
Proof. intros Hn H h. specialize (H h). lia. Qed.

Lemma adds_call (e : Event) (r : History -> result A) :
  adds_at_most f 1 (fun h => (r h, e :: h)).
Proof. intros h. simpl. destruct (f e); simpl; lia. Qed.

Lemma adds_of_emits (m : M A) :
  emits (fun e => f e = false) m -> adds_at_most f 0 m.
Proof.
  intros H h. destruct (H h) as (l & -> & Hl). rewrite filter_app, length_app.
  assert (filter f l = []) as ->; [|simpl; lia].
  induction Hl as [|e l He _ IH]; simpl; [reflexivity|]. now rewrite He.
Qed.

Lemma adds_bind (n1 n2 : nat) (m : M A) (k : A -> M B) :
  adds_at_most f n1 m -> (forall a, adds_at_most f n2 (k a)) ->
  adds_at_most f (n1 + n2) (bind m k).
Proof.
  intros H1 H2 h. unfold bind. specialize (H1 h).
  destruct (m h) as [[a|e] h1]; simpl snd in *.
  - specialize (H2 a h1). lia.
  - lia.
Qed.

Lemma adds_catch (n1 n2 : nat) (m : M A) (handler : exn -> M A) :
  adds_at_most f n1 m -> (forall e, adds_at_most f n2 (handler e)) ->
  adds_at_most f (n1 + n2) (try_catch m handler).
Proof.
  intros H1 H2 h. unfold try_catch. specialize (H1 h).
  destruct (m h) as [[a|e] h1]; simpl snd in *.
  - lia.
  - specialize (H2 e h1). lia.
Qed.

End Counting.

Lemma adds_log (f : Event -> bool) (s : string) :
  f (ELog s) = false -> adds_at_most f 0 (log s).
Proof. intros H h. simpl. rewrite H. lia. Qed.

Lemma emits_bind_returns {A B} (P : Event -> Prop) (Q : A -> Prop) (m : M A) (k : A -> M B) :
  returns Q m -> emits P m -> (forall a, Q a -> emits P (k a)) -> emits P (bind m k).
Proof.
  intros Hr Hm Hk h. unfold bind. destruct (Hm h) as (l & E & Hl).
  destruct (m h) as [[a|e] h'] eqn:R; simpl in E; subst h'.
  - destruct (Hk a (Hr _ _ _ R) (l ++ h)%list) as (l' & E' & Hl').
    exists (l' ++ l)%list. rewrite E', app_assoc. split; [reflexivity|].
    now apply Forall_app.
  - exists l. now split.
Qed.

(** * Further properties: the chunker and the summarizer *)

Lemma py_range_two (stop step : Z) :
  0 < step < stop ->
  exists rest, py_range 0 stop step = 0 :: step :: rest.
Proof.
  intros H. unfold py_range.
  assert (Hq : 2 <= (stop - 0 + step - 1) / step).
  { apply Z.div_le_lower_bound; lia. }
  destruct (Z.to_nat ((stop - 0 + step - 1) / step)) as [|[|k]] eqn:E; try lia.
  cbn [seq map]. exists (map (fun k0 : nat => 0 + Z.of_nat k0 * step) (seq 2 k)).
  f_equal. f_equal. lia.
Qed.

Lemma make_chunks_cases (text : string) :
  make_chunks text =
    if len text <=? MAX_SAFE_CHUNK then [text]
    else [slice text 0 MAX_SAFE_CHUNK;
          slice text (MAX_SAFE_CHUNK - overlap) (2 * MAX_SAFE_CHUNK - overlap)].
Proof.
  unfold make_chunks. cbv zeta. destruct (len text <=? MAX_SAFE_CHUNK) eqn:L; [reflexivity|].
  apply Z.leb_gt in L.
  destruct (py_range_two (len text) (MAX_SAFE_CHUNK - overlap)) as (rest & ->).
  { unfold MAX_SAFE_CHUNK, overlap in *. lia. }
  rewrite chunk_loop_two. reflexivity.
Qed.

(** X13: a text no longer than [MAX_SAFE_CHUNK] is one chunk, the text
    itself; any longer text gives exactly two chunks, its characters
    [0, 80000) and [79700, 159700), whatever its length: what lies beyond
    offset 159700 is in no chunk.  No chunk is longer than [MAX_SAFE_CHUNK]. *)
Theorem chunker_keeps_two_windows (text : string) :
  make_chunks text =
    (if len text <=? MAX_SAFE_CHUNK then [text]
     else [slice text 0 MAX_SAFE_CHUNK;
           slice text (MAX_SAFE_CHUNK - overlap) (2 * MAX_SAFE_CHUNK - overlap)]) /\
  Forall (fun chunk => len chunk <= MAX_SAFE_CHUNK) (make_chunks text).
Proof.
  split; [apply make_chunks_cases|]. rewrite make_chunks_cases.
  destruct (len text <=? MAX_SAFE_CHUNK) eqn:L.
  - apply Z.leb_le in L. now repeat constructor.
  - repeat constructor; rewrite len_slice by (unfold MAX_SAFE_CHUNK, overlap; lia);
      unfold MAX_SAFE_CHUNK, overlap; lia.
Qed.

Section SummarizerFacts.

Variable w : World.

Lemma normalize_returns_valid (summary_type : string) :
  returns valid_mode (normalize_summary_type summary_type).
Proof.
  unfold normalize_summary_type. cbv zeta.
  destruct (existsb _ _) eqn:E.
  - apply returns_ret. apply existsb_exists in E as (x & Hx & Ex).
    apply String.eqb_eq in Ex. now subst.
  - step. apply returns_ret. now left.
Qed.

Lemma chunk_prompt_not_comprehensive (st : string) (bc : option Z) (chunk : string) :
  valid_mode st ->
  only summarizer_event (EGenerate (fst (chunk_prompt st bc chunk))
                                   (snd (chunk_prompt st bc chunk))).
Proof.
  intros [<-|[<-|[<-|[]]]]; reflexivity.
Qed.

Lemma summarize_chunks_footprint st bc n chunks :
  valid_mode st ->
  forall idx partials,
  emits (only summarizer_event) (summarize_chunks w st bc n idx chunks partials).
Proof.
  intros Hv. induction chunks as [|chunk rest IH]; intros idx partials.
  - apply emits_ret.
  - cbn [summarize_chunks]. apply emits_bind; [|intros; apply IH].
    apply emits_catch.
    + pose proof (chunk_prompt_not_comprehensive st bc chunk Hv) as Hp.
      destruct (chunk_prompt st bc chunk) as [prompt max_tokens]. simpl in Hp.
      apply emits_bind; [now apply emits_call|]. intros result.
      repeat step; reflexivity.
    + intros e. repeat step; reflexivity.
Qed.

Lemma summarize_chunks_calls st bc n chunks :
  forall idx partials,
  adds_at_most is_generate (length chunks) (summarize_chunks w st bc n idx chunks partials).
Proof.
  induction chunks as [|chunk rest IH]; intros idx partials.
  - apply adds_ret.
  - cbn [summarize_chunks length]. change (S (length rest)) with (1 + length rest)%nat.
    apply adds_bind; [|intros; apply IH].
    change 1%nat with (1 + 0)%nat. apply adds_catch.
    + destruct (chunk_prompt st bc chunk) as [prompt max_tokens].
      change 1%nat with (1 + 0)%nat. apply adds_bind; [apply adds_call|].
      intros result. apply adds_of_emits. repeat step; reflexivity.
    + intros e. apply adds_of_emits. repeat step; reflexivity.
Qed.

Lemma summarize_chunks_partials st bc n chunks :
  forall idx partials,
  returns (fun ps => length ps <= length partials + length chunks)%nat
          (summarize_chunks w st bc n idx chunks partials).
Proof.
  induction chunks as [|chunk rest IH]; intros idx partials.
  - apply returns_ret. simpl. lia.
  - cbn [summarize_chunks].
    eapply returns_bind with (P := fun ps => (length ps <= length partials + 1)%nat).
    + apply returns_catch.
      * destruct (chunk_prompt st bc chunk) as [prompt max_tokens].
        eapply returns_bind; [apply returns_any|]. intros result _.
        destruct (truthy _); step; apply returns_ret;
          rewrite ?length_app; simpl; lia.
      * intros e. step. apply returns_ret. lia.
    + intros ps Hps h ps' h' E. pose proof (IH (S idx) ps h ps' h' E) as H.
      cbv beta in H, Hps |- *. cbn [length]. lia.
Qed.

End SummarizerFacts.

Lemma adds_bind_returns {A B} (f : Event -> bool) (Q : A -> Prop) (n1 n2 : nat)
    (m : M A) (k : A -> M B) :
  returns Q m -> adds_at_most f n1 m -> (forall a, Q a -> adds_at_most f n2 (k a)) ->
  adds_at_most f (n1 + n2) (bind m k).
Proof.
  intros Hr H1 H2 h. unfold bind. specialize (H1 h).
  destruct (m h) as [[a|e] h1] eqn:R; simpl snd in *.
  - specialize (H2 a (Hr _ _ _ R) h1). lia.
  - lia.
Qed.

Lemma new_events_bound {A} (f : Event -> bool) (P : Event -> Prop) (n : nat) (m : M A)
    (h : History) :
  emits P m -> adds_at_most f n m ->
  exists l, snd (m h) = (l ++ h)%list /\ Forall P l /\ (length (filter f l) <= n)%nat.
Proof.
  intros He Ha. destruct (He h) as (l & E & Hl). exists l. split; [exact E|].
  split; [exact Hl|]. specialize (Ha h). rewrite E, filter_app, length_app in Ha. lia.
Qed.

Section SummarizerBudget.

Variable w : World.

Lemma merge_prompt_event (st : string) (bc : option Z) (combined : string) :
  only summarizer_event (EGenerate (merge_prompt st bc combined) 3500).
Proof.
  unfold merge_prompt. destruct (st =? "short")%string; [reflexivity|].
  destruct (st =? "bullet")%string; reflexivity.
Qed.

Lemma summarize_via_gemini_footprint text summary_type bullet_count target_lang :
  emits (only summarizer_event)
        (summarize_via_gemini w text summary_type bullet_count target_lang).
Proof.
  unfold summarize_via_gemini.
  destruct (negb (truthy text)); [apply emits_ret|].
  destruct (negb (key_configured w)); [apply emits_ret|].
  apply emits_bind_returns with (Q := valid_mode).
  - apply normalize_returns_valid.
  - unfold normalize_summary_type. cbv zeta. repeat step; reflexivity.
  - intros st Hv. cbv zeta. apply emits_bind; [now apply emits_emit|]. intros _.
    apply emits_bind; [now apply summarize_chunks_footprint|]. intros partials.
    destruct partials as [|p [|q rest]].
    + repeat step; reflexivity.
    + repeat step; reflexivity.
    + apply emits_bind.
      * apply emits_catch.
        -- apply emits_bind; [apply emits_call, merge_prompt_event|]. intros final.
           cbv zeta. repeat step; reflexivity.
        -- intros e. repeat step; reflexivity.
      * intros [out|]; apply emits_ret.
Qed.

Lemma summarize_via_gemini_calls text summary_type bullet_count target_lang :
  adds_at_most is_generate
    (if len (strip text) <=? MAX_SAFE_CHUNK then 1 else 3)
    (summarize_via_gemini w text summary_type bullet_count target_lang).
Proof.
  assert (Z0 : forall {A} (a : A),
             adds_at_most is_generate
               (if len (strip text) <=? MAX_SAFE_CHUNK then 1 else 3) (ret a)).
  { intros A a. eapply adds_weaken; [|apply adds_ret]. lia. }
  unfold summarize_via_gemini.
  destruct (negb (truthy text)); [apply Z0|].
  destruct (negb (key_configured w)); [apply Z0|].
  set (n := if len (strip text) <=? MAX_SAFE_CHUNK then 1%nat else 3%nat).
  change n with (0 + n)%nat. apply adds_bind.
  { apply adds_of_emits. unfold normalize_summary_type. cbv zeta. repeat step; reflexivity. }
  intros st. cbv zeta. change n with (0 + n)%nat. apply adds_bind; [now apply adds_log|].
  intros _.
  set (chunks := make_chunks (strip text)).
  assert (Hc : (n = length chunks + (if (length chunks <=? 1)%nat then 0 else 1))%nat).
  { subst n chunks. rewrite make_chunks_cases.
    destruct (len (strip text) <=? MAX_SAFE_CHUNK); reflexivity. }
  rewrite Hc.
  apply adds_bind_returns with (Q := fun ps => (length ps <= length chunks)%nat).
  - intros h0 ps h1 E.
    pose proof (summarize_chunks_partials w st bullet_count (length chunks) chunks 1%nat []
                  h0 ps h1 E) as H. simpl in H. exact H.
  - apply summarize_chunks_calls.
  - intros ps Hps. destruct ps as [|p [|q rest]].
    + eapply adds_weaken; [|apply adds_of_emits; repeat step; reflexivity]. lia.
    + eapply adds_weaken; [|apply adds_of_emits; repeat step; reflexivity]. lia.
    + cbn [length] in Hps.
      assert ((length chunks <=? 1)%nat = false) as -> by (apply Nat.leb_gt; lia).
      apply (adds_bind is_generate 1 0).
      * apply (adds_catch is_generate 1 0).
        -- apply (adds_bind is_generate 1 0); [apply adds_call|]. intros final. cbv zeta.
           apply adds_of_emits. repeat step; reflexivity.
        -- intros e. apply adds_of_emits. repeat step; reflexivity.
      * intros [out|]; apply adds_ret.
Qed.

(** X14: the summarizer records only log lines and calls to the model; it
    never sends the comprehensive prompt, whatever mode is asked for; it
    calls the model at most 3 times (two chunks and one merge), and at most
    once when the stripped text is no longer than [MAX_SAFE_CHUNK]. *)
Theorem summarizer_calls_model_at_most_thrice (text summary_type : string)
    (bullet_count : option Z) (target_lang : string) (h : History) :
  exists l,
    snd (summarize_via_gemini w text summary_type bullet_count target_lang h) = (l ++ h)%list /\
    Forall (only summarizer_event) l /\
    (length (filter is_generate l) <=
     if (len (strip text) <=? MAX_SAFE_CHUNK)%Z then 1 else 3)%nat.
Proof.
  apply new_events_bound.
  - apply summarize_via_gemini_footprint.
  - apply summarize_via_gemini_calls.
Qed.

End SummarizerBudget.

(** * Further properties: what a request may cost *)

(** An event outside a footprint is not counted. *)
Ltac outside :=
  let e := fresh "e" in
  let H := fresh "H" in
  intros e H; destruct e; solve [reflexivity | discriminate H].

Section Budget.

Variable w : World.

Lemma attempt_footprint (n idx : nat) (t : Transcript) :
  emits (only attempt_event) (attempt w n idx t).
Proof.
  unfold attempt, call_fetch. apply emits_catch.
  - apply emits_bind; [now apply emits_emit|]. intros _.
    apply emits_bind; [now apply emits_call|]. intros fetched.
    repeat step; reflexivity.
  - intros e. repeat step; reflexivity.
Qed.

Lemma attempt_loop_footprint (n idx : nat) (attempts : list Transcript) :
  emits (only attempt_event) (attempt_loop w n idx attempts).
Proof.
  revert idx. induction attempts as [|t rest IH]; intros idx; cbn [attempt_loop].
  - apply emits_ret.
  - apply emits_bind; [apply attempt_footprint|].
    intros [| |v]; auto. apply emits_ret.
Qed.

Lemma try_transcript_api_footprint (video_id : string) (video_url : option string) :
  emits (only api_event) (try_transcript_api w video_id video_url).
Proof.
  unfold try_transcript_api, call_list_transcripts. apply emits_catch.
  - apply emits_bind; [now apply emits_emit|]. intros _.
    apply emits_bind; [now apply emits_call|]. intros ts.
    eapply emits_weaken; [|apply attempt_loop_footprint]. outside.
  - intros e. repeat step. reflexivity.
Qed.

Lemma attempt_loop_fetch_budget (n : nat) (attempts : list Transcript) (idx : nat) :
  adds_at_most is_fetch (length attempts) (attempt_loop w n idx attempts).
Proof.
  revert idx. induction attempts as [|t rest IH]; intros idx; cbn [attempt_loop length].
  - apply adds_ret.
  - apply (adds_bind is_fetch 1 (length rest)).
    + intros h. pose proof (attempt_one_fetch w n idx t h) as F.
      unfold fetch_events in F. rewrite F. simpl. lia.
    + intros [| |v]; try apply IH. eapply adds_weaken; [|apply adds_ret]. lia.
Qed.

Lemma try_transcript_api_fetch_budget (video_id : string) (video_url : option string) :
  adds_at_most is_fetch 4 (try_transcript_api w video_id video_url).
Proof.
  unfold try_transcript_api, call_list_transcripts.
  apply (adds_catch is_fetch 4 0).
  - apply (adds_bind is_fetch 0 4); [now apply adds_log|]. intros _.
    apply (adds_bind is_fetch 0 4).
    + intros h. simpl. lia.
    + intros ts. cbv zeta. eapply adds_weaken; [|apply attempt_loop_fetch_budget].
      apply all_attempts_at_most_four.
  - intros e. apply adds_of_emits. repeat step. reflexivity.
Qed.

Lemma try_transcript_api_listing_budget (video_id : string) (video_url : option string) :
  adds_at_most is_listing 1 (try_transcript_api w video_id video_url).
Proof.
  unfold try_transcript_api, call_list_transcripts.
  apply (adds_catch is_listing 1 0).
  - apply (adds_bind is_listing 0 1); [now apply adds_log|]. intros _.
    apply (adds_bind is_listing 1 0); [apply adds_call|]. intros ts. cbv zeta.
    apply adds_of_emits. eapply emits_weaken; [|apply attempt_loop_footprint]. outside.
  - intros e. apply adds_of_emits. repeat step. reflexivity.
Qed.

Lemma strategy_attempt_footprint url download n idx strategy last_error :
  emits (only extractor_event) (strategy_attempt w url download n idx strategy last_error).
Proof.
  unfold strategy_attempt, call_extract_info. apply emits_catch.
  - apply emits_bind; [now apply emits_emit|]. intros _.
    apply emits_bind; [now apply emits_call|]. intros info.
    repeat step; reflexivity.
  - intros e. repeat step; reflexivity.
Qed.

Lemma extract_footprint url download :
  emits (only extractor_event) (_extract_with_stable_client w url download).
Proof.
  unfold _extract_with_stable_client. generalize (length strategies) at 1.
  generalize 0%nat, (@None exn). induction strategies as [|s rest IH];
    intros idx last_error n; cbn [strategy_loop].
  - destruct last_error; apply emits_raise.
  - apply emits_bind; [apply strategy_attempt_footprint|].
    intros [info|le]; [apply emits_ret | apply IH].
Qed.

Lemma extract_budget url download :
  adds_at_most is_extract 3 (_extract_with_stable_client w url download).
Proof.
  intros h.
  destruct (strategy_loop_calls_at_most w url download (length strategies) strategies
              0%nat None h) as (done & E & rest & Hs).
  unfold extract_events in E. unfold _extract_with_stable_client. rewrite E.
  rewrite length_app, length_rev, length_map.
  apply (f_equal (@length _)) in Hs. rewrite length_app in Hs. simpl in Hs. lia.
Qed.

Lemma metadata_fallback_footprint url transcript :
  emits (only extractor_event) (metadata_fallback w url transcript).
Proof.
  unfold metadata_fallback. apply emits_bind; [now apply emits_emit|]. intros _.
  apply emits_catch.
  - apply emits_bind; [apply extract_footprint|]. intros info. cbv zeta.
    repeat step; reflexivity.
  - intros e. repeat step; reflexivity.
Qed.

Lemma metadata_fallback_budget url transcript :
  adds_at_most is_extract 3 (metadata_fallback w url transcript).
Proof.
  unfold metadata_fallback. apply (adds_bind is_extract 0 3); [now apply adds_log|].
  intros _. apply (adds_catch is_extract 3 0).
  - apply (adds_bind is_extract 3 0); [apply extract_budget|]. intros info. cbv zeta.
    apply adds_of_emits. repeat step; reflexivity.
  - intros e. apply adds_of_emits. repeat step; reflexivity.
Qed.

Lemma final_metadata_footprint url : emits (only extractor_event) (final_metadata w url).
Proof.
  unfold final_metadata. apply emits_bind.
  - apply emits_catch.
    + apply emits_bind; [now apply emits_emit|]. intros _.
      apply emits_bind; [apply extract_footprint|]. intros info. cbv zeta.
      repeat step; reflexivity.
    + intros e. repeat step; reflexivity.
  - intros [t|]; [apply emits_ret | apply emits_raise].
Qed.

Lemma final_metadata_budget url : adds_at_most is_extract 3 (final_metadata w url).
Proof.
  unfold final_metadata. apply (adds_bind is_extract 3 0).
  - apply (adds_catch is_extract 3 0).
    + apply (adds_bind is_extract 0 3); [now apply adds_log|]. intros _.
      apply (adds_bind is_extract 3 0); [apply extract_budget|]. intros info. cbv zeta.
      apply adds_of_emits. repeat step; reflexivity.
    + intros e. apply adds_of_emits. repeat step; reflexivity.
  - intros [t|]; [apply adds_ret | apply adds_raise].
Qed.

Lemma fetch_segment_footprint seg collected :
  emits (only candidate_event) (fetch_segment w seg collected).
Proof.
  unfold fetch_segment, call_requests_get. apply emits_catch.
  - apply emits_bind; [now apply emits_call|]. intros rs. cbv zeta.
    repeat step; reflexivity.
  - intros e. repeat step; reflexivity.
Qed.

Lemma segment_loop_footprint segs :
  forall collected, emits (only candidate_event) (segment_loop w segs collected).
Proof.
  induction segs as [|seg rest IH]; intros collected; cbn [segment_loop].
  - apply emits_ret.
  - apply emits_bind; [apply fetch_segment_footprint | intros; apply IH].
Qed.

Lemma segment_loop_budget segs :
  forall collected, adds_at_most is_get (length segs) (segment_loop w segs collected).
Proof.
  induction segs as [|seg rest IH]; intros collected; cbn [segment_loop length].
  - apply adds_ret.
  - apply (adds_bind is_get 1 (length rest)); [|intros; apply IH].
    unfold fetch_segment, call_requests_get. apply (adds_catch is_get 1 0).
    + apply (adds_bind is_get 1 0); [apply adds_call|]. intros rs. cbv zeta.
      apply adds_of_emits. repeat step; reflexivity.
    + intros e. apply adds_of_emits. repeat step; reflexivity.
Qed.

Lemma fetch_hls_playlist_footprint url text :
  emits (only candidate_event) (fetch_hls_playlist w url text).
Proof.
  unfold fetch_hls_playlist. cbv zeta. apply emits_bind; [now apply emits_emit|].
  intros _. apply emits_bind; [apply segment_loop_footprint|]. intros collected.
  repeat step; reflexivity.
Qed.

Lemma fetch_hls_playlist_budget url text :
  adds_at_most is_get 20 (fetch_hls_playlist w url text).
Proof.
  unfold fetch_hls_playlist. cbv zeta. apply (adds_bind is_get 0 20); [now apply adds_log|].
  intros _. apply (adds_bind is_get 20 0).
  - eapply adds_weaken; [|apply segment_loop_budget].
    rewrite length_firstn. change (Z.to_nat max_segs) with 20%nat. lia.
  - intros collected. apply adds_of_emits. repeat step; reflexivity.
Qed.

Lemma try_candidate_footprint start idx c :
  emits (only candidate_event) (try_candidate w start idx c).
Proof.
  unfold try_candidate, call_time, call_requests_get.
  apply emits_bind; [now apply emits_call|]. intros now. cbv zeta.
  destruct (negb _); [repeat step; reflexivity|].
  destruct (cand_url c) as [url|]; [|apply emits_ret].
  destruct (negb (truthy url)); [apply emits_ret|].
  apply emits_catch.
  - apply emits_bind; [now apply emits_call|]. intros r.
    destruct (_ && _)%bool; [|apply emits_ret].
    destruct (startswith _ _); [apply fetch_hls_playlist_footprint|].
    repeat step; reflexivity.
  - intros e. repeat step; reflexivity.
Qed.

Lemma try_candidate_budget start idx c :
  adds_at_most is_get 21 (try_candidate w start idx c).
Proof.
  assert (Z0 : forall (v : flow (option string)), adds_at_most is_get 21 (ret v)).
  { intros v. eapply adds_weaken; [|apply adds_ret]. lia. }
  unfold try_candidate, call_time, call_requests_get.
  apply (adds_bind is_get 0 21); [intros h; simpl; lia|]. intros now. cbv zeta.
  destruct (negb _).
  { eapply adds_weaken; [|apply adds_of_emits; repeat step; reflexivity]. lia. }
  destruct (cand_url c) as [url|]; [|apply Z0].
  destruct (negb (truthy url)); [apply Z0|].
  apply (adds_catch is_get 21 0).
  - apply (adds_bind is_get 1 20); [apply adds_call|]. intros r.
    destruct (_ && _)%bool; [|eapply adds_weaken; [|apply adds_ret]; lia].
    destruct (startswith _ _); [apply fetch_hls_playlist_budget|].
    eapply adds_weaken; [|apply adds_of_emits; repeat step; reflexivity]. lia.
  - intros e. apply adds_of_emits. repeat step; reflexivity.
Qed.

Lemma candidate_loop_footprint start candidates :
  forall idx, emits (only candidate_event) (candidate_loop w start idx candidates).
Proof.
  induction candidates as [|c rest IH]; intros idx; cbn [candidate_loop].
  - apply emits_ret.
  - apply emits_bind; [apply try_candidate_footprint|].
    intros [| |v]; auto; apply emits_ret.
Qed.

Lemma candidate_loop_budget start candidates :
  forall idx,
  adds_at_most is_get (21 * length candidates) (candidate_loop w start idx candidates).
Proof.
  induction candidates as [|c rest IH]; intros idx; cbn [candidate_loop length].
  - apply adds_ret.
  - replace (21 * S (length rest))%nat with (21 + 21 * length rest)%nat by lia.
    apply adds_bind; [apply try_candidate_budget|].
    intros [| |v]; try apply IH; eapply adds_weaken; try apply adds_ret; lia.
Qed.

Lemma build_candidates_at_most_three (info : Info) :
  (length (build_candidates info) <= 3)%nat.
Proof.
  unfold build_candidates. set (all_tracks := dict_merge _ _).
  rewrite split_candidates_flat_map. simpl app. unfold candidates_of.
  destruct (flat_map english_items all_tracks) as [|e es] eqn:He.
  - destruct (flat_map other_items all_tracks) as [|o os] eqn:Ho.
    + rewrite (fallback_finds_nothing all_tracks (firstn 2 all_tracks) He Ho)
        by apply incl_firstn.
      simpl. lia.
    + pose proof (firstn_le_length 2 (o :: os)). lia.
  - apply firstn_le_length.
Qed.

Lemma try_ytdlp_subtitles_footprint url :
  emits (only subtitle_event) (try_ytdlp_subtitles w url).
Proof.
  unfold try_ytdlp_subtitles, call_time.
  apply emits_bind; [now apply emits_emit|]. intros _.
  apply emits_bind; [now apply emits_call|]. intros start.
  apply emits_catch.
  - apply emits_bind.
    { eapply emits_weaken; [|apply extract_footprint]. outside. }
    intros info. apply emits_bind.
    { eapply emits_weaken; [|apply candidate_loop_footprint]. outside. }
    intros [v|]; repeat step; reflexivity.
  - intros e. repeat step; reflexivity.
Qed.

Lemma try_ytdlp_subtitles_get_budget url :
  adds_at_most is_get 63 (try_ytdlp_subtitles w url).
Proof.
  unfold try_ytdlp_subtitles, call_time.
  apply (adds_bind is_get 0 63); [now apply adds_log|]. intros _.
  apply (adds_bind is_get 0 63); [intros h; simpl; lia|]. intros start.
  apply (adds_catch is_get 63 0).
  - apply (adds_bind is_get 0 63).
    { apply adds_of_emits. eapply emits_weaken; [|apply extract_footprint]. outside. }
    intros info. apply (adds_bind is_get 63 0).
    + eapply adds_weaken; [|apply candidate_loop_budget].
      pose proof (build_candidates_at_most_three info). lia.
    + intros [v|]; apply adds_of_emits; repeat step; reflexivity.
  - intros e. apply adds_of_emits. repeat step; reflexivity.
Qed.

Lemma try_ytdlp_subtitles_extract_budget url :
  adds_at_most is_extract 3 (try_ytdlp_subtitles w url).
Proof.
  unfold try_ytdlp_subtitles, call_time.
  apply (adds_bind is_extract 0 3); [now apply adds_log|]. intros _.
  apply (adds_bind is_extract 0 3); [intros h; simpl; lia|]. intros start.
  apply (adds_catch is_extract 3 0).
  - apply (adds_bind is_extract 3 0); [apply extract_budget|].
    intros info. apply (adds_bind is_extract 0 0).
    + apply adds_of_emits. eapply emits_weaken; [|apply candidate_loop_footprint]. outside.
    + intros [v|]; apply adds_of_emits; repeat step; reflexivity.
  - intros e. apply adds_of_emits. repeat step; reflexivity.
Qed.

End Budget.

Section RequestBudget.

Variable w : World.

Lemma extract_video_id_adds (f : Event -> bool) (url : string) :
  adds_at_most f 0 (extract_video_id url).
Proof.
  intros h. unfold extract_video_id.
  destruct (re_search match_watch url); [simpl; lia|].
  destruct (re_search match_short url); [simpl; lia|].
  destruct (re_search match_bare url); simpl; lia.
Qed.

Lemma pipeline_adds (f : Event -> bool) (na ns nm nf : nat) (url : string) :
  (forall s, f (ELog s) = false) ->
  (forall vid vurl, adds_at_most f na (try_transcript_api w vid vurl)) ->
  adds_at_most f ns (try_ytdlp_subtitles w url) ->
  (forall t, adds_at_most f nm (metadata_fallback w url t)) ->
  adds_at_most f nf (final_metadata w url) ->
  adds_at_most f (na + ns + nm + nf) (extract_transcript_from_youtube w url).
Proof.
  intros Hlog Ha Hs Hm Hf. unfold extract_transcript_from_youtube.
  apply (adds_weaken f (0 + (0 + (na + (ns + (nm + nf)))))); [lia|].
  apply adds_bind; [now apply adds_log|]. intros _.
  apply adds_bind; [apply extract_video_id_adds|]. intros vid.
  apply adds_bind; [apply Ha|]. intros t1.
  apply adds_bind.
  { destruct (negb (opt_truthy t1)); [apply Hs|].
    eapply adds_weaken; [|apply adds_ret]. lia. }
  intros t2. apply adds_bind.
  { destruct (negb (opt_truthy t2)); [apply Hm|].
    eapply adds_weaken; [|apply adds_ret]. lia. }
  intros [t|]; [|apply Hf].
  destruct (_ && _)%bool; [|apply Hf].
  eapply adds_weaken; [|apply adds_ret]. lia.
Qed.

Lemma pipeline_footprint (url : string) :
  emits (only pipeline_event) (extract_transcript_from_youtube w url).
Proof.
  unfold extract_transcript_from_youtube.
  apply emits_bind; [now apply emits_emit|]. intros _.
  apply emits_bind.
  { intros h. exists []. split; [|constructor].
    unfold extract_video_id.
    destruct (re_search match_watch url); [reflexivity|].
    destruct (re_search match_short url); [reflexivity|].
    destruct (re_search match_bare url); reflexivity. }
  intros vid. apply emits_bind.
  { eapply emits_weaken; [|apply try_transcript_api_footprint]. outside. }
  intros t1. apply emits_bind.
  { destruct (negb (opt_truthy t1)); [|apply emits_ret].
    eapply emits_weaken; [|apply try_ytdlp_subtitles_footprint]. outside. }
  intros t2. apply emits_bind.
  { destruct (negb (opt_truthy t2)); [|apply emits_ret].
    eapply emits_weaken; [|apply metadata_fallback_footprint]. outside. }
  assert (F : emits (only pipeline_event) (final_metadata w url)).
  { eapply emits_weaken; [|apply final_metadata_footprint]. outside. }
  intros [t|]; [|exact F]. destruct (_ && _)%bool; [apply emits_ret | exact F].
Qed.

(** A stage that records no event of the kind [f] adds none. *)
Lemma adds_none {A} (f allowed : Event -> bool) (m : M A) :
  (forall e, only allowed e -> f e = false) ->
  emits (only allowed) m -> adds_at_most f 0 m.
Proof.
  intros H He. apply adds_of_emits. eapply emits_weaken; [|exact He]. exact H.
Qed.

(** X15: the direct-subtitles stage records only log lines, clock
    readings, calls to [extract_info] and HTTP GETs; it calls [extract_info]
    at most 3 times and issues at most 63 GETs (3 candidates, each one GET
    and at most 20 segments). *)
Theorem subtitle_stage_budget (url : string) (h : History) :
  exists l,
    snd (try_ytdlp_subtitles w url h) = (l ++ h)%list /\
    Forall (only subtitle_event) l /\
    (length (filter is_extract l) <= 3)%nat /\
    (length (filter is_get l) <= 63)%nat.
Proof.
  destruct (new_events_bound is_extract _ 3 _ h (try_ytdlp_subtitles_footprint w url)
              (try_ytdlp_subtitles_extract_budget w url)) as (l & E & Hl & H1).
  destruct (new_events_bound is_get _ 63 _ h (try_ytdlp_subtitles_footprint w url)
              (try_ytdlp_subtitles_get_budget w url)) as (l' & E' & _ & H2).
  rewrite E in E'. apply app_inv_tail in E'. subst l'.
  exists l. auto.
Qed.

(** X16: one run of the pipeline never calls the model, lists the caption
    tracks at most once, fetches at most 4 of them, calls [extract_info] at
    most 9 times (3 stages, 3 client identities each) and issues at most 63
    HTTP GETs. *)
Theorem pipeline_budget (url : string) (h : History) :
  exists l,
    snd (extract_transcript_from_youtube w url h) = (l ++ h)%list /\
    Forall (only pipeline_event) l /\
    (length (filter is_listing l) <= 1)%nat /\
    (length (filter is_fetch l) <= 4)%nat /\
    (length (filter is_extract l) <= 9)%nat /\
    (length (filter is_get l) <= 63)%nat.
Proof.
  pose proof (pipeline_footprint url) as F.
  assert (B1 : adds_at_most is_listing (1 + 0 + 0 + 0)
                 (extract_transcript_from_youtube w url)).
  { apply pipeline_adds; [reflexivity | | | |].
    - intros. apply try_transcript_api_listing_budget.
    - eapply adds_none; [|apply (try_ytdlp_subtitles_footprint w url)]; outside.
    - intros t. eapply adds_none; [|apply (metadata_fallback_footprint w url t)]; outside.
    - eapply adds_none; [|apply (final_metadata_footprint w url)]; outside. }
  assert (B2 : adds_at_most is_fetch (4 + 0 + 0 + 0)
                 (extract_transcript_from_youtube w url)).
  { apply pipeline_adds; [reflexivity | | | |].
    - intros. apply try_transcript_api_fetch_budget.
    - eapply adds_none; [|apply (try_ytdlp_subtitles_footprint w url)]; outside.
    - intros t. eapply adds_none; [|apply (metadata_fallback_footprint w url t)]; outside.
    - eapply adds_none; [|apply (final_metadata_footprint w url)]; outside. }
  assert (B3 : adds_at_most is_extract (0 + 3 + 3 + 3)
                 (extract_transcript_from_youtube w url)).
  { apply pipeline_adds; [reflexivity | | | |].
    - intros vid vurl.
      eapply adds_none; [|apply (try_transcript_api_footprint w vid vurl)]; outside.
    - apply try_ytdlp_subtitles_extract_budget.
    - intros t. apply metadata_fallback_budget.
    - apply final_metadata_budget. }
  assert (B4 : adds_at_most is_get (0 + 63 + 0 + 0)
                 (extract_transcript_from_youtube w url)).
  { apply pipeline_adds; [reflexivity | | | |].
    - intros vid vurl.
      eapply adds_none; [|apply (try_transcript_api_footprint w vid vurl)]; outside.
    - apply try_ytdlp_subtitles_get_budget.
    - intros t. eapply adds_none; [|apply (metadata_fallback_footprint w url t)]; outside.
    - eapply adds_none; [|apply (final_metadata_footprint w url)]; outside. }
  destruct (F h) as (l & E & Hl). exists l. split; [exact E|]. split; [exact Hl|].
  specialize (B1 h). specialize (B2 h). specialize (B3 h). specialize (B4 h).
  rewrite E, filter_app, length_app in B1, B2, B3, B4. simpl in *. repeat split; lia.
Qed.

End RequestBudget.

(** * Further properties: the endpoint and the metadata text *)

Lemma nonblank_has_length (t : string) : truthy (strip t) = true -> 0 < len t.
Proof.
  rewrite truthy_strip. destruct t; [discriminate|]. intros _. unfold len. simpl. lia.
Qed.

Lemma length_differs_eqb (a b : string) :
  String.length a <> String.length b -> (a =? b)%string = false.
Proof.
  intros H. apply String.eqb_neq. intros ->. now apply H.
Qed.

Section EndpointFacts.

Variable w : World.

(** X17: as long as printing a log line, constructing the model object
    and [format_summary_output] do not raise (the three steps this
    development takes as given), whatever the transcript API, yt-dlp,
    [requests] and the model answer or raise, [summarize_youtube] answers
    with a successful response for a non-empty transcript, or raises one of
    two HTTP 400 errors: the invalid-URL error or the exhaustion error.  No
    failure of an upstream service reaches the translation of error messages
    at lines 840-856. *)
Theorem endpoint_answers_or_raises_400 (url summary_type : string) (bullet_count : option Z)
    (target_lang : string) (h : History) :
  match fst (summarize_youtube w url summary_type bullet_count target_lang h) with
  | Ok r =>
      success r = true /\ resp_video_url r = url /\ resp_summary_type r = summary_type /\
      0 < transcript_length r
  | Raise e => e = invalid_url \/ e = exhausted
  end.
Proof.
  pose proof (pipeline_outcome w url (ELog (processing_msg url summary_type) :: h)) as P.
  unfold summarize_youtube, try_catch.
  rewrite (bind_run _ _ _ _ _ (log_run _ h)). fold (processing_msg url summary_type).
  unfold bind at 1.
  destruct (extract_transcript_from_youtube w url _) as [[t|e] h1]; simpl fst in P.
  - rewrite P. cbv beta iota delta [negb].
    rewrite (bind_run _ _ _ _ _ (log_run _ h1)).
    match goal with
    | |- context [ELog ?msg :: h1] =>
        destruct (summarize_via_gemini_yields w t summary_type bullet_count "en"
                    (ELog msg :: h1)) as (final & h2 & Es & _)
    end.
    rewrite (bind_run _ _ _ _ _ Es). simpl.
    repeat split. now apply nonblank_has_length.
  - destruct P as [->| ->]; simpl; [now left | now right].
Qed.

Lemma fallback_text_has_marker (title uploader duration views upload desc : string) :
  contains metadata_marker (fallback_text title uploader duration views upload desc) = true.
Proof.
  unfold fallback_text. do 22 apply contains_app.
  change disclaimer
    with (metadata_marker
          ++ " for this video. This summary is based on the video metadata only.").
  apply contains_here.
Qed.

Lemma fallback_text_of_has_marker (info : Info) (t : string) :
  fallback_text_of w info = Ok t -> contains metadata_marker t = true.
Proof.
  unfold fallback_text_of. cbv zeta. destruct (duration_str _) as [d|e]; [|discriminate].
  intros [= <-]. apply fallback_text_has_marker.
Qed.

(** X18: a text that the last stage returns is the labelled block of
    lines 390-400 built from the info dict the extractor returned in that
    stage, and contains the phrase that the endpoint tests for: a request
    answered by the last stage is always flagged [metadata_only]. *)
Theorem full_metadata_text_is_flagged (url : string) (h h' : History) (t : string) :
  final_metadata w url h = (Ok t, h') ->
  (exists info hx,
     _extract_with_stable_client w url false
       (ELog "Final attempt: fetching video metadata..." :: h) = (Ok info, hx) /\
     fallback_text_of w info = Ok t /\
     h' = ELog "Successfully retrieved metadata for summarization" :: hx) /\
  contains metadata_marker t = true.
Proof.
  unfold final_metadata. unfold bind at 1, try_catch.
  rewrite (bind_run _ _ _ _ _ (log_run _ h)).
  unfold bind at 1.
  destruct (_extract_with_stable_client w url false _) as [[info|e] hx] eqn:Ex.
  - unfold bind at 1, of_result.
    destruct (fallback_text_of w info) as [text|e] eqn:Et.
    + destruct (truthy (strip text)).
      * rewrite (bind_run _ _ _ _ _ (log_run _ hx)). unfold ret. intros [= <- <-].
        split; [|exact (fallback_text_of_has_marker info text Et)].
        exists info, hx. repeat split. exact Et.
      * unfold ret, raise. discriminate.
    + rewrite (bind_run _ _ _ _ _ (log_run _ hx)). unfold ret, raise. discriminate.
  - rewrite (bind_run _ _ _ _ _ (log_run _ hx)). unfold ret, raise. discriminate.
Qed.

End EndpointFacts.

Lemma full_metadata_text_is_flagged_witness :
  let w := blank_metadata_world in
  (exists info hx,
     _extract_with_stable_client w sample_url false
       [ELog "Final attempt: fetching video metadata..."] = (Ok info, hx) /\
     fallback_text_of w info = Ok unknown_video_text /\
     snd (final_metadata w sample_url []) =
       ELog "Successfully retrieved metadata for summarization" :: hx) /\
  contains metadata_marker unknown_video_text = true.
Proof.
  cbv zeta.
  apply (full_metadata_text_is_flagged blank_metadata_world sample_url []
           (snd (final_metadata blank_metadata_world sample_url []))).
  reflexivity.
Defined.

(** * Further properties: the formatting of the metadata text *)

(** X19: an upload date of 8 characters, 4 for the year, 2 for the month and
    2 for the day, is printed as year-month-day with the same characters. *)
Theorem upload_date_gets_dashes (year month day : string) :
  String.length year = 4%nat ->
  String.length month = 2%nat ->
  String.length day = 2%nat ->
  upload_date_str (year ++ month ++ day) = year ++ "-" ++ month ++ "-" ++ day.
Proof.
  intros Hy Hm Hd.
  destruct year as [|y1 [|y2 [|y3 [|y4 [|]]]]]; try discriminate.
  destruct month as [|m1 [|m2 [|]]]; try discriminate.
  destruct day as [|d1 [|d2 [|]]]; try discriminate.
  unfold upload_date_str. rewrite length_differs_eqb by (simpl; lia). reflexivity.
Qed.

Lemma upload_date_gets_dashes_witness :
  upload_date_str ("2023" ++ "06" ++ "15") = "2023" ++ "-" ++ "06" ++ "-" ++ "15".
Proof. apply (upload_date_gets_dashes "2023" "06" "15"); reflexivity. Defined.

Lemma pad2_two_digits (z : Z) : 0 <= z < 60 -> String.length (pad2 z) = 2%nat.
Proof.
  intros H. rewrite <- (Z2Nat.id z) by lia.
  assert (Hn : (Z.to_nat z < 60)%nat) by lia. revert Hn. generalize (Z.to_nat z) as n.
  intros n Hn. do 60 (destruct n as [|n]; [reflexivity|]). lia.
Qed.

(** X20: a non-zero duration that is an [int] is printed as the minutes, a
    colon and the seconds, and the seconds always take exactly two
    characters; for a non-zero duration that is a [float] nothing is printed:
    the format of line 365 raises a [ValueError]. *)
Theorem duration_has_two_digit_seconds (d : Z) (q : Q) :
  d <> 0 ->
  ~ (q == 0)%Q ->
  (exists seconds,
     duration_str (Some (Int d)) = Ok (of_Z (d / 60) ++ ":" ++ seconds) /\
     seconds = pad2 (d mod 60) /\
     String.length seconds = 2%nat) /\
  duration_str (Some (Float q)) = Raise float_format_error.
Proof.
  intros Hd Hq. split.
  - exists (pad2 (d mod 60)). unfold duration_str.
    apply Z.eqb_neq in Hd. rewrite Hd. cbn [negb]. split; [reflexivity|].
    split; [reflexivity|]. apply pad2_two_digits. apply Z.mod_pos_bound. lia.
  - unfold duration_str. destruct (Qeq_bool q 0) eqn:E; [|reflexivity].
    apply Qeq_bool_eq in E. contradiction.
Qed.

Lemma duration_has_two_digit_seconds_witness :
  (exists seconds,
     duration_str (Some (Int 125)) = Ok (of_Z (125 / 60) ++ ":" ++ seconds) /\
     seconds = pad2 (125 mod 60) /\
     String.length seconds = 2%nat) /\
  duration_str (Some (Float (425 # 2))) = Raise float_format_error.
Proof. apply (duration_has_two_digit_seconds 125 (425 # 2)); discriminate. Defined.

(** X22: when the info dict that the last stage obtains reports a non-zero
    duration that is a [float], the last stage fails although the metadata
    was retrieved: the [ValueError] is logged and the exhaustion error is
    raised. *)
Theorem float_duration_fails_last_stage (w : World) (url : string) (h hx : History)
    (info : Info) (q : Q) :
  _extract_with_stable_client w url false
    (ELog "Final attempt: fetching video metadata..." :: h) = (Ok info, hx) ->
  duration info = Some (Some (Float q)) ->
  ~ (q == 0)%Q ->
  final_metadata w url h =
    (Raise exhausted,
     ELog ("Final metadata fetch also failed: " ++ str_exn float_format_error) :: hx).
Proof.
  intros Ex Hd Hq.
  assert (Et : fallback_text_of w info = Raise float_format_error).
  { unfold fallback_text_of. cbv zeta. rewrite Hd. cbn [get_or].
    unfold duration_str. destruct (Qeq_bool q 0) eqn:E; [|reflexivity].
    apply Qeq_bool_eq in E. contradiction. }
  unfold final_metadata. unfold bind at 1, try_catch.
  rewrite (bind_run _ _ _ _ _ (log_run _ h)), (bind_run _ _ _ _ _ Ex).
  unfold bind at 1, of_result. rewrite Et.
  rewrite (bind_run _ _ _ _ _ (log_run _ hx)). reflexivity.
Qed.

Lemma float_duration_fails_last_stage_witness :
  final_metadata float_duration_world sample_url [] =
    (Raise exhausted,
     ELog ("Final metadata fetch also failed: " ++ str_exn float_format_error)
     :: snd (_extract_with_stable_client float_duration_world sample_url false
               [ELog "Final attempt: fetching video metadata..."])).
Proof.
  apply (float_duration_fails_last_stage float_duration_world sample_url [] _
           float_duration_info (425 # 2)); [reflexivity | reflexivity | discriminate].
Defined.

(** X21: the pipeline never returns blank text: it returns text that
    [strip] leaves non-empty, or raises the invalid-URL error or the
    exhaustion error, both HTTP 400; no failure of a stage reaches the
    caller as it is. *)
Theorem pipeline_returns_text_or_400 (w : World) (url : string) (h : History) :
  match fst (extract_transcript_from_youtube w url h) with
  | Ok t => strip t <> ""
  | Raise e => e = HTTPException 400 "Invalid YouTube URL." \/ e = exhausted
  end.
Proof.
  pose proof (pipeline_outcome w url h) as P.
  destruct (fst (extract_transcript_from_youtube w url h)) as [t|e]; [|exact P].
  intros E. rewrite E in P. discriminate.
Qed.
